(** * Omni-Utils: the synchronisation engine of RuntimeBase.py and UsdManager.py

    A shallow embedding of the Python sources and the properties of the
    specification that concern them.

    - Python values are the inductive [pyval]; a nested payload is a [PDict]
      whose items are kept in insertion order.
    - Flat dictionaries (the result of [flatten_obj], the staging buffer
      [_data_update]) and instance dictionaries are [gmap string _].
    - The scene-graph store is an external collaborator: it is modelled by
      the small interface the sources call (prims, typed attributes, [Get],
      [Set], [CreateAttribute]) over an explicit world state that also
      records, in order, every attribute write and every bridge write.
    - The two worker loops are run over a finite list of observations
      (alive flag, clock reading, callback outcome); Python floats are
      idealised as rationals, the properties concern control flow only. *)

From Stdlib Require Import QArith Ascii.
From stdpp Require Import gmap strings list fin_maps.

Set Warnings "-register-all".
Local Open Scope string_scope.
Local Open Scope list_scope.

(* ===================================================================== *)
(** * Python values

    [PMatrix4d] stands for a [Gf.Matrix4d], [PObject] for a host object the
    sources only pass around (a thread list, an event stream). *)
(* ===================================================================== *)

Inductive pyval : Type :=
| PNone
| PBool (b : bool)
| PInt (z : Z)
| PFloat (q : Q)
| PStr (s : string)
| PMatrix4d (rows : list (list Q))
| PList (l : list pyval)
| PDict (items : list (string * pyval))
| PObject (id : string).

(** [isinstance(obj, dict)] *)
Definition is_dict (obj : pyval) : bool :=
  match obj with PDict _ => true | _ => false end.

(** Python truthiness, as used by [if x] and [not x]. *)
Definition truthy (v : pyval) : bool :=
  match v with
  | PNone => false
  | PBool b => b
  | PInt z => negb (z =? 0)%Z
  | PFloat q => negb (Qeq_bool q 0)
  | PStr s => negb (String.eqb s "")
  | PMatrix4d _ => true
  | PList l => negb (Nat.eqb (length l) 0)
  | PDict d => negb (Nat.eqb (length d) 0)
  | PObject _ => true
  end.

(** [s[:-1]]: the string without its last character (the empty string stays
    empty). *)
Fixpoint drop_last (s : string) : string :=
  match s with
  | EmptyString => EmptyString
  | String c EmptyString => EmptyString
  | String c rest => String c (drop_last rest)
  end.

(* ===================================================================== *)
(** * UsdManager.flatten_obj *)
(* ===================================================================== *)

(** The inner [flatten(obj, key)] closure; the enclosing [flat_obj] that it
    mutates is threaded as an accumulator.  [for k in obj] walks the items
    in insertion order. *)
Fixpoint flatten (obj : pyval) (key : string) (flat_obj : gmap string pyval)
  {struct obj} : gmap string pyval :=
  match obj with
  | PDict items =>
      (fix each (its : list (string * pyval)) (acc : gmap string pyval)
         {struct its} : gmap string pyval :=
         match its with
         | [] => acc
         | (k, v) :: rest => each rest (flatten v (key +:+ k +:+ ".") acc)
         end) items flat_obj
  | _ => <[drop_last key := obj]> flat_obj
  end.

Definition flatten_obj (obj : pyval) : gmap string pyval :=
  flatten obj "" ∅.

(** The leaves of a payload with the list of field names leading to each,
    in the order the traversal meets them. *)
Fixpoint leaves (obj : pyval) : list (list string * pyval) :=
  match obj with
  | PDict items =>
      (fix each (its : list (string * pyval)) : list (list string * pyval) :=
         match its with
         | [] => []
         | (k, v) :: rest =>
             map (λ pv, (k :: pv.1, pv.2)) (leaves v) ++ each rest
         end) items
  | _ => [([], obj)]
  end.

(** A Python dictionary has one item per key, at every level. *)
Fixpoint wf_payload (obj : pyval) : Prop :=
  match obj with
  | PDict items =>
      NoDup (map fst items) ∧
      (fix each (its : list (string * pyval)) : Prop :=
         match its with
         | [] => True
         | (_, v) :: rest => wf_payload v ∧ each rest
         end) items
  | _ => True
  end.

(** No dot inside a string. *)
Fixpoint dot_free (s : string) : bool :=
  match s with
  | EmptyString => true
  | String c rest => negb (Ascii.eqb c "."%char) && dot_free rest
  end.

(** Every field name of the payload, at every level, is free of dots. *)
Fixpoint dot_free_fields (obj : pyval) : Prop :=
  match obj with
  | PDict items =>
      (fix each (its : list (string * pyval)) : Prop :=
         match its with
         | [] => True
         | (k, v) :: rest => dot_free k = true ∧ dot_free_fields v ∧ each rest
         end) items
  | _ => True
  end.

(** The flat key of a leaf path: its field names joined with dots. *)
Definition flat_key (path : list string) : string := String.concat "." path.

(* ===================================================================== *)
(** * The staging buffer of RuntimeUsd *)
(* ===================================================================== *)

(** The fields of a [RuntimeUsd] instance that the engine reads and writes.
    [_data_update] is the staging buffer; every access to it in the sources
    is made under [self._lock], so each function below is one atomic step. *)
Record RuntimeUsd : Type := {
  _root_prim_path : string;
  _data_update : gmap string pyval
}.

(** A bus event: its payload dictionary. *)
Record event : Type := { payload : gmap string pyval }.

(** [self._data_update.update(data)] *)
Definition dict_update (d data : gmap string pyval) : gmap string pyval :=
  data ∪ d.

(** [_on_data_read]: [None] when [event.payload["data"]] raises [KeyError]. *)
Definition _on_data_read (self : RuntimeUsd) (ev : event) : option RuntimeUsd :=
  match payload ev !! "data" with
  | None => None
  | Some data =>
      let data := flatten_obj data in
      Some {| _root_prim_path := _root_prim_path self;
              _data_update := dict_update (_data_update self) data |}
  end.

(** The first phase of [_on_update_event], up to the swap made under the
    lock: the result is the drained dictionary [flat] ([None] on the two
    early returns) and the instance afterwards.  The second phase applies
    [flat] to the document key by key with [get_op_from_key], [execute] and
    [create], which are modelled further down. *)
Definition _on_update_event (stage_expired : bool) (self : RuntimeUsd)
  : option (gmap string pyval) * RuntimeUsd :=
  if stage_expired then (None, self)
  else if Nat.eqb (size (_data_update self)) 0 then (None, self)
  else (Some (_data_update self),
        {| _root_prim_path := _root_prim_path self; _data_update := ∅ |}).

(** Deposit a sequence of already flat dictionaries, oldest first. *)
Definition deposit_all (buf : gmap string pyval)
  (deposits : list (gmap string pyval)) : gmap string pyval :=
  foldl dict_update buf deposits.

(** The value of the most recent deposit that binds [k], if any. *)
Fixpoint latest (k : string) (deposits : list (gmap string pyval))
  : option pyval :=
  match deposits with
  | [] => None
  | d :: rest =>
      match latest k rest with
      | Some v => Some v
      | None => d !! k
      end
  end.

(* ===================================================================== *)
(** * The scene-graph store and the bridge (external collaborators)

    The sources reach the document only through handles: a prim handle is a
    path, an attribute handle a path and a name; both point into the one
    shared stage, so a [Set] through a handle is seen by every later [Get].
    What follows is the part of the store's behaviour the sources rely on:

    - a handle is valid when the prim (the attribute) exists;
    - calling a method on the handle of a prim that does not exist raises;
    - [Get] answers the authored value, [None] when there is none;
    - [Set] raises on an attribute that does not exist or when the value
      does not fit the declared type, and otherwise stores the value;
    - [CreateAttribute] keeps an attribute that already exists, with the
      type it has;
    - [write_variable] hands a value to the bridge.

    Every write is appended to [effects], oldest first. *)
(* ===================================================================== *)

Inductive sdf_type : Type :=
| TString | TBool | TInt | TDouble | TMatrix4d | TStringArray | TTokenArray.

Record attribute : Type := {
  attr_type : sdf_type;
  attr_value : option pyval
}.

Record prim : Type := {
  prim_type_name : string;
  prim_attrs : gmap string attribute
}.

Inductive effect : Type :=
| EDefinePrim (path : string)
| ECreateAttribute (path name : string) (ty : sdf_type)
| ESet (path name : string) (v : pyval)
| EWriteVariable (symbol value : pyval).

Record world : Type := {
  prims : gmap string prim;
  expired : bool;
  effects : list effect
}.

(** A computation over the world that returns or raises; the world reached
    is kept in both cases. *)
Inductive res (A : Type) : Type :=
| Ok (a : A) (w : world)
| Raised (w : world).
Arguments Ok {A} a w.
Arguments Raised {A} w.

Definition M (A : Type) : Type := world → res A.

Definition ret {A} (a : A) : M A := λ w, Ok a w.
Definition raise {A} : M A := λ w, Raised w.
Definition bind {A B} (c : M A) (k : A → M B) : M B :=
  λ w, match c w with
       | Ok a w' => k a w'
       | Raised w' => Raised w'
       end.

Notation "x <- c ;; k" := (bind c (λ x, k))
  (at level 20, c at level 99, k at level 200, only parsing).
Notation "c ;;; k" := (bind c (λ _, k))
  (at level 100, k at level 200, right associativity, only parsing).

Definition world_of {A} (r : res A) : world :=
  match r with Ok _ w => w | Raised w => w end.

Definition log_effect (e : effect) : M unit :=
  λ w, Ok tt {| prims := prims w; expired := expired w;
                effects := effects w ++ [e] |}.

Definition set_prims (ps : gmap string prim) : M unit :=
  λ w, Ok tt {| prims := ps; expired := expired w; effects := effects w |}.

Abbreviation prim_handle := string.
Abbreviation attr_handle := (string * string)%type.

(** [stage.GetPrimAtPath(path)] *)
Definition GetPrimAtPath (path : string) : M prim_handle := ret path.

(** [bool(prim)], [prim.IsValid()] *)
Definition prim_IsValid (p : prim_handle) : M bool :=
  λ w, Ok (bool_decide (is_Some (prims w !! p))) w.

Definition find_attr (w : world) (h : attr_handle) : option attribute :=
  pr ← prims w !! h.1; prim_attrs pr !! h.2.

(** [prim.GetAttribute(name)] *)
Definition GetAttribute (p : prim_handle) (name : string) : M attr_handle :=
  λ w, match prims w !! p with
       | Some _ => Ok (p, name) w
       | None => Raised w
       end.

(** [bool(attr)], [attr.IsValid()] *)
Definition attr_IsValid (h : attr_handle) : M bool :=
  λ w, Ok (bool_decide (is_Some (find_attr w h))) w.

(** [attr.Get()] *)
Definition attr_Get (h : attr_handle) : M pyval :=
  λ w, match prims w !! h.1 with
       | None => Raised w
       | Some pr =>
           match prim_attrs pr !! h.2 with
           | Some a => Ok (default PNone (attr_value a)) w
           | None => Ok PNone w
           end
       end.

(** [attr.GetTypeName()] *)
Definition attr_GetTypeName (h : attr_handle) : M (option sdf_type) :=
  λ w, match prims w !! h.1 with
       | None => Raised w
       | Some pr => Ok (attr_type <$> prim_attrs pr !! h.2) w
       end.

Definition all_strings (l : list pyval) : bool :=
  forallb (λ v, match v with PStr _ => true | _ => false end) l.

(** The value the store keeps when [v] is set on an attribute of type [ty];
    [None] when [v] does not fit. *)
Definition sdf_coerce (ty : sdf_type) (v : pyval) : option pyval :=
  match ty, v with
  | TString, PStr _ => Some v
  | TBool, PBool _ => Some v
  | TInt, PInt _ => Some v
  | TInt, PBool b => Some (PInt (if b then 1 else 0))
  | TDouble, PFloat _ => Some v
  | TDouble, PInt z => Some (PFloat (inject_Z z))
  | TDouble, PBool b => Some (PFloat (if b then 1 else 0))
  | TMatrix4d, PMatrix4d _ => Some v
  | TStringArray, PList l => if all_strings l then Some v else None
  | TTokenArray, PList l => if all_strings l then Some v else None
  | _, _ => None
  end.

Definition put_attr (ps : gmap string prim) (h : attr_handle) (a : attribute)
  : gmap string prim :=
  match ps !! h.1 with
  | Some pr =>
      <[h.1 := {| prim_type_name := prim_type_name pr;
                  prim_attrs := <[h.2 := a]> (prim_attrs pr) |}]> ps
  | None => ps
  end.

(** [attr.Set(value)] *)
Definition attr_Set (h : attr_handle) (v : pyval) : M unit :=
  λ w, match find_attr w h with
       | None => Raised w
       | Some a =>
           match sdf_coerce (attr_type a) v with
           | None => Raised w
           | Some v' =>
               (set_prims (put_attr (prims w) h
                             {| attr_type := attr_type a;
                                attr_value := Some v' |}) ;;;
                log_effect (ESet h.1 h.2 v')) w
           end
       end.

(** [prim.CreateAttribute(name, type)] *)
Definition CreateAttribute (p : prim_handle) (name : string) (ty : sdf_type)
  : M attr_handle :=
  λ w, match prims w !! p with
       | None => Raised w
       | Some pr =>
           match prim_attrs pr !! name with
           | Some _ => Ok (p, name) w
           | None =>
               (set_prims (put_attr (prims w) (p, name)
                             {| attr_type := ty; attr_value := None |}) ;;;
                log_effect (ECreateAttribute p name ty) ;;;
                ret (p, name)) w
           end
       end.

(** [self._bridge_manager.write_variable(symbol, value)] *)
Definition write_variable (symbol value : pyval) : M unit :=
  log_effect (EWriteVariable symbol value).

(** The bridge writes of a run, oldest first. *)
Definition bridge_writes (w : world) : list (pyval * pyval) :=
  omap (λ e, match e with
             | EWriteVariable s v => Some (s, v)
             | _ => None
             end) (effects w).

(** [UsdGeom.Xformable(prim).AddTransformOp()]: adds the matrix-typed
    attribute [xformOp:transform] and appends it to [xformOpOrder]; the
    store refuses an op that is already in the order. *)
Definition xform_order (pr : prim) : list string :=
  match prim_attrs pr !! "xformOpOrder" with
  | Some {| attr_value := Some (PList l) |} =>
      omap (λ v, match v with PStr s => Some s | _ => None end) l
  | _ => []
  end.

Definition AddTransformOp (p : prim_handle) : M unit :=
  λ w, match prims w !! p with
       | None => Raised w
       | Some pr =>
           if bool_decide ("xformOp:transform" ∈ xform_order pr)
           then Raised w
           else
             (CreateAttribute p "xformOp:transform" TMatrix4d ;;;
              order <- CreateAttribute p "xformOpOrder" TTokenArray ;;
              attr_Set order
                (PList (PStr <$> xform_order pr ++ ["xformOp:transform"]))) w
       end.

(** [s.split(sep)] for a one-character separator. *)
Fixpoint split_on (sep : ascii) (s : string) : list string :=
  match s with
  | EmptyString => [EmptyString]
  | String c rest =>
      let r := split_on sep rest in
      if Ascii.eqb c sep then EmptyString :: r
      else match r with
           | x :: xs => String c x :: xs
           | [] => [String c EmptyString]
           end
  end.

(** The paths that [DefinePrim(path)] makes sure exist: the ancestors of
    [path], outermost first, then [path]. *)
Definition path_and_ancestors (path : string) : list string :=
  let segs := split_on "/" path in
  map (λ i, String.concat "/" (take i segs)) (seq 2 (length segs - 1)).

Definition define_one (type_name : string) (ps : gmap string prim)
  (path : string) : gmap string prim :=
  match ps !! path with
  | Some pr =>
      if String.eqb type_name "" then ps
      else <[path := {| prim_type_name := type_name;
                        prim_attrs := prim_attrs pr |}]> ps
  | None => <[path := {| prim_type_name := type_name; prim_attrs := ∅ |}]> ps
  end.

(** [stage.DefinePrim(path, typeName)]; [typeName] is empty when omitted. *)
Definition DefinePrim (path type_name : string) : M prim_handle :=
  λ w, (set_prims (define_one type_name
                     (foldl (define_one "") (prims w)
                        (removelast (path_and_ancestors path))) path) ;;;
        log_effect (EDefinePrim path) ;;;
        ret path) w.

(* ===================================================================== *)
(** * UsdManager: the change-notification listener *)
(* ===================================================================== *)

Definition ATTR_CURRENT_VALUE : string := "value".
Definition ATTR_WRITE_VALUE : string := "write:value".
Definition ATTR_WRITE_PAUSE : string := "write:pause".
Definition ATTR_WRITE_ONCE : string := "write:once".
Definition ATTR_WRITE_SYMBOL : string := "symbol".

(** [changed.name] of an [Sdf.Path] given by its text: the property name
    after the dot, or the last prim name when there is no property. *)
Definition path_name (changed : string) : string :=
  List.last (split_on "." (List.last (split_on "/" changed) "")) "".

(** [str(changed).split(".")[0]] *)
Definition split_dot_0 (changed : string) : string :=
  hd "" (split_on "." changed).

Fixpoint for_each {A} (l : list A) (body : A → M unit) : M unit :=
  match l with
  | [] => ret tt
  | x :: rest => body x ;;; for_each rest body
  end.

(** The body of [if write_once_attr.Get() or not write_pause_attr.Get():]. *)
Definition forward_write (prim : prim_handle)
  (write_symbol write_once_attr : attr_handle) : M unit :=
  attr_Set write_once_attr (PBool false) ;;;
  write_value_attr <- GetAttribute prim ATTR_WRITE_VALUE ;;
  symbol <- attr_Get write_symbol ;;
  value <- attr_Get write_value_attr ;;
  write_variable symbol value.

(** One round of [for changed in list(notice.GetChangedInfoOnlyPaths())]. *)
Definition notice_changed_body (self : RuntimeUsd) (changed : string)
  : M unit :=
  if String.prefix (_root_prim_path self) changed then
    if String.eqb (path_name changed) ATTR_WRITE_VALUE
       || String.eqb (path_name changed) ATTR_WRITE_ONCE
       || String.eqb (path_name changed) ATTR_WRITE_PAUSE
    then
      prim <- GetPrimAtPath (split_dot_0 changed) ;;
      write_symbol <- GetAttribute prim ATTR_WRITE_SYMBOL ;;
      valid <- attr_IsValid write_symbol ;;
      if negb valid then ret tt
      else
        write_once_attr <- GetAttribute prim ATTR_WRITE_ONCE ;;
        write_pause_attr <- GetAttribute prim ATTR_WRITE_PAUSE ;;
        once <- attr_Get write_once_attr ;;
        if truthy once then forward_write prim write_symbol write_once_attr
        else
          pause <- attr_Get write_pause_attr ;;
          if negb (truthy pause)
          then forward_write prim write_symbol write_once_attr
          else ret tt
    else ret tt
  else ret tt.

(** [RuntimeUsd._notice_changed]; the notice is the list of its changed
    paths. *)
Definition _notice_changed (self : RuntimeUsd) (notice : list string)
  : M unit :=
  λ w, if expired w then Ok tt w
       else for_each notice (notice_changed_body self) w.

(* ===================================================================== *)
(** * UsdManager: attribute helpers and the operations compiled from keys *)
(* ===================================================================== *)

Record UsdOp : Type := {
  operation : string;
  op_path : string;
  op_key : string;
  op_value : string
}.

(** [get_op_from_key(full_path, key)] *)
Definition get_op_from_key (full_path key : string) : UsdOp :=
  let last := List.last (split_on "/" full_path) "" in
  let command := split_on ":" last in
  if (1 <? length command)%nat && String.eqb (hd "" command) "usd" then
    let key_path := String.concat "/" (removelast (split_on "/" full_path)) in
    {| operation := nth 1 command "";
       op_path := key_path;
       op_key := key;
       op_value := String.concat ":" (drop 2 command) |}
  else
    {| operation := "set";
       op_path := full_path;
       op_key := key;
       op_value := ATTR_CURRENT_VALUE |}.

Section Helpers.

(** [Gf.Matrix4d(np.array(ast.literal_eval(value)))], three library calls
    taken as one parameter: the matrix a value denotes, [None] when one of
    the calls raises. *)
Variable literal_matrix : pyval → option (list (list Q)).

(** [set_attr(attr, value)] *)
Definition set_attr (attr : attr_handle) (value : pyval) : M unit :=
  attr_type <- attr_GetTypeName attr ;;
  match attr_type with
  | Some TMatrix4d =>
      match literal_matrix value with
      | Some m => attr_Set attr (PMatrix4d m)
      | None => raise
      end
  | _ => attr_Set attr value
  end.

(** [create_attr(prim, attr_name, value)] *)
Definition create_attr (prim : prim_handle) (attr_name : string)
  (value : pyval) : M attr_handle :=
  (if String.eqb attr_name "xformOp:transform"
   then AddTransformOp prim else ret tt) ;;;
  attr <- match value with
          | PStr _ => CreateAttribute prim attr_name TString
          | PBool _ => CreateAttribute prim attr_name TBool
          | _ => CreateAttribute prim attr_name TDouble
          end ;;
  set_attr attr value ;;;
  ret attr.

(** [set_symbol_prim_value(stage, full_key, key, value)] *)
Definition set_symbol_prim_value (full_key key : string) (value : pyval)
  : M bool :=
  prim <- GetPrimAtPath full_key ;;
  prim_ok <- prim_IsValid prim ;;
  if negb prim_ok then ret false
  else
    attr <- GetAttribute prim key ;;
    attr_ok <- attr_IsValid attr ;;
    if negb attr_ok then ret false
    else set_attr attr value ;;; ret true.

(** [create_typed_prim(stage, full_key, value)]; a type name that is not a
    string is refused by [DefinePrim]. *)
Definition create_typed_prim (full_key : string) (value : pyval) : M unit :=
  match value with
  | PStr type_name => DefinePrim full_key type_name ;;; ret tt
  | _ => raise
  end.

(** [create_symbol_prim_value(stage, full_key, attr, key, value)] *)
Definition create_symbol_prim_value (full_key attr key : string)
  (value : pyval) : M unit :=
  prim <- DefinePrim full_key "" ;;
  create_attr prim attr value ;;;
  create_attr prim ATTR_WRITE_VALUE value ;;;
  create_attr prim ATTR_WRITE_ONCE (PBool false) ;;;
  create_attr prim ATTR_WRITE_PAUSE (PBool false) ;;;
  if negb (String.eqb key "")
  then create_attr prim ATTR_WRITE_SYMBOL (PStr key) ;;; ret tt
  else ret tt.

(** [UsdOp.create(stage, value)] *)
Definition create (self : UsdOp) (value : pyval) : M unit :=
  if String.eqb (operation self) "attr" then
    create_symbol_prim_value (op_path self) (op_value self) (op_key self) value
  else if String.eqb (operation self) "type" then
    create_typed_prim (op_path self) value
  else
    create_symbol_prim_value (op_path self) (op_value self) (op_key self) value.

(** [UsdOp.execute(stage, value)] *)
Definition execute (self : UsdOp) (value : pyval) : M bool :=
  if String.eqb (operation self) "attr" then
    set_symbol_prim_value (op_path self) (op_value self) value
  else if String.eqb (operation self) "type" then
    prim <- GetPrimAtPath (op_path self) ;;
    prim_ok <- prim_IsValid prim ;;
    if negb prim_ok then ret false else ret true
  else
    set_symbol_prim_value (op_path self) (op_value self) value.

End Helpers.

(** The target of an operation exists: its node and, unless the operation
    only concerns the node's type, the attribute it writes. *)
Definition target_exists (op : UsdOp) (w : world) : bool :=
  match prims w !! op_path op with
  | None => false
  | Some pr =>
      String.eqb (operation op) "type"
      || bool_decide (is_Some (prim_attrs pr !! op_value op))
  end.

(* ===================================================================== *)
(** * RuntimeBase.Runtime_Base *)
(* ===================================================================== *)

(** An instance is its dictionary of fields; a private name [__x] of the
    class is stored under [_Runtime_Base__x]. *)
Definition getattr (self : gmap string pyval) (name : string) : option pyval :=
  self !! name.

Definition setattr (self : gmap string pyval) (name : string) (value : pyval)
  : gmap string pyval :=
  <[name := value]> self.

(** [__start_update_thread]: the two threads are the host's; the instance
    keeps their list. *)
Definition __start_update_thread (self : gmap string pyval)
  : gmap string pyval :=
  match getattr self "_thread_is_alive" with
  | Some alive =>
      if negb (truthy alive) then
        let self := setattr self "_thread_is_alive" (PBool true) in
        setattr self "_Runtime_Base__threads"
          (PList [PObject "Thread(__read_data)"; PObject "Thread(__write_data)"])
      else self
  | None => self
  end.

(** [__subscibe_event_stream] *)
Definition __subscibe_event_stream (self : gmap string pyval)
  : gmap string pyval :=
  setattr self "_event_stream" (PObject "message_bus_event_stream").

(** [Runtime_Base.__init__(name)], from an instance without fields. *)
Definition __init__ (name : string) : gmap string pyval :=
  let self := setattr ∅ "_name" (PStr name) in
  let self := setattr self "_thread_is_alive" (PBool false) in
  let self := setattr self "_refresh_period_ms" (PInt 20) in
  let self := setattr self "_write_sleep" (PFloat (1 # 1000)) in
  let self := setattr self "_Runtime_Base__threads" (PList []) in
  let self := __start_update_thread self in
  __subscibe_event_stream self.

(** The property [write_sleep_time]: its getter ([None] is the
    [AttributeError] of a missing field) and its setter. *)
Definition write_sleep_time_get (self : gmap string pyval) : option pyval :=
  getattr self "_write_sleep_time".

Definition write_sleep_time_set (self : gmap string pyval) (value : pyval)
  : gmap string pyval :=
  setattr self "_write_sleep_time" value.

(** The property [refresh_period_ms] (and its alias [refresh_rate]). *)
Definition refresh_period_ms_get (self : gmap string pyval) : option pyval :=
  getattr self "_refresh_period_ms".

Definition refresh_period_ms_set (self : gmap string pyval) (value : pyval)
  : gmap string pyval :=
  setattr self "_refresh_period_ms" value.

(** ** The worker loops

    A loop runs in a thread of its own next to the threads that change the
    instance and next to the clock.  What it meets is given as a list of
    observations, one per pass through [while self._thread_is_alive]: the
    instance as that pass reads it, the answer of [time.time()], and what
    the overridable callback does when it is called. *)

Inductive pyexc : Type :=
| Exception       (* [Exception] or any class derived from it *)
| SystemExit
| KeyboardInterrupt
| GeneratorExit.

(** [except Exception:] *)
Definition except_Exception (e : pyexc) : bool :=
  match e with Exception => true | _ => false end.

Inductive outcome : Type :=
| Returns
| Raises (e : pyexc).

Record observation : Type := {
  seen_self : gmap string pyval;
  now : Q;
  callback : outcome
}.

Inductive loop_event : Type :=
| EvReadStarting | EvRead | EvReadEnding
| EvWriteStarting | EvWrite | EvWriteEnding
| EvSleep (seconds : pyval).

(** How a run over finitely many observations stands at its end: the thread
    left the loop and ran its ending hook, an exception escaped and ended
    the thread, or the loop is still going. *)
Inductive loop_status : Type := Exited | Died | Running.

Definition and_then (evs : list loop_event)
  (r : list loop_event * loop_status) : list loop_event * loop_status :=
  (evs ++ r.1, r.2).

(** A Python number as a rational. *)
Definition py_num (v : pyval) : option Q :=
  match v with
  | PInt z => Some (inject_Z z)
  | PFloat q => Some q
  | PBool b => Some (if b then 1 else 0)%Q
  | _ => None
  end.

(** [time.sleep(v)] accepts a number that is not negative. *)
Definition sleep_accepts (v : pyval) : bool :=
  match py_num v with
  | Some q => if Qlt_le_dec q 0 then false else true
  | None => false
  end.

(** The timing block at the head of a pass of [__read_data]: the new
    [thread_start_time] and the sleep that is made. *)
Definition read_tick (period now thread_start_time : Q) : Q * loop_event :=
  let sleep_time := (period / 1000 - (now - thread_start_time))%Q in
  if Qlt_le_dec 0 sleep_time
  then ((now + sleep_time)%Q, EvSleep (PFloat sleep_time))
  else (now, EvSleep (PInt 0)).

(** The [while] loop of [__read_data]. *)
Fixpoint read_loop (thread_start_time : Q) (obs : list observation)
  : list loop_event * loop_status :=
  match obs with
  | [] => ([], Running)
  | o :: rest =>
      match getattr (seen_self o) "_thread_is_alive" with
      | None => ([], Died)
      | Some alive =>
          if negb (truthy alive) then ([EvReadEnding], Exited)
          else
            match getattr (seen_self o) "_refresh_period_ms" ≫= py_num with
            | None => ([], Died)
            | Some period =>
                let '(thread_start_time, slept) :=
                  read_tick period (now o) thread_start_time in
                match callback o with
                | Returns =>
                    and_then [slept; EvRead] (read_loop thread_start_time rest)
                | Raises e =>
                    if except_Exception e then
                      and_then [slept; EvRead; EvSleep (PFloat (1 # 100))]
                        (read_loop thread_start_time rest)
                    else ([slept; EvRead], Died)
                end
            end
      end
  end.

(** [Runtime_Base.__read_data]; [thread_start_time] is the answer of the
    first [time.time()]. *)
Definition __read_data (thread_start_time : Q) (obs : list observation)
  : list loop_event * loop_status :=
  and_then [EvReadStarting] (read_loop thread_start_time obs).

(** The [while] loop of [__write_data]; [time.sleep] is inside the [try],
    so what it raises is swallowed too. *)
Fixpoint write_loop (obs : list observation)
  : list loop_event * loop_status :=
  match obs with
  | [] => ([], Running)
  | o :: rest =>
      match getattr (seen_self o) "_thread_is_alive" with
      | None => ([], Died)
      | Some alive =>
          if negb (truthy alive) then ([EvWriteEnding], Exited)
          else
            match callback o with
            | Returns =>
                match getattr (seen_self o) "_write_sleep" with
                | Some seconds =>
                    if sleep_accepts seconds
                    then and_then [EvWrite; EvSleep seconds] (write_loop rest)
                    else and_then [EvWrite] (write_loop rest)
                | None => and_then [EvWrite] (write_loop rest)
                end
            | Raises e =>
                if except_Exception e
                then and_then [EvWrite] (write_loop rest)
                else ([EvWrite], Died)
            end
      end
  end.

(** [Runtime_Base.__write_data] *)
Definition __write_data (obs : list observation)
  : list loop_event * loop_status :=
  and_then [EvWriteStarting] (write_loop obs).

(** ** Runs of the staging buffer *)

(** A sequence of data-read events handled one after the other; [None] as
    soon as one of them raises. *)
Fixpoint ingest (self : RuntimeUsd) (evs : list event) : option RuntimeUsd :=
  match evs with
  | [] => Some self
  | ev :: rest =>
      match _on_data_read self ev with
      | Some self' => ingest self' rest
      | None => None
      end
  end.

(** What a merge tick on a live stage takes out of the buffer (nothing when
    it returns early). *)
Definition drained (self : RuntimeUsd) : gmap string pyval :=
  default ∅ (_on_update_event false self).1.

(** The event that carries [data]. *)
Definition data_event (data : pyval) : event :=
  {| payload := {["data" := data]} |}.

(** ** Scenarios of the change-notification listener *)

(** The value [Get] answers for attribute [name] of [node]. *)
Definition get_value (w : world) (node name : string) : pyval :=
  default PNone (find_attr w (node, name) ≫= attr_value).

(** [node] carries the whole symbol bundle: the marker, the write value, the
    pause flag and a boolean once flag. *)
Definition has_symbol_bundle (w : world) (node : string) : bool :=
  bool_decide (is_Some (find_attr w (node, ATTR_WRITE_SYMBOL)))
  && bool_decide (is_Some (find_attr w (node, ATTR_WRITE_VALUE)))
  && bool_decide (is_Some (find_attr w (node, ATTR_WRITE_PAUSE)))
  && match find_attr w (node, ATTR_WRITE_ONCE) with
     | Some {| attr_type := TBool |} => true
     | _ => false
     end.

(** A change the listener acts upon: under the component's root, on one of
    the three write attributes. *)
Definition actionable (self : RuntimeUsd) (changed : string) : bool :=
  String.prefix (_root_prim_path self) changed
  && (String.eqb (path_name changed) ATTR_WRITE_VALUE
      || String.eqb (path_name changed) ATTR_WRITE_ONCE
      || String.eqb (path_name changed) ATTR_WRITE_PAUSE).

(** The handler's test [write_once_attr.Get() or not write_pause_attr.Get()]
    on the node [node]. *)
Definition should_forward (w : world) (node : string) : bool :=
  truthy (get_value w node ATTR_WRITE_ONCE)
  || negb (truthy (get_value w node ATTR_WRITE_PAUSE)).

(** An edit of the attribute at path [changed]: the store takes the new
    value and delivers the notice of the change to the listener. *)
Definition user_edit (self : RuntimeUsd) (changed : string) (value : pyval)
  : M unit :=
  attr_Set (split_dot_0 changed, path_name changed) value ;;;
  _notice_changed self [changed].

(** A node with a complete bundle. *)
Definition bundle_prim (symbol : string) (value : pyval) (once pause : bool)
  : prim :=
  {| prim_type_name := "";
     prim_attrs :=
       {[ ATTR_CURRENT_VALUE := {| attr_type := TDouble;
                                   attr_value := Some value |};
          ATTR_WRITE_VALUE := {| attr_type := TDouble;
                                 attr_value := Some value |};
          ATTR_WRITE_ONCE := {| attr_type := TBool;
                                attr_value := Some (PBool once) |};
          ATTR_WRITE_PAUSE := {| attr_type := TBool;
                                 attr_value := Some (PBool pause) |};
          ATTR_WRITE_SYMBOL := {| attr_type := TString;
                                  attr_value := Some (PStr symbol) |} ]} |}.

(** A live stage that holds the root [/Root] and under it the node [x], a
    complete bundle for the symbol [gVar] with the flags given. *)
Definition bundle_world (once pause : bool) : world :=
  {| prims := {[ "/Root" := {| prim_type_name := ""; prim_attrs := ∅ |};
                 "/Root/x" := bundle_prim "gVar" (PFloat 5) once pause ]};
     expired := false;
     effects := [] |}.

Definition listener : RuntimeUsd :=
  {| _root_prim_path := "/Root"; _data_update := ∅ |}.

(** ** The read loop in the words of the specification *)

(** One iteration: [elapsed = now - lastTick]; when [readPeriod - elapsed]
    is positive, sleep the remainder and set [lastTick = now + remainder];
    otherwise yield once and set [lastTick = now].  The result is the sleep
    made ([None] for the yield) and the new [lastTick]. *)
Definition spec_read_step (readPeriod lastTick now : Q) : option Q * Q :=
  let elapsed := (now - lastTick)%Q in
  let remainder := (readPeriod - elapsed)%Q in
  if Qlt_le_dec 0 remainder
  then (Some remainder, (now + remainder)%Q)
  else (None, now).

Definition spec_sleep_event (slept : option Q) : loop_event :=
  match slept with
  | Some remainder => EvSleep (PFloat remainder)
  | None => EvSleep (PInt 0)
  end.

(** The events of a run: per iteration the sleep (or the yield), then the
    read callback, then the 10 ms backoff when the callback failed. *)
Fixpoint spec_read_events (lastTick : Q) (iters : list (Q * Q * outcome))
  : list loop_event :=
  match iters with
  | [] => []
  | (readPeriod, now, result) :: rest =>
      let '(slept, lastTick') := spec_read_step readPeriod lastTick now in
      [spec_sleep_event slept; EvRead]
      ++ match result with
         | Returns => []
         | Raises _ => [EvSleep (PFloat (1 # 100))]
         end
      ++ spec_read_events lastTick' rest
  end.

(** The pass sees the alive flag set. *)
Definition sees_alive (o : observation) : bool :=
  match getattr (seen_self o) "_thread_is_alive" with
  | Some alive => truthy alive
  | None => false
  end.

(** The refresh period a pass reads, in milliseconds. *)
Definition seen_period_ms (o : observation) : option Q :=
  getattr (seen_self o) "_refresh_period_ms" ≫= py_num.

(** What the callback raises, if anything, is an [Exception]. *)
Definition fails_softly (o : observation) : bool :=
  match callback o with
  | Returns => true
  | Raises e => except_Exception e
  end.

(** The iteration of the specification that a pass amounts to. *)
Definition spec_iteration (o : observation) : Q * Q * outcome :=
  ((default 0 (seen_period_ms o) / 1000)%Q, now o, callback o).

(** The number of calls of the read (the write) callback in a trace. *)
Definition read_calls (trace : list loop_event) : nat :=
  length (List.filter (λ e, match e with EvRead => true | _ => false end)
            trace).

Definition write_calls (trace : list loop_event) : nat :=
  length (List.filter (λ e, match e with EvWrite => true | _ => false end)
            trace).

(** An observation of an instance as [__init__] leaves it. *)
Definition observe (name : string) (now : Q) (result : outcome) : observation :=
  {| seen_self := __init__ name; now := now; callback := result |}.

(** The same observation of an instance changed by [f]. *)
Definition with_self (f : gmap string pyval → gmap string pyval)
  (o : observation) : observation :=
  {| seen_self := f (seen_self o); now := now o; callback := callback o |}.

(** The events of one pass of the write loop: the write callback, then the
    [_write_sleep] sleep when the callback returned (and the sleep is one
    [time.sleep] accepts); nothing after a callback that failed. *)
Definition write_pass_events (o : observation) : list loop_event :=
  EvWrite ::
  match callback o with
  | Returns =>
      match getattr (seen_self o) "_write_sleep" with
      | Some seconds => if sleep_accepts seconds then [EvSleep seconds] else []
      | None => []
      end
  | Raises _ => []
  end.

(** Two passes of a component named [c]: in the first the callback raises
    [e], in the second it would return. *)
Definition raising_run (e : pyexc) : list observation :=
  [observe "c" 0 (Raises e); observe "c" (1 # 10) Returns].

(** ** A reader of matrix literals

    An instance of the parameter [literal_matrix] for the concrete runs
    below: it understands a text that spells a list of lists of unsigned
    integer literals, as in [[1, 0], [0, 1]], and answers the matrix when
    it has four rows of four entries. *)

Inductive token : Type := TokOpen | TokClose | TokComma | TokNum (z : Z).

Definition digit_of (c : ascii) : option Z :=
  let n := nat_of_ascii c in
  if (48 <=? n)%nat && (n <=? 57)%nat then Some (Z.of_nat (n - 48)) else None.

Definition flush_num (num : option Z) (toks : list token) : list token :=
  match num with
  | Some z => TokNum z :: toks
  | None => toks
  end.

(** [num] is the number being read, if one is. *)
Fixpoint lex (s : string) (num : option Z) : option (list token) :=
  match s with
  | EmptyString => Some (flush_num num [])
  | String c rest =>
      match digit_of c with
      | Some d => lex rest (Some (10 * default 0 num + d)%Z)
      | None =>
          match lex rest None with
          | None => None
          | Some toks =>
              if Ascii.eqb c "[" then Some (flush_num num (TokOpen :: toks))
              else if Ascii.eqb c "]"
                   then Some (flush_num num (TokClose :: toks))
              else if Ascii.eqb c ","
                   then Some (flush_num num (TokComma :: toks))
              else if Ascii.eqb c " " then Some (flush_num num toks)
              else None
          end
      end
  end.

Inductive reader_state : Type :=
| AtStart                       (* before the outer bracket *)
| BeforeRow                     (* a row must open *)
| BeforeNum (row : list Z)      (* an entry must come *)
| AfterNum (row : list Z)       (* a comma or the end of the row *)
| AfterRow                      (* a comma or the outer end *)
| AtEnd.

Fixpoint read_rows (toks : list token) (st : reader_state)
  (rows : list (list Z)) : option (list (list Z)) :=
  match toks, st with
  | [], AtEnd => Some rows
  | TokOpen :: rest, AtStart => read_rows rest BeforeRow rows
  | TokOpen :: rest, BeforeRow => read_rows rest (BeforeNum []) rows
  | TokNum z :: rest, BeforeNum row => read_rows rest (AfterNum (row ++ [z])) rows
  | TokComma :: rest, AfterNum row => read_rows rest (BeforeNum row) rows
  | TokClose :: rest, AfterNum row => read_rows rest AfterRow (rows ++ [row])
  | TokComma :: rest, AfterRow => read_rows rest BeforeRow rows
  | TokClose :: rest, AfterRow => read_rows rest AtEnd rows
  | _, _ => None
  end.

Definition int_matrix_literal (value : pyval) : option (list (list Q)) :=
  match value with
  | PStr text =>
      match lex text None with
      | None => None
      | Some toks =>
          match read_rows toks AtStart [] with
          | None => None
          | Some rows =>
              if (length rows =? 4)%nat
                 && forallb (λ row, (length row =? 4)%nat) rows
              then Some (map (map inject_Z) rows)
              else None
          end
      end
  | _ => None
  end.

Definition identity_text : string :=
  "[[1, 0, 0, 0], [0, 1, 0, 0], [0, 0, 1, 0], [0, 0, 0, 1]]".

(** A live stage with one node, [/Root/n], that has no attribute yet. *)
Definition bare_world : world :=
  {| prims := {[ "/Root/n" := {| prim_type_name := ""; prim_attrs := ∅ |} ]};
     expired := false;
     effects := [] |}.

(** The declared type of attribute [name] of [node], if it exists. *)
Definition type_of (w : world) (node name : string) : option sdf_type :=
  attr_type <$> find_attr w (node, name).

(** The type [create_attr] asks for, by the Python type of the value. *)
Definition type_for_value (value : pyval) : sdf_type :=
  match value with
  | PStr _ => TString
  | PBool _ => TBool
  | _ => TDouble
  end.

(** ** Auxiliary definitions of the proofs *)

(** The text [flatten] has built when it reaches the leaf at [path]. *)
Fixpoint path_text (path : list string) : string :=
  match path with
  | [] => ""
  | k :: rest => k +:+ "." +:+ path_text rest
  end.

(** ** Induction over nested payloads *)

Section pyval_nested_ind.
Variable P : pyval → Prop.
Hypothesis HNone : P PNone.
Hypothesis HBool : ∀ b, P (PBool b).
Hypothesis HInt : ∀ z, P (PInt z).
Hypothesis HFloat : ∀ q, P (PFloat q).
Hypothesis HStr : ∀ s, P (PStr s).
Hypothesis HMatrix : ∀ rows, P (PMatrix4d rows).
Hypothesis HList : ∀ l, P (PList l).
Hypothesis HDict : ∀ items, Forall (λ kv, P kv.2) items → P (PDict items).
Hypothesis HObject : ∀ id, P (PObject id).

Fixpoint pyval_nested_ind (v : pyval) : P v :=
  match v with
  | PNone => HNone
  | PBool b => HBool b
  | PInt z => HInt z
  | PFloat q => HFloat q
  | PStr s => HStr s
  | PMatrix4d rows => HMatrix rows
  | PList l => HList l
  | PDict items =>
      HDict items
        ((fix each (its : list (string * pyval))
            : Forall (λ kv, P kv.2) its :=
            match its with
            | [] => List.Forall_nil _
            | (k, x) :: rest =>
                List.Forall_cons _ (k, x) rest (pyval_nested_ind x)
                  (each rest)
            end) items)
  | PObject id => HObject id
  end.
End pyval_nested_ind.

Definition put_leaf (key : string) (acc : gmap string pyval)
  (pv : list string * pyval) : gmap string pyval :=
  <[drop_last (key +:+ path_text pv.1) := pv.2]> acc.

(** The flat entries of a payload: one per leaf, under the dot-joined key of
    its path, in traversal order. *)
Definition flat_entries (obj : pyval) : list (string * pyval) :=
  map (λ pv, (flat_key pv.1, pv.2)) (leaves obj).

(** A payload in which a field name holds a dot. *)
Definition colliding_payload : pyval :=
  PDict [("a.b", PInt 1); ("a", PDict [("b", PInt 2)])].

(** A payload three levels deep with dot-free field names. *)
Definition sample_payload : pyval :=
  PDict [("axis", PDict [("pos", PFloat (3 # 2));
                         ("state", PDict [("on", PBool true)])]);
         ("name", PStr "m1")].

(** The world after the listener has forwarded the write value of [node]. *)
Definition forwarded (w : world) (node : string) : world :=
  {| prims := put_attr (prims w) (node, ATTR_WRITE_ONCE)
                {| attr_type := TBool; attr_value := Some (PBool false) |};
     expired := expired w;
     effects := effects w ++
       [ESet node ATTR_WRITE_ONCE (PBool false);
        EWriteVariable (get_value w node ATTR_WRITE_SYMBOL)
                       (get_value w node ATTR_WRITE_VALUE)] |}.

(** The world after a successful [Set] of [v] on attribute [h]. *)
Definition after_Set (w : world) (h : attr_handle) (ty : sdf_type) (v : pyval)
  : world :=
  {| prims := put_attr (prims w) h {| attr_type := ty; attr_value := Some v |};
     expired := expired w;
     effects := effects w ++ [ESet h.1 h.2 v] |}.

(** A stage whose node [/Root/x] is still being built: the flags and the
    write value are there, the marker is not. *)
Definition unmarked_world : world :=
  {| prims :=
       {[ "/Root/x" :=
            {| prim_type_name := "";
               prim_attrs :=
                 {[ ATTR_WRITE_VALUE := {| attr_type := TDouble;
                                           attr_value := Some (PFloat 5) |};
                    ATTR_WRITE_ONCE := {| attr_type := TBool;
                                          attr_value := Some (PBool true) |};
                    ATTR_WRITE_PAUSE := {| attr_type := TBool;
                                           attr_value := Some (PBool false) |}
                 ]} |} ]};
     expired := false;
     effects := [] |}.

(** The world after attribute [h] has been created with type [ty]. *)
Definition after_Create (w : world) (h : attr_handle) (ty : sdf_type) : world :=
  {| prims := put_attr (prims w) h {| attr_type := ty; attr_value := None |};
     expired := expired w;
     effects := effects w ++ [ECreateAttribute h.1 h.2 ty] |}.

(** The attributes of [node] in [w] are still there in [w'], with the types
    they had. *)
Definition extends (node : string) (w w' : world) : Prop :=
  is_Some (prims w !! node) ∧ is_Some (prims w' !! node) ∧
  ∀ name a, find_attr w (node, name) = Some a →
            ∃ a', find_attr w' (node, name) = Some a'
                  ∧ attr_type a' = attr_type a.

(* ===================================================================== *)
(** * Further parts of the sources *)
(* ===================================================================== *)

(** ** Keys and document paths *)

(** The character [c] does not occur in [s]. *)
Fixpoint lacks (c : ascii) (s : string) : bool :=
  match s with
  | EmptyString => true
  | String x rest => negb (Ascii.eqb x c) && lacks c rest
  end.

(** The document path of a flat key, as the merge tick builds it:
    [path.pathString + "/" + "/".join(key.split("."))], where [path] is the
    path of the root prim. *)
Definition full_key_of (root_path key : string) : string :=
  root_path +:+ "/" +:+ String.concat "/" (split_on "." key).

(** ** Runtime_Base: messages, properties and the life of the threads *)

(** [Runtime_Base._create_message(data, status)]; an argument left out is
    [None].  [None] as result is the [AttributeError] of a missing [_name]. *)
Definition _create_message (self : gmap string pyval) (data status : pyval)
  : option (gmap string pyval) :=
  match getattr self "_name" with
  | None => None
  | Some name =>
      let obj : gmap string pyval := {["meta" := PDict [("name", name)]]} in
      let obj := if truthy data then <["data" := data]> obj else obj in
      let obj := if truthy status then <["status" := status]> obj else obj in
      Some obj
  end.

(** The property [refresh_rate], a second name for the refresh period. *)
Definition refresh_rate_get (self : gmap string pyval) : option pyval :=
  getattr self "_refresh_period_ms".

Definition refresh_rate_set (self : gmap string pyval) (value : pyval)
  : gmap string pyval :=
  setattr self "_refresh_period_ms" value.

(** [__stop_update_thread]: the instance afterwards and the threads joined,
    in order; [None] when the list of threads is missing. *)
Definition __stop_update_thread (self : gmap string pyval)
  : option (gmap string pyval * list pyval) :=
  let self := setattr self "_thread_is_alive" (PBool false) in
  match getattr self "_Runtime_Base__threads" with
  | Some (PList threads) =>
      Some (setattr self "_Runtime_Base__threads" (PList []), threads)
  | _ => None
  end.

(** [Runtime_Base.cleanup]; the overridable [_cleanup] does nothing here. *)
Definition cleanup (self : gmap string pyval)
  : option (gmap string pyval * list pyval) :=
  __stop_update_thread self.

(** [_add_thread_method(method)]: the thread made for [method] is appended
    to the list and started. *)
Definition _add_thread_method (self : gmap string pyval) (method : string)
  : option (gmap string pyval) :=
  match getattr self "_Runtime_Base__threads" with
  | Some (PList threads) =>
      Some (setattr self "_Runtime_Base__threads"
              (PList (threads ++ [PObject ("Thread(" +:+ method +:+ ")")])))
  | _ => None
  end.

(** Threads registered one after the other. *)
Fixpoint add_thread_methods (self : gmap string pyval) (methods : list string)
  : option (gmap string pyval) :=
  match methods with
  | [] => Some self
  | m :: rest =>
      match _add_thread_method self m with
      | Some self' => add_thread_methods self' rest
      | None => None
      end
  end.

(** The number of times an event occurs in a trace. *)
Definition is_event (a b : loop_event) : bool :=
  match a, b with
  | EvReadStarting, EvReadStarting | EvRead, EvRead
  | EvReadEnding, EvReadEnding | EvWriteStarting, EvWriteStarting
  | EvWrite, EvWrite | EvWriteEnding, EvWriteEnding => true
  | _, _ => false
  end.

Definition occurrences (ev : loop_event) (trace : list loop_event) : nat :=
  length (List.filter (is_event ev) trace).

(** The sleeps of a trace are all ones [time.sleep] accepts. *)
Definition sleeps_accepted (trace : list loop_event) : Prop :=
  Forall (λ e, match e with
               | EvSleep seconds => sleep_accepts seconds = true
               | _ => True
               end) trace.

(** A run of three passes: two see the alive flag set, the third sees it
    down. *)
Definition stopped_run : list observation :=
  [observe "c" 0 Returns;
   observe "c" (1 # 10) (Raises Exception);
   with_self (λ self, setattr self "_thread_is_alive" (PBool false))
     (observe "c" (2 # 10) Returns)].

(** ** UsdManager: the remaining attribute helpers and the options of a prim *)

(** [set_or_create_attr(prim, attr_name, value)]: the attribute and whether
    it was created. *)
Definition set_or_create_attr (literal_matrix : pyval → option (list (list Q)))
  (prim : prim_handle) (attr_name : string) (value : pyval)
  : M (attr_handle * bool) :=
  attr <- GetAttribute prim attr_name ;;
  valid <- attr_IsValid attr ;;
  if negb valid then
    attr <- create_attr literal_matrix prim attr_name value ;;
    ret (attr, true)
  else
    attr_Set attr value ;;;
    ret (attr, false).

(** [get_or_create_attr(prim, attr_name, attr_type)] *)
Definition get_or_create_attr (prim : prim_handle) (attr_name : string)
  (attr_type : sdf_type) : M attr_handle :=
  attr <- GetAttribute prim attr_name ;;
  valid <- attr_IsValid attr ;;
  if negb valid then CreateAttribute prim attr_name attr_type
  else ret attr.

(** A Python dictionary whose order of insertion matters is the list of its
    items.  [d[k] = v]: the item of [k] is replaced where it stands, a new
    key goes to the end. *)
Fixpoint dict_setitem (d : list (string * pyval)) (k : string) (v : pyval)
  : list (string * pyval) :=
  match d with
  | [] => [(k, v)]
  | (k', v') :: rest =>
      if String.eqb k' k then (k, v) :: rest
      else (k', v') :: dict_setitem rest k v
  end.

(** [d[k]], [None] when the key is missing. *)
Fixpoint dict_getitem (d : list (string * pyval)) (k : string)
  : option pyval :=
  match d with
  | [] => None
  | (k', v') :: rest => if String.eqb k' k then Some v' else dict_getitem rest k
  end.

(** The loop of [get_options_from_prim] over the keys of [defaults]. *)
Fixpoint get_options_loop (prim : prim_handle) (keys : list string)
  (options : list (string * pyval)) : M (list (string * pyval)) :=
  match keys with
  | [] => ret options
  | option :: rest =>
      attr <- GetAttribute prim option ;;
      valid <- attr_IsValid attr ;;
      if valid then
        value <- attr_Get attr ;;
        get_options_loop prim rest (dict_setitem options option value)
      else get_options_loop prim rest options
  end.

(** [get_options_from_prim(prim, defaults)] *)
Definition get_options_from_prim (prim : prim_handle)
  (defaults : list (string * pyval)) : M (list (string * pyval)) :=
  get_options_loop prim (map fst defaults) defaults.

(** The type [set_options_on_prim] creates an attribute with, by the Python
    type of the value; [None] for a type it does not provide for. *)
Definition option_type (value : pyval) : option sdf_type :=
  match value with
  | PBool _ => Some TBool
  | PInt _ => Some TInt
  | PStr _ => Some TString
  | PList _ => Some TStringArray
  | _ => None
  end.

(** One round of the loop of [set_options_on_prim]. *)
Definition set_option_on_prim (prim : prim_handle) (kv : string * pyval)
  : M unit :=
  attr <- GetAttribute prim kv.1 ;;
  valid <- attr_IsValid attr ;;
  attr <- (if negb valid then
             match option_type kv.2 with
             | Some ty => CreateAttribute prim kv.1 ty
             | None => ret attr
             end
           else ret attr) ;;
  attr_Set attr kv.2.

(** [set_options_on_prim(prim, options)] *)
Definition set_options_on_prim (prim : prim_handle)
  (options : list (string * pyval)) : M unit :=
  for_each options (set_option_on_prim prim).

(** ** System: the prim of a component *)

(** [System.get_normalize_prim_name(name)] *)
Definition get_normalize_prim_name (system_root name : string) : string :=
  if String.prefix "/" name then name else system_root +:+ name.

(** [System.create_component_prim(name, options)] *)
Definition create_component_prim (system_root name : string)
  (options : list (string * pyval)) : M string :=
  let prim_name := get_normalize_prim_name system_root name in
  component_prim <- DefinePrim prim_name "" ;;
  set_options_on_prim component_prim options ;;;
  ret prim_name.

(** [input_options = defaults.copy(); input_options.update(options)], the
    options [System.add_component] gives a new component. *)
Definition merged_options (defaults options : list (string * pyval))
  : list (string * pyval) :=
  foldl (λ d kv, dict_setitem d kv.1 kv.2) defaults options.

(** An option value [set_options_on_prim] can store on a new attribute. *)
Definition storable (value : pyval) : bool :=
  match value with
  | PBool _ | PInt _ | PStr _ => true
  | PList l => all_strings l
  | _ => false
  end.

(** What [get_options_from_prim] puts for the key of a default. *)
Definition read_option (w : world) (p : string) (kd : string * pyval)
  : string * pyval :=
  (kd.1, match find_attr w (p, kd.1) with
         | Some a => default PNone (attr_value a)
         | None => kd.2
         end).

(** The value [set_attr] stores for [value] on an attribute of type [ty]:
    the matrix read from the literal for a matrix attribute, the value as the
    store takes it otherwise; [None] when the call raises. *)
Definition stored_value (literal_matrix : pyval → option (list (list Q)))
  (ty : sdf_type) (value : pyval) : option pyval :=
  match ty with
  | TMatrix4d =>
      match literal_matrix value with
      | Some m => sdf_coerce TMatrix4d (PMatrix4d m)
      | None => None
      end
  | _ => sdf_coerce ty value
  end.

(** ** RuntimeUsd: the second phase of the merge tick *)

(** The property [root_prim].  [cached] is the field [_root_prim]: [None]
    until the first call, the prim found or defined then ever after.  The
    result is the prim and the field afterwards.  A prim handle being its
    path, [prim.GetPath().pathString] is the handle itself. *)
Definition root_prim (self : RuntimeUsd) (cached : option prim_handle)
  : M (prim_handle * option prim_handle) :=
  match cached with
  | Some prim => ret (prim, cached)
  | None =>
      prim <- GetPrimAtPath (_root_prim_path self) ;;
      valid <- prim_IsValid prim ;;
      if negb valid then
        prim <- DefinePrim (_root_prim_path self) "" ;;
        ret (prim, Some prim)
      else ret (prim, Some prim)
  end.

(** [create[full_key] = (op, value)] on the dictionary of the prims to
    create, kept as the list of its items. *)
Fixpoint create_setitem (to_create : list (string * (UsdOp * pyval)))
  (full_key : string) (item : UsdOp * pyval)
  : list (string * (UsdOp * pyval)) :=
  match to_create with
  | [] => [(full_key, item)]
  | (k, x) :: rest =>
      if String.eqb k full_key then (full_key, item) :: rest
      else (k, x) :: create_setitem rest full_key item
  end.

Section MergeTick.

Variable literal_matrix : pyval → option (list (list Q)).

(** The loop made in the change block, [for key, value in flat.items()],
    over the items of the drained dictionary in its order: the dictionary
    [create] and the field [_root_prim] afterwards. *)
Fixpoint execute_pass (self : RuntimeUsd) (cached : option prim_handle)
  (flat : list (string * pyval)) (to_create : list (string * (UsdOp * pyval)))
  : M (list (string * (UsdOp * pyval)) * option prim_handle) :=
  match flat with
  | [] => ret (to_create, cached)
  | (key, value) :: rest =>
      root <- root_prim self cached ;;
      let full_key := full_key_of root.1 key in
      let op := get_op_from_key full_key key in
      found <- execute literal_matrix op value ;;
      execute_pass self root.2 rest
        (if negb found then create_setitem to_create full_key (op, value)
         else to_create)
  end.

(** [for key, value in create.items(): value[0].create(stage, value[1])] *)
Definition create_pass (to_create : list (string * (UsdOp * pyval)))
  : M unit :=
  for_each to_create (λ kv, create literal_matrix kv.2.1 kv.2.2).

(** [_on_update_event] from the drained dictionary [flat] on: the field
    [_root_prim] afterwards. *)
Definition _on_update_event_changes (self : RuntimeUsd)
  (cached : option prim_handle) (flat : list (string * pyval))
  : M (option prim_handle) :=
  r <- execute_pass self cached flat [] ;;
  create_pass r.1 ;;;
  ret r.2.

End MergeTick.

(** The attribute an entry of the drained dictionary is written to. *)
Definition target (self : RuntimeUsd) (key : string) : attr_handle :=
  let op := get_op_from_key (full_key_of (_root_prim_path self) key) key in
  (op_path op, op_value op).

(** The value a new attribute holds that [create_attr] has made from
    [value]; [None] when the store does not take the value. *)
Definition created_value (value : pyval) : option pyval :=
  sdf_coerce (type_for_value value) value.

(** The attributes of a symbol node as [create_symbol_prim_value] builds it
    on a prim without attributes. *)
Definition symbol_node (attr key : string) (value : pyval) (n : string)
  : option attribute :=
  if String.eqb n ATTR_WRITE_SYMBOL then
    Some {| attr_type := TString; attr_value := Some (PStr key) |}
  else if String.eqb n ATTR_WRITE_PAUSE then
    Some {| attr_type := TBool; attr_value := Some (PBool false) |}
  else if String.eqb n ATTR_WRITE_ONCE then
    Some {| attr_type := TBool; attr_value := Some (PBool false) |}
  else if String.eqb n ATTR_WRITE_VALUE || String.eqb n attr then
    Some {| attr_type := type_for_value value;
            attr_value := created_value value |}
  else None.

(** The item of the dictionary [create] that the change block makes for an
    entry of the batch whose target is missing. *)
Definition create_entry (self : RuntimeUsd) (kv : string * pyval)
  : string * (UsdOp * pyval) :=
  let full_key := full_key_of (_root_prim_path self) kv.1 in
  (full_key, (get_op_from_key full_key kv.1, kv.2)).

(* ===================================================================== *)
(** * Properties *)
(* ===================================================================== *)

(** ** Strings *)

Lemma append_cons (x : ascii) (a b : string) :
  String x a +:+ b = String x (a +:+ b).
Proof. reflexivity. Qed.

Lemma append_nil_l (b : string) : "" +:+ b = b.
Proof. reflexivity. Qed.

Lemma append_nil_r (a : string) : a +:+ "" = a.
Proof.
  induction a as [|x a IH]; [done|]. rewrite append_cons. by f_equal.
Qed.

Lemma append_assoc (a b c : string) : (a +:+ b) +:+ c = a +:+ b +:+ c.
Proof.
  induction a as [|x a IH]; [done|]. rewrite !append_cons. by f_equal.
Qed.

Lemma drop_last_snoc (s : string) (c : ascii) :
  drop_last (s +:+ String c EmptyString) = s.
Proof.
  induction s as [|x s IH]; [done|].
  rewrite append_cons. cbn [drop_last]. rewrite IH.
  destruct s; done.
Qed.

Lemma dot_free_app_dot (a t : string) : dot_free (a +:+ "." +:+ t) = false.
Proof.
  induction a as [|x a IH]; [done|].
  rewrite append_cons. cbn [dot_free]. rewrite IH. apply andb_false_r.
Qed.

Lemma dot_split_inj (a b s t : string) :
  dot_free a = true → dot_free b = true →
  a +:+ "." +:+ s = b +:+ "." +:+ t → a = b ∧ s = t.
Proof.
  revert b. induction a as [|x a IH]; intros [|y b] Ha Hb Heq;
    rewrite ?append_cons, ?append_nil_l in Heq; cbn [dot_free] in *.
  - by injection Heq.
  - injection Heq as <- _. done.
  - injection Heq as -> _. done.
  - injection Heq as -> Heq.
    apply andb_prop in Ha as [_ Ha]. apply andb_prop in Hb as [_ Hb].
    destruct (IH b Ha Hb Heq) as [-> ->]. done.
Qed.

Lemma drop_last_app (k t : string) :
  t ≠ "" → drop_last (k +:+ t) = k +:+ drop_last t.
Proof.
  intros Hne. induction k as [|x k IH]; [done|].
  rewrite !append_cons. cbn [drop_last]. rewrite IH.
  destruct (k +:+ t) eqn:E; [|done].
  destruct k; [|done]. rewrite append_nil_l in E. done.
Qed.

Lemma drop_last_path_text (path : list string) :
  drop_last (path_text path) = flat_key path.
Proof.
  induction path as [|k rest IH]; [done|].
  destruct rest as [|k' rest'].
  - cbn [path_text]. apply (drop_last_snoc k ".").
  - change (flat_key (k :: k' :: rest'))
      with (k +:+ "." +:+ flat_key (k' :: rest')).
    rewrite <- IH.
    change (path_text (k :: k' :: rest'))
      with (k +:+ "." +:+ path_text (k' :: rest')).
    assert (Hne : path_text (k' :: rest') ≠ "").
    { cbn [path_text]. destruct k'; done. }
    rewrite drop_last_app.
    + f_equal. apply (drop_last_app "." _ Hne).
    + done.
Qed.

Lemma flat_key_inj (p q : list string) :
  p ≠ [] → q ≠ [] →
  Forall (λ k, dot_free k = true) p → Forall (λ k, dot_free k = true) q →
  flat_key p = flat_key q → p = q.
Proof.
  revert q. induction p as [|a p IH]; [done|].
  intros [|b q] _ Hq Hp Hq'; [done|]. clear Hq.
  apply Forall_cons in Hp as [Ha Hp]. apply Forall_cons in Hq' as [Hb Hq].
  destruct p as [|a' p]; destruct q as [|b' q].
  - change (flat_key [a]) with a. change (flat_key [b]) with b. by intros ->.
  - change (flat_key [a]) with a.
    change (flat_key (b :: b' :: q)) with (b +:+ "." +:+ flat_key (b' :: q)).
    intros E. rewrite E, dot_free_app_dot in Ha. done.
  - change (flat_key [b]) with b.
    change (flat_key (a :: a' :: p)) with (a +:+ "." +:+ flat_key (a' :: p)).
    intros E. rewrite <- E, dot_free_app_dot in Hb. done.
  - change (flat_key (a :: a' :: p)) with (a +:+ "." +:+ flat_key (a' :: p)).
    change (flat_key (b :: b' :: q)) with (b +:+ "." +:+ flat_key (b' :: q)).
    intros E. destruct (dot_split_inj _ _ _ _ Ha Hb E) as [-> E'].
    f_equal. apply IH; done.
Qed.

(** ** flatten_obj *)

Lemma leaves_cons (k : string) (v : pyval) (rest : list (string * pyval)) :
  leaves (PDict ((k, v) :: rest))
  = map (λ pv, (k :: pv.1, pv.2)) (leaves v) ++ leaves (PDict rest).
Proof. reflexivity. Qed.

Lemma flatten_cons (k : string) (v : pyval) (rest : list (string * pyval))
  (key : string) (acc : gmap string pyval) :
  flatten (PDict ((k, v) :: rest)) key acc
  = flatten (PDict rest) key (flatten v (key +:+ k +:+ ".") acc).
Proof. reflexivity. Qed.

Lemma flatten_leaves (obj : pyval) :
  ∀ key acc, flatten obj key acc = foldl (put_leaf key) acc (leaves obj).
Proof.
  induction obj as [| | | | | | |items IH|] using pyval_nested_ind;
    intros key acc;
    try (cbn [flatten leaves foldl]; unfold put_leaf; cbn [path_text fst snd];
         by rewrite append_nil_r).
  revert acc. induction items as [|[k v] rest IHrest]; intros acc; [done|].
  apply Forall_cons in IH as [IHv IHr]. cbn [snd] in IHv.
  rewrite flatten_cons, leaves_cons, foldl_app, IHrest by done.
  f_equal. rewrite (IHv _ acc). clear.
  generalize (leaves v). intros l. revert acc.
  induction l as [|[p x] l IHl]; intros acc; [done|].
  cbn [map foldl]. rewrite <- IHl. f_equal.
  unfold put_leaf. cbn [fst snd path_text].
  by rewrite !append_assoc.
Qed.

Lemma foldl_insert_list_to_map (l : list (string * pyval))
  (acc : gmap string pyval) :
  foldl (λ a kv, <[kv.1 := kv.2]> a) acc l = list_to_map (reverse l) ∪ acc.
Proof.
  revert acc. induction l as [|[k v] l IH]; intros acc.
  - cbn. by rewrite (left_id_L ∅ (∪)).
  - cbn [foldl fst snd]. rewrite IH, reverse_cons, list_to_map_app.
    cbn [list_to_map foldr fst snd uncurry].
    rewrite <- (assoc_L (∪)). f_equal.
    by rewrite <- insert_union_l, (left_id_L ∅ (∪)).
Qed.

Lemma flatten_obj_entries (obj : pyval) :
  flatten_obj obj = list_to_map (reverse (flat_entries obj)).
Proof.
  unfold flatten_obj, flat_entries. rewrite flatten_leaves.
  rewrite <- (right_id_L ∅ (∪) (list_to_map _)).
  rewrite <- foldl_insert_list_to_map, foldl_fmap.
  generalize (∅ : gmap string pyval). generalize (leaves obj).
  induction l as [|[p v] l IH]; intros acc; [done|].
  cbn [foldl]. rewrite <- IH. f_equal.
  unfold put_leaf. cbn [fst snd].
  by rewrite append_nil_l, drop_last_path_text.
Qed.

Lemma wf_payload_cons (k : string) (v : pyval) (rest : list (string * pyval)) :
  wf_payload (PDict ((k, v) :: rest)) →
  (k ∉ map fst rest) ∧ wf_payload v ∧ wf_payload (PDict rest).
Proof.
  cbn [wf_payload map fst]. intros [Hnd [Hv Hrest]].
  apply NoDup_cons in Hnd as [Hk Hnd]. done.
Qed.

Lemma dot_free_fields_cons (k : string) (v : pyval)
  (rest : list (string * pyval)) :
  dot_free_fields (PDict ((k, v) :: rest)) →
  dot_free k = true ∧ dot_free_fields v ∧ dot_free_fields (PDict rest).
Proof. cbn [dot_free_fields]. done. Qed.

Lemma leaves_dict_head (items : list (string * pyval)) (p : list string)
  (v : pyval) :
  (p, v) ∈ leaves (PDict items) →
  ∃ k p', p = k :: p' ∧ k ∈ map fst items.
Proof.
  induction items as [|[k x] rest IH]; [by intros ?%elem_of_nil|].
  rewrite leaves_cons, elem_of_app. intros [Hin|Hin].
  - apply list_elem_of_fmap in Hin as [[p' v'] [[= -> ->] _]].
    exists k, p'. split; [done|]. cbn. apply list_elem_of_here.
  - destruct (IH Hin) as (k' & p' & -> & Hk').
    exists k', p'. split; [done|]. cbn. by apply list_elem_of_further.
Qed.

Lemma leaves_dot_free (obj : pyval) :
  dot_free_fields obj →
  ∀ p v, (p, v) ∈ leaves obj → Forall (λ k, dot_free k = true) p.
Proof.
  induction obj as [| | | | | | |items IH|] using pyval_nested_ind;
    intros Hdf p v Hin;
    try (cbn [leaves] in Hin; apply list_elem_of_singleton in Hin;
         injection Hin as -> _; by apply List.Forall_nil).
  induction items as [|[k x] rest IHrest]; [by apply elem_of_nil in Hin|].
  apply Forall_cons in IH as [IHx IHr]. cbn [snd] in IHx.
  apply dot_free_fields_cons in Hdf as (Hk & Hx & Hr).
  rewrite leaves_cons, elem_of_app in Hin. destruct Hin as [Hin|Hin].
  - apply list_elem_of_fmap in Hin as [[p' v'] [[= -> ->] Hin]].
    apply Forall_cons. split; [done|]. by apply (IHx Hx p' v').
  - by apply IHrest.
Qed.

Lemma leaves_NoDup (obj : pyval) :
  wf_payload obj → NoDup (leaves obj).*1.
Proof.
  induction obj as [| | | | | | |items IH|] using pyval_nested_ind;
    intros Hwf;
    try (cbn [leaves fmap list_fmap fst]; apply NoDup_singleton).
  induction items as [|[k x] rest IHrest]; [apply NoDup_nil_2|].
  apply Forall_cons in IH as [IHx IHr]. cbn [snd] in IHx.
  apply wf_payload_cons in Hwf as (Hk & Hx & Hr).
  rewrite leaves_cons, fmap_app. apply NoDup_app. split; [|split].
  - rewrite <- list_fmap_compose.
    replace (fst ∘ (λ pv : list string * pyval, (k :: pv.1, pv.2)))
      with ((k ::.) ∘ (fst : list string * pyval → list string)) by done.
    rewrite list_fmap_compose. apply (NoDup_fmap_2 _). by apply IHx.
  - intros p Hp Hp'.
    apply list_elem_of_fmap in Hp as [[p1 v1] [-> Hp]].
    apply list_elem_of_fmap in Hp as [[p2 v2] [[= -> ->] _]].
    apply list_elem_of_fmap in Hp' as [[p3 v3] [Heq Hp']].
    apply leaves_dict_head in Hp' as (k' & p' & -> & Hk').
    cbn in Heq. injection Heq as <- _. done.
  - by apply IHrest.
Qed.

Lemma flat_entries_NoDup (items : list (string * pyval)) :
  wf_payload (PDict items) → dot_free_fields (PDict items) →
  NoDup (flat_entries (PDict items)).*1.
Proof.
  intros Hwf Hdf. unfold flat_entries.
  rewrite <- list_fmap_compose.
  replace (fst ∘ (λ pv : list string * pyval, (flat_key pv.1, pv.2)))
    with (flat_key ∘ (fst : list string * pyval → list string)) by done.
  rewrite list_fmap_compose.
  apply NoDup_fmap_2_strong; [|by apply leaves_NoDup].
  intros p q Hp Hq Heq.
  apply list_elem_of_fmap in Hp as [[p' v] [-> Hp]].
  apply list_elem_of_fmap in Hq as [[q' u] [-> Hq]]. cbn [fst] in *.
  apply flat_key_inj; try done.
  - by apply leaves_dict_head in Hp as (? & ? & -> & _).
  - by apply leaves_dict_head in Hq as (? & ? & -> & _).
  - by apply (leaves_dot_free _ Hdf p' v).
  - by apply (leaves_dot_free _ Hdf q' u).
Qed.

Lemma NoDup_fst_functional `{Countable K} {A} (l : list (K * A)) (k : K)
  (x y : A) :
  NoDup l.*1 → (k, x) ∈ l → (k, y) ∈ l → x = y.
Proof.
  intros Hnd Hx Hy.
  apply (elem_of_list_to_map (M := gmap K) l k x Hnd) in Hx.
  apply (elem_of_list_to_map (M := gmap K) l k y Hnd) in Hy.
  congruence.
Qed.

(** C1 (as amended).  For a payload whose field names hold no dot,
    [flatten_obj] binds exactly one dot-joined key per leaf: two leaves with
    the same flat key are the same leaf, the flat dictionary binds [k] to
    [v] exactly when [v] is the leaf whose path joins to [k], and it has as
    many keys as the payload has leaves.  Deposited into an empty staging
    buffer and drained, the payload comes back as exactly that set of
    leaves, and the buffer is empty again. *)
Theorem flatten_obj_dot_free_leaves (items : list (string * pyval)) :
  wf_payload (PDict items) →
  dot_free_fields (PDict items) →
  (∀ p q v u, (p, v) ∈ leaves (PDict items) → (q, u) ∈ leaves (PDict items) →
     flat_key p = flat_key q → p = q ∧ v = u) ∧
  (∀ k v, flatten_obj (PDict items) !! k = Some v ↔
     ∃ p, (p, v) ∈ leaves (PDict items) ∧ k = flat_key p) ∧
  size (flatten_obj (PDict items)) = length (leaves (PDict items)) ∧
  (∀ self ev,
     payload ev !! "data" = Some (PDict items) → _data_update self = ∅ →
     ∃ self', _on_data_read self ev = Some self' ∧
       default ∅ (_on_update_event false self').1 = flatten_obj (PDict items) ∧
       _data_update (_on_update_event false self').2 = ∅).
Proof.
  intros Hwf Hdf.
  pose proof (flat_entries_NoDup items Hwf Hdf) as Hnd.
  pose proof (leaves_NoDup _ Hwf) as Hpaths.
  assert (Hlookup : ∀ k v, flatten_obj (PDict items) !! k = Some v ↔
            ∃ p, (p, v) ∈ leaves (PDict items) ∧ k = flat_key p).
  { intros k v. rewrite flatten_obj_entries.
    rewrite <- elem_of_list_to_map
      by (by rewrite fmap_reverse, reverse_Permutation).
    rewrite elem_of_reverse. unfold flat_entries. rewrite list_elem_of_fmap.
    split.
    - intros [[p v'] [[= -> ->] Hin]]. by exists p.
    - intros [p [Hin ->]]. by exists (p, v). }
  split; [|split; [done|split]].
  - intros p q v u Hp Hq Heq.
    assert (p = q) as ->.
    { apply flat_key_inj; try done.
      - by apply leaves_dict_head in Hp as (? & ? & -> & _).
      - by apply leaves_dict_head in Hq as (? & ? & -> & _).
      - by apply (leaves_dot_free _ Hdf p v).
      - by apply (leaves_dot_free _ Hdf q u). }
    split; [done|]. by apply (NoDup_fst_functional _ q v u Hpaths).
  - rewrite flatten_obj_entries, map_size_list_to_map
      by (by rewrite fmap_reverse, reverse_Permutation).
    unfold flat_entries. by rewrite length_reverse, List.length_map.
  - intros self ev Hdata Hempty.
    unfold _on_data_read. rewrite Hdata. eexists. split; [done|].
    unfold _on_update_event, dict_update. cbn [_data_update _root_prim_path].
    rewrite Hempty, (right_id_L ∅ (∪)).
    destruct (Nat.eqb_spec (size (flatten_obj (PDict items))) 0) as [H0|H0].
    + apply map_size_empty_iff in H0. by rewrite H0.
    + done.
Qed.

Lemma flatten_obj_dot_free_leaves_witness :
  size (flatten_obj sample_payload) = length (leaves sample_payload).
Proof.
  refine (proj1 (proj2 (proj2 (flatten_obj_dot_free_leaves _ _ _)))).
  - cbn [wf_payload map fst]. repeat split;
      by apply (bool_decide_unpack _).
  - cbn [dot_free_fields]. repeat split.
Defined.

(** C1 (as stated) fails: the field names [a.b] and [a], [b] lead two
    different leaves to the one flat key [a.b]; the flat dictionary keeps
    one of the two leaves, so the drained buffer has lost the other. *)
Lemma flatten_obj_key_collision :
  wf_payload colliding_payload ∧
  leaves colliding_payload = [(["a.b"], PInt 1); (["a"; "b"], PInt 2)] ∧
  flat_key ["a.b"] = flat_key ["a"; "b"] ∧
  flatten_obj colliding_payload = {["a.b" := PInt 2]} ∧
  size (flatten_obj colliding_payload) = 1 ∧
  length (leaves colliding_payload) = 2.
Proof.
  split.
  { cbn [colliding_payload wf_payload map fst]. repeat split;
      by apply (bool_decide_unpack _). }
  repeat split; by vm_compute.
Qed.

(** ** The staging buffer *)

Lemma deposit_all_lookup (deposits : list (gmap string pyval))
  (buf : gmap string pyval) (k : string) :
  deposit_all buf deposits !! k
  = match latest k deposits with
    | Some v => Some v
    | None => buf !! k
    end.
Proof.
  revert buf. induction deposits as [|d rest IH]; intros buf; [done|].
  unfold deposit_all in *. cbn [foldl latest]. rewrite IH.
  destruct (latest k rest); [done|].
  unfold dict_update. rewrite lookup_union.
  destruct (d !! k), (buf !! k); done.
Qed.

Lemma ingest_deposit_all (evs : list event) (datas : list pyval) :
  Forall2 (λ ev d, payload ev !! "data" = Some d) evs datas →
  ∀ self,
    ingest self evs
    = Some {| _root_prim_path := _root_prim_path self;
              _data_update :=
                deposit_all (_data_update self) (flatten_obj <$> datas) |}.
Proof.
  induction 1 as [|ev d evs datas Hd _ IH]; intros self.
  - by destruct self.
  - cbn [ingest]. unfold _on_data_read. rewrite Hd, IH. done.
Qed.

Lemma drained_buffer (self : RuntimeUsd) : drained self = _data_update self.
Proof.
  unfold drained, _on_update_event.
  destruct (Nat.eqb_spec (size (_data_update self)) 0) as [H0|H0]; [|done].
  apply map_size_empty_iff in H0. by rewrite H0.
Qed.

(** C7.  The staging buffer is last-write-wins per flat key: after any
    sequence of data-read events, a merge tick drains a dictionary that
    binds each key to the value of the most recent deposit holding it (and
    to what the buffer held before when no deposit holds it); depositing
    [{"a.b": 1}] and then [{"a.b": 2}] drains exactly [{"a.b": 2}]; and two
    deposits over distinct keys leave the same buffer in either order. *)
Theorem staging_buffer_last_write_wins :
  (∀ self evs datas,
     Forall2 (λ ev d, payload ev !! "data" = Some d) evs datas →
     ∃ self', ingest self evs = Some self' ∧
       ∀ k, drained self' !! k
            = match latest k (flatten_obj <$> datas) with
              | Some v => Some v
              | None => _data_update self !! k
              end) ∧
  (∀ root,
     drained <$> ingest {| _root_prim_path := root; _data_update := ∅ |}
                   [data_event (PDict [("a.b", PInt 1)]);
                    data_event (PDict [("a.b", PInt 2)])]
     = Some {["a.b" := PInt 2]}) ∧
  (∀ self e1 e2 d1 d2,
     payload e1 !! "data" = Some d1 → payload e2 !! "data" = Some d2 →
     dom (flatten_obj d1) ## dom (flatten_obj d2) →
     ingest self [e1; e2] = ingest self [e2; e1]).
Proof.
  split; [|split].
  - intros self evs datas Hall. eexists. split.
    + by apply ingest_deposit_all.
    + intros k. rewrite drained_buffer. cbn [_data_update].
      apply deposit_all_lookup.
  - intros root. by vm_compute.
  - intros self e1 e2 d1 d2 H1 H2 Hdisj.
    cbn [ingest]. unfold _on_data_read. rewrite H1, H2.
    cbn [_data_update _root_prim_path]. rewrite ?H1, ?H2.
    do 2 f_equal. unfold dict_update.
    rewrite !(assoc_L (∪)). f_equal.
    apply map_union_comm. by apply map_disjoint_dom.
Qed.

Lemma staging_buffer_last_write_wins_witness :
  ∃ self',
    ingest {| _root_prim_path := "/Root"; _data_update := ∅ |}
      [data_event sample_payload; data_event (PDict [("name", PStr "m2")])]
    = Some self' ∧
    drained self' !! "name" = Some (PStr "m2").
Proof.
  destruct (proj1 staging_buffer_last_write_wins
              {| _root_prim_path := "/Root"; _data_update := ∅ |}
              [data_event sample_payload;
               data_event (PDict [("name", PStr "m2")])]
              [sample_payload; PDict [("name", PStr "m2")]])
    as [self' [Hrun Hk]].
  - repeat constructor.
  - exists self'. split; [exact Hrun|]. rewrite Hk. reflexivity.
Defined.

(** ** The change-notification listener *)

Lemma has_symbol_bundle_inv (w : world) (node : string) :
  has_symbol_bundle w node = true →
  ∃ pr a_sym a_val a_pause v_once,
    prims w !! node = Some pr ∧
    prim_attrs pr !! ATTR_WRITE_SYMBOL = Some a_sym ∧
    prim_attrs pr !! ATTR_WRITE_VALUE = Some a_val ∧
    prim_attrs pr !! ATTR_WRITE_PAUSE = Some a_pause ∧
    prim_attrs pr !! ATTR_WRITE_ONCE
      = Some {| attr_type := TBool; attr_value := v_once |}.
Proof.
  unfold has_symbol_bundle, find_attr. cbn [fst snd].
  destruct (prims w !! node) as [pr|]; cbn; [|done].
  intros H. repeat (apply andb_prop in H as [H ?]).
  repeat match goal with
         | H : bool_decide _ = true |- _ =>
             apply bool_decide_eq_true_1 in H; destruct H as [? ?]
         end.
  destruct (prim_attrs pr !! ATTR_WRITE_ONCE) as [[[] v_once]|] eqn:E; try done.
  eauto 10.
Qed.

Lemma bind_Ok {A B} (c : M A) (k : A → M B) (w w' : world) (a : A) :
  c w = Ok a w' → bind c k w = k a w'.
Proof. unfold bind. by intros ->. Qed.

Lemma bind_Raised {A B} (c : M A) (k : A → M B) (w w' : world) :
  c w = Raised w' → bind c k w = Raised w'.
Proof. unfold bind. by intros ->. Qed.

Lemma GetAttribute_ok (w : world) (p name : string) (pr : prim) :
  prims w !! p = Some pr → GetAttribute p name w = Ok (p, name) w.
Proof. unfold GetAttribute. by intros ->. Qed.

Lemma attr_Get_ok (w : world) (p name : string) (pr : prim) :
  prims w !! p = Some pr →
  attr_Get (p, name) w = Ok (get_value w p name) w.
Proof.
  unfold attr_Get, get_value, find_attr. cbn [fst snd]. intros ->.
  cbn [mbind option_bind]. by destruct (prim_attrs pr !! name).
Qed.

Lemma attr_Set_ok (w : world) (h : attr_handle) (a : attribute) (v v' : pyval) :
  find_attr w h = Some a → sdf_coerce (attr_type a) v = Some v' →
  attr_Set h v w = Ok tt (after_Set w h (attr_type a) v').
Proof. unfold attr_Set. by intros -> ->. Qed.

Lemma find_attr_Some (w : world) (p name : string) (pr : prim) (a : attribute) :
  prims w !! p = Some pr → prim_attrs pr !! name = Some a →
  find_attr w (p, name) = Some a.
Proof. unfold find_attr. intros H1 H2. simpl. rewrite H1. simpl. exact H2. Qed.

Lemma find_attr_after_Set (w : world) (h : attr_handle) (ty : sdf_type)
  (v : pyval) (p name : string) :
  is_Some (prims w !! h.1) →
  find_attr (after_Set w h ty v) (p, name)
  = if decide (h = (p, name))
    then Some {| attr_type := ty; attr_value := Some v |}
    else find_attr w (p, name).
Proof.
  intros [pr Hpr]. destruct h as [p0 n0]. cbn [fst snd] in Hpr.
  unfold find_attr, after_Set, put_attr. cbn [prims fst snd]. rewrite Hpr.
  destruct (decide (p0 = p)) as [->|Hp].
  - rewrite lookup_insert_eq. cbn [mbind option_bind prim_attrs]. rewrite Hpr.
    cbn [mbind option_bind]. destruct (decide (n0 = name)) as [->|Hn].
    + rewrite lookup_insert_eq. by rewrite decide_True.
    + rewrite lookup_insert_ne by done. rewrite decide_False; [done|congruence].
  - rewrite lookup_insert_ne by done. rewrite decide_False; [done|congruence].
Qed.

Lemma prims_after_Set (w : world) (h : attr_handle) (ty : sdf_type)
  (v : pyval) (p : string) :
  is_Some (prims (after_Set w h ty v) !! p) ↔ is_Some (prims w !! p).
Proof.
  unfold after_Set, put_attr. cbn [prims].
  destruct (prims w !! h.1) as [pr|] eqn:E; [|done].
  destruct (decide (h.1 = p)) as [<-|Hp].
  - rewrite lookup_insert_eq, E. split; eauto.
  - by rewrite lookup_insert_ne.
Qed.

Lemma get_value_after_Set (w : world) (h : attr_handle) (ty : sdf_type)
  (v : pyval) (p name : string) :
  is_Some (prims w !! h.1) →
  get_value (after_Set w h ty v) p name
  = if decide (h = (p, name)) then v else get_value w p name.
Proof.
  intros Hpr. unfold get_value. rewrite find_attr_after_Set by done.
  by destruct (decide (h = (p, name))).
Qed.

Lemma notice_changed_body_bundle (self : RuntimeUsd) (changed : string)
  (w : world) :
  actionable self changed = true →
  has_symbol_bundle w (split_dot_0 changed) = true →
  notice_changed_body self changed w
  = if should_forward w (split_dot_0 changed)
    then Ok tt (forwarded w (split_dot_0 changed))
    else Ok tt w.
Proof.
  intros Hact Hb. unfold actionable in Hact.
  apply andb_prop in Hact as [Hroot Hname].
  apply has_symbol_bundle_inv in Hb
    as (pr & a_sym & a_val & a_pause & v_once & Hpr & Hsym & Hval & Hpause & Honce).
  set (node := split_dot_0 changed) in *.
  assert (Hfw : forward_write node (node, ATTR_WRITE_SYMBOL)
                  (node, ATTR_WRITE_ONCE) w = Ok tt (forwarded w node)).
  { unfold forward_write.
    erewrite bind_Ok
      by (eapply attr_Set_ok; [by eapply find_attr_Some|done]).
    cbn [attr_type].
    assert (Hpr' : is_Some (prims (after_Set w (node, ATTR_WRITE_ONCE) TBool
                                     (PBool false)) !! node)).
    { apply prims_after_Set. eauto. }
    destruct Hpr' as [pr' Hpr'].
    erewrite bind_Ok by (by eapply GetAttribute_ok).
    erewrite bind_Ok by (by eapply attr_Get_ok).
    erewrite bind_Ok by (by eapply attr_Get_ok).
    rewrite !get_value_after_Set by (cbn [fst]; eauto).
    rewrite !decide_False by (intros [= ?]; done).
    unfold write_variable, log_effect, forwarded, after_Set.
    cbn [prims expired effects fst snd]. by rewrite <- (assoc_L (++)). }
  unfold notice_changed_body. fold node. rewrite Hroot, Hname.
  erewrite bind_Ok by reflexivity.
  erewrite bind_Ok by (by eapply GetAttribute_ok).
  erewrite bind_Ok by reflexivity.
  rewrite bool_decide_eq_true_2
    by (erewrite find_attr_Some by done; eauto).
  cbn [negb].
  erewrite bind_Ok by (by eapply GetAttribute_ok).
  erewrite bind_Ok by (by eapply GetAttribute_ok).
  erewrite bind_Ok by (by eapply attr_Get_ok).
  unfold should_forward.
  destruct (truthy (get_value w node ATTR_WRITE_ONCE)); cbn [orb]; [done|].
  erewrite bind_Ok by (by eapply attr_Get_ok).
  destruct (truthy (get_value w node ATTR_WRITE_PAUSE)); cbn [negb]; done.
Qed.

Lemma bridge_writes_forwarded (w : world) (node : string) :
  bridge_writes (forwarded w node)
  = bridge_writes w ++ [(get_value w node ATTR_WRITE_SYMBOL,
                         get_value w node ATTR_WRITE_VALUE)].
Proof. unfold bridge_writes, forwarded. cbn [effects]. by rewrite omap_app. Qed.

Lemma bridge_writes_after_Set (w : world) (h : attr_handle) (ty : sdf_type)
  (v : pyval) :
  bridge_writes (after_Set w h ty v) = bridge_writes w.
Proof.
  unfold bridge_writes, after_Set. cbn [effects].
  rewrite omap_app. cbn. apply (right_id_L [] (++)).
Qed.

Lemma notice_changed_single (self : RuntimeUsd) (changed : string) (w : world) :
  expired w = false →
  actionable self changed = true →
  has_symbol_bundle w (split_dot_0 changed) = true →
  _notice_changed self [changed] w
  = Ok tt (if should_forward w (split_dot_0 changed)
           then forwarded w (split_dot_0 changed) else w).
Proof.
  intros Hexp Hact Hb. unfold _notice_changed. rewrite Hexp.
  cbn [for_each]. unfold bind.
  rewrite notice_changed_body_bundle by done.
  by destruct (should_forward w (split_dot_0 changed)).
Qed.

(** An edit of the write value of a node that is paused and not armed leaves
    the flags and the bundle as they are. *)
Lemma user_edit_paused (self : RuntimeUsd) (changed : string) (v : pyval)
  (w : world) :
  expired w = false →
  actionable self changed = true →
  path_name changed = ATTR_WRITE_VALUE →
  has_symbol_bundle w (split_dot_0 changed) = true →
  should_forward w (split_dot_0 changed) = false →
  user_edit self changed v w = Raised w ∨
  ∃ w', user_edit self changed v w = Ok tt w' ∧
        expired w' = false ∧
        has_symbol_bundle w' (split_dot_0 changed) = true ∧
        should_forward w' (split_dot_0 changed) = false ∧
        bridge_writes w' = bridge_writes w.
Proof.
  intros Hexp Hact Hname Hb Hsf. unfold user_edit. rewrite Hname.
  set (node := split_dot_0 changed) in *.
  pose proof Hb as Hinv. apply has_symbol_bundle_inv in Hinv
    as (pr & a_sym & a_val & a_pause & v_once & Hpr & Hsym & Hval & Hpause & Honce).
  pose proof (find_attr_Some _ _ _ _ _ Hpr Hval) as Hfind.
  destruct (sdf_coerce (attr_type a_val) v) as [v'|] eqn:Hco.
  - right.
    erewrite bind_Ok by (by eapply attr_Set_ok).
    set (w1 := after_Set w (node, ATTR_WRITE_VALUE) (attr_type a_val) v').
    assert (Hother : ∀ name, name ≠ ATTR_WRITE_VALUE →
              find_attr w1 (node, name) = find_attr w (node, name)).
    { intros name Hne. unfold w1. rewrite find_attr_after_Set by (cbn; eauto).
      rewrite decide_False; [done|]. by intros [= ?]. }
    assert (Hb1 : has_symbol_bundle w1 node = true).
    { unfold has_symbol_bundle.
      rewrite (Hother ATTR_WRITE_SYMBOL), (Hother ATTR_WRITE_PAUSE),
        (Hother ATTR_WRITE_ONCE) by done.
      unfold w1. rewrite find_attr_after_Set by (cbn; eauto).
      rewrite decide_True by done.
      rewrite (find_attr_Some _ _ _ _ _ Hpr Hsym),
        (find_attr_Some _ _ _ _ _ Hpr Hpause),
        (find_attr_Some _ _ _ _ _ Hpr Honce).
      rewrite !bool_decide_eq_true_2 by eauto. done. }
    assert (Hsf1 : should_forward w1 node = false).
    { unfold should_forward, get_value in *. by rewrite !Hother. }
    exists w1. rewrite notice_changed_single by done. fold node.
    rewrite Hsf1. repeat split; try done.
    apply bridge_writes_after_Set.
  - left. apply bind_Raised. unfold attr_Set. by rewrite Hfind, Hco.
Qed.

Lemma for_each_cons {A} (x : A) (rest : list A) (body : A → M unit)
  (w : world) :
  for_each (x :: rest) body w
  = match body x w with
    | Ok _ w' => for_each rest body w'
    | Raised w' => Raised w'
    end.
Proof. reflexivity. Qed.

(** However many times the write value of a paused, unarmed node is edited,
    nothing reaches the bridge. *)
Lemma edits_while_paused (self : RuntimeUsd) (changed : string)
  (values : list pyval) :
  actionable self changed = true →
  path_name changed = ATTR_WRITE_VALUE →
  ∀ w, expired w = false →
       has_symbol_bundle w (split_dot_0 changed) = true →
       should_forward w (split_dot_0 changed) = false →
       bridge_writes (world_of (for_each values (user_edit self changed) w))
       = bridge_writes w.
Proof.
  intros Hact Hname. induction values as [|v values IH]; intros w Hexp Hb Hsf.
  - done.
  - rewrite for_each_cons.
    destruct (user_edit_paused self changed v w Hexp Hact Hname Hb Hsf)
      as [->|(w' & -> & Hexp' & Hb' & Hsf' & Hw')]; [done|].
    rewrite IH by done. exact Hw'.
Qed.

(** C2.  A notification of a change to [write:value], [write:once] or
    [write:pause] under the component's root, on a node that carries the
    symbol bundle (as every node does that [create_symbol_prim_value] has
    built up to its marker, see [created_symbol_node_has_bundle]), forwards
    the current write value to the bridge exactly when [write:once] is true
    or [write:pause] is false: the bridge then
    receives the one write (symbol, write value), and otherwise none.  In
    particular, while [write:pause] is true and [write:once] is false, any
    number of edits to [write:value] forward nothing. *)
Theorem notice_forwards_iff_once_or_not_paused (self : RuntimeUsd)
  (changed : string) (w : world) :
  expired w = false →
  actionable self changed = true →
  has_symbol_bundle w (split_dot_0 changed) = true →
  (∃ w', _notice_changed self [changed] w = Ok tt w' ∧
     bridge_writes w'
     = bridge_writes w ++
       if truthy (get_value w (split_dot_0 changed) ATTR_WRITE_ONCE)
          || negb (truthy (get_value w (split_dot_0 changed) ATTR_WRITE_PAUSE))
       then [(get_value w (split_dot_0 changed) ATTR_WRITE_SYMBOL,
              get_value w (split_dot_0 changed) ATTR_WRITE_VALUE)]
       else []) ∧
  (path_name changed = ATTR_WRITE_VALUE →
   truthy (get_value w (split_dot_0 changed) ATTR_WRITE_PAUSE) = true →
   truthy (get_value w (split_dot_0 changed) ATTR_WRITE_ONCE) = false →
   ∀ values,
     bridge_writes (world_of (for_each values (user_edit self changed) w))
     = bridge_writes w).
Proof.
  intros Hexp Hact Hb. split.
  - eexists. split; [by apply notice_changed_single|].
    fold (should_forward w (split_dot_0 changed)).
    destruct (should_forward w (split_dot_0 changed)).
    + apply bridge_writes_forwarded.
    + by rewrite (right_id_L [] (++)).
  - intros Hname Hpause Honce values.
    apply edits_while_paused; try done.
    unfold should_forward. by rewrite Hpause, Honce.
Qed.

Lemma notice_forwards_iff_once_or_not_paused_witness :
  bridge_writes
    (world_of (for_each [PFloat 1; PFloat 2; PFloat 3]
                 (user_edit listener "/Root/x.write:value")
                 (bundle_world false true)))
  = [].
Proof.
  refine (proj2 (notice_forwards_iff_once_or_not_paused listener
                   "/Root/x.write:value" (bundle_world false true) _ _ _)
            _ _ _ [PFloat 1; PFloat 2; PFloat 3]); reflexivity.
Defined.

Lemma find_attr_forwarded (w : world) (node p name : string) :
  is_Some (prims w !! node) →
  find_attr (forwarded w node) (p, name)
  = if decide ((node, ATTR_WRITE_ONCE) = (p, name))
    then Some {| attr_type := TBool; attr_value := Some (PBool false) |}
    else find_attr w (p, name).
Proof.
  intros Hpr.
  by rewrite <- (find_attr_after_Set w (node, ATTR_WRITE_ONCE) TBool
                   (PBool false) p name Hpr).
Qed.

Lemma has_symbol_bundle_forwarded (w : world) (node : string) :
  has_symbol_bundle w node = true →
  has_symbol_bundle (forwarded w node) node = true.
Proof.
  intros Hb. pose proof Hb as Hinv. apply has_symbol_bundle_inv in Hinv
    as (pr & a_sym & a_val & a_pause & v_once & Hpr & Hsym & Hval & Hpause & Honce).
  unfold has_symbol_bundle. rewrite !find_attr_forwarded by eauto.
  rewrite !decide_False by (by intros [= ?]).
  rewrite decide_True by done.
  rewrite (find_attr_Some _ _ _ _ _ Hpr Hsym),
    (find_attr_Some _ _ _ _ _ Hpr Hpause),
    (find_attr_Some _ _ _ _ _ Hpr Hval).
  rewrite !bool_decide_eq_true_2 by eauto. done.
Qed.

(** C3 (as amended).  Whenever the listener forwards, for either reason, it
    first sets [write:once] to false and then hands the write value to the
    bridge: the notification adds exactly these two effects, in this order,
    and leaves [write:once] false.  While [write:pause] is true, no edit of
    [write:value] forwards anything further, however many follow: the
    bridge has received exactly the one write until [write:once] is set
    again. *)
Theorem forward_clears_once (self : RuntimeUsd) (changed edited : string)
  (w : world) :
  expired w = false →
  actionable self changed = true →
  has_symbol_bundle w (split_dot_0 changed) = true →
  truthy (get_value w (split_dot_0 changed) ATTR_WRITE_ONCE)
  || negb (truthy (get_value w (split_dot_0 changed) ATTR_WRITE_PAUSE)) = true →
  ∃ w', _notice_changed self [changed] w = Ok tt w' ∧
    effects w'
    = effects w ++
      [ESet (split_dot_0 changed) ATTR_WRITE_ONCE (PBool false);
       EWriteVariable (get_value w (split_dot_0 changed) ATTR_WRITE_SYMBOL)
                      (get_value w (split_dot_0 changed) ATTR_WRITE_VALUE)] ∧
    get_value w' (split_dot_0 changed) ATTR_WRITE_ONCE = PBool false ∧
    (truthy (get_value w (split_dot_0 changed) ATTR_WRITE_PAUSE) = true →
     actionable self edited = true →
     path_name edited = ATTR_WRITE_VALUE →
     split_dot_0 edited = split_dot_0 changed →
     ∀ values,
       bridge_writes (world_of (for_each values (user_edit self edited) w'))
       = bridge_writes w ++
         [(get_value w (split_dot_0 changed) ATTR_WRITE_SYMBOL,
           get_value w (split_dot_0 changed) ATTR_WRITE_VALUE)]).
Proof.
  intros Hexp Hact Hb Hsf.
  fold (should_forward w (split_dot_0 changed)) in Hsf.
  set (node := split_dot_0 changed) in *.
  assert (Hpr : is_Some (prims w !! node)).
  { apply has_symbol_bundle_inv in Hb as (pr & ? & ? & ? & ? & Hpr & _). eauto. }
  exists (forwarded w node). split; [|split; [done|split]].
  - rewrite notice_changed_single by done. fold node. by rewrite Hsf.
  - unfold get_value. rewrite find_attr_forwarded by done.
    by rewrite decide_True.
  - intros Hpause Hact' Hname Hnode values.
    rewrite edits_while_paused; try done.
    + apply bridge_writes_forwarded.
    + rewrite Hnode. fold node. by apply has_symbol_bundle_forwarded.
    + rewrite Hnode. fold node. unfold should_forward, get_value.
      rewrite !find_attr_forwarded by done.
      rewrite decide_True by done.
      rewrite decide_False by (by intros [= ?]).
      unfold get_value in Hpause. by rewrite Hpause.
Qed.

Lemma forward_clears_once_witness :
  bridge_writes
    (world_of ((_notice_changed listener ["/Root/x.write:once"] ;;;
                for_each [PFloat 1; PFloat 2]
                  (user_edit listener "/Root/x.write:value"))
                 (bundle_world true true)))
  = [(PStr "gVar", PFloat 5)].
Proof.
  destruct (forward_clears_once listener "/Root/x.write:once"
              "/Root/x.write:value" (bundle_world true true)
              eq_refl eq_refl eq_refl eq_refl)
    as (w' & Hrun & _ & _ & Hlater).
  rewrite (bind_Ok _ _ _ _ _ Hrun).
  apply (Hlater eq_refl eq_refl eq_refl eq_refl).
Defined.

(** C3 (as stated) fails.  On a node that is armed and not paused, two
    notifications forward two writes although [write:once] was never set
    again in between; in each, [write:once] is written before, not after,
    the value goes to the bridge; and the second forward, which the pause
    flag alone causes, writes [write:once] just the same. *)
Lemma once_forward_not_last_when_unpaused :
  effects
    (world_of ((_notice_changed listener ["/Root/x.write:value"] ;;;
                _notice_changed listener ["/Root/x.write:value"])
                 (bundle_world true false)))
  = [ESet "/Root/x" ATTR_WRITE_ONCE (PBool false);
     EWriteVariable (PStr "gVar") (PFloat 5);
     ESet "/Root/x" ATTR_WRITE_ONCE (PBool false);
     EWriteVariable (PStr "gVar") (PFloat 5)].
Proof. by vm_compute. Qed.

(** C4.  A change whose owning node has no [symbol] marker is ignored: when
    the node exists the round returns at once and the world is as before,
    whatever the flags say; and a notice all of whose changes are of this
    kind (the node may even be missing) leaves the world untouched, so
    nothing is written to the bridge. *)
Theorem notice_ignored_without_marker (self : RuntimeUsd) :
  (∀ changed w pr,
     prims w !! split_dot_0 changed = Some pr →
     prim_attrs pr !! ATTR_WRITE_SYMBOL = None →
     notice_changed_body self changed w = Ok tt w) ∧
  (∀ notice w,
     Forall (λ changed,
               find_attr w (split_dot_0 changed, ATTR_WRITE_SYMBOL) = None)
       notice →
     world_of (_notice_changed self notice w) = w ∧
     bridge_writes (world_of (_notice_changed self notice w))
     = bridge_writes w).
Proof.
  assert (Hbody : ∀ changed w,
            find_attr w (split_dot_0 changed, ATTR_WRITE_SYMBOL) = None →
            notice_changed_body self changed w = Ok tt w ∨
            notice_changed_body self changed w = Raised w).
  { intros changed w Hnone. unfold notice_changed_body.
    destruct (String.prefix _ _); [|by left].
    destruct (_ || _); [|by left].
    erewrite bind_Ok by reflexivity.
    destruct (prims w !! split_dot_0 changed) as [pr|] eqn:Hpr.
    - left. erewrite bind_Ok by (by eapply GetAttribute_ok).
      erewrite bind_Ok by reflexivity.
      rewrite Hnone. rewrite bool_decide_eq_false_2; [done|].
      by intros [? ?].
    - right. apply bind_Raised. unfold GetAttribute. by rewrite Hpr. }
  split.
  - intros changed w pr Hpr Hsym.
    destruct (Hbody changed w) as [H|H]; [|done|].
    + unfold find_attr. simpl. rewrite Hpr. simpl. exact Hsym.
    + exfalso. revert H. unfold notice_changed_body.
      destruct (String.prefix _ _); [|done].
      destruct (_ || _); [|done].
      erewrite bind_Ok by reflexivity.
      erewrite bind_Ok by (by eapply GetAttribute_ok).
      erewrite bind_Ok by reflexivity.
      assert (Hnone : find_attr w (split_dot_0 changed, ATTR_WRITE_SYMBOL)
                      = None).
      { unfold find_attr. simpl. rewrite Hpr. simpl. exact Hsym. }
      rewrite Hnone. rewrite bool_decide_eq_false_2; [done|].
      by intros [? ?].
  - intros notice w Hall.
    assert (Hw : world_of (_notice_changed self notice w) = w);
      [|by rewrite Hw].
    unfold _notice_changed. destruct (expired w); [done|].
    induction Hall as [|changed notice Hnone _ IH]; [done|].
    rewrite for_each_cons.
    destruct (Hbody changed w Hnone) as [-> | ->]; done.
Qed.

Lemma notice_ignored_without_marker_witness :
  bridge_writes
    (world_of (_notice_changed listener
                 ["/Root/x.write:value"; "/Root/x.write:once"]
                 unmarked_world))
  = [].
Proof.
  refine (proj2 (proj2 (notice_ignored_without_marker listener)
                   ["/Root/x.write:value"; "/Root/x.write:once"]
                   unmarked_world _)).
  repeat constructor.
Defined.

(** ** Operations compiled from keys *)

Lemma set_symbol_prim_value_not_found
  (lit : pyval → option (list (list Q))) (full_key key : string)
  (value : pyval) (w : world) :
  find_attr w (full_key, key) = None →
  set_symbol_prim_value lit full_key key value w = Ok false w.
Proof.
  intros Hnone. unfold set_symbol_prim_value.
  erewrite bind_Ok by reflexivity.
  erewrite bind_Ok by reflexivity.
  destruct (prims w !! full_key) as [pr|] eqn:Hpr.
  - rewrite bool_decide_eq_true_2 by eauto. cbn [negb].
    erewrite bind_Ok by (by eapply GetAttribute_ok).
    erewrite bind_Ok by reflexivity.
    rewrite Hnone. rewrite bool_decide_eq_false_2; [done|]. by intros [? ?].
  - rewrite bool_decide_eq_false_2; [done|]. by intros [? ?].
Qed.

(** C9.  When the target of an operation does not exist (its node is
    missing, or the attribute it writes is missing from the node),
    [execute] returns [False] and leaves the world exactly as it was: no
    prim, no attribute, no value is created or changed, whatever the
    operation and the value. *)
Theorem execute_not_found_is_pure (lit : pyval → option (list (list Q)))
  (op : UsdOp) (value : pyval) (w : world) :
  target_exists op w = false →
  execute lit op value w = Ok false w.
Proof.
  unfold target_exists, execute. intros Htarget.
  assert (Hset : (operation op =? "type") = false →
            set_symbol_prim_value lit (op_path op) (op_value op) value w
            = Ok false w).
  { intros Hty. apply set_symbol_prim_value_not_found.
    unfold find_attr. simpl.
    destruct (prims w !! op_path op) as [pr|]; [|done]. simpl.
    rewrite Hty in Htarget. cbn [orb] in Htarget.
    apply bool_decide_eq_false_1 in Htarget.
    destruct (prim_attrs pr !! op_value op); [|done].
    exfalso. eauto. }
  destruct (operation op =? "attr") eqn:Hattr.
  - apply Hset. apply String.eqb_eq in Hattr. by rewrite Hattr.
  - destruct (operation op =? "type") eqn:Htype; [|by apply Hset].
    erewrite bind_Ok by reflexivity.
    erewrite bind_Ok by reflexivity.
    destruct (prims w !! op_path op); [done|].
    rewrite bool_decide_eq_false_2; [done|]. by intros [? ?].
Qed.

Lemma execute_not_found_is_pure_witness :
  execute (λ _, None) (get_op_from_key "/Root/y/speed" "y.speed") (PFloat 3)
    (bundle_world false false)
  = Ok false (bundle_world false false).
Proof. apply execute_not_found_is_pure. reflexivity. Defined.

(** ** The worker loops *)

Lemma read_tick_spec (period_ms lastTick t : Q) :
  read_tick period_ms t lastTick
  = ((spec_read_step (period_ms / 1000) lastTick t).2,
     spec_sleep_event (spec_read_step (period_ms / 1000) lastTick t).1).
Proof.
  unfold read_tick, spec_read_step.
  by destruct (Qlt_le_dec 0 (period_ms / 1000 - (t - lastTick))).
Qed.

Lemma read_loop_cons (t0 : Q) (o : observation) (rest : list observation)
  (period_ms : Q) :
  sees_alive o = true →
  seen_period_ms o = Some period_ms →
  fails_softly o = true →
  read_loop t0 (o :: rest)
  = and_then
      ([(read_tick period_ms (now o) t0).2; EvRead]
       ++ match callback o with
          | Returns => []
          | Raises _ => [EvSleep (PFloat (1 # 100))]
          end)
      (read_loop (read_tick period_ms (now o) t0).1 rest).
Proof.
  unfold sees_alive, seen_period_ms, fails_softly. intros Halive Hperiod Hsoft.
  cbn [read_loop].
  destruct (getattr (seen_self o) "_thread_is_alive") as [alive|]; [|done].
  rewrite Halive, Hperiod. cbn [negb].
  destruct (read_tick period_ms (now o) t0) as [t1 slept]. cbn [fst snd].
  destruct (callback o) as [|e]; [done|]. by rewrite Hsoft.
Qed.

Lemma read_calls_app (l1 l2 : list loop_event) :
  read_calls (l1 ++ l2) = read_calls l1 + read_calls l2.
Proof. unfold read_calls. by rewrite List.filter_app, length_app. Qed.

Lemma read_data_run (obs : list observation) (t0 : Q) :
  Forall (λ o, sees_alive o = true ∧ is_Some (seen_period_ms o) ∧
               fails_softly o = true) obs →
  __read_data t0 obs
  = (EvReadStarting :: spec_read_events t0 (spec_iteration <$> obs), Running)
  ∧ read_calls (__read_data t0 obs).1 = length obs.
Proof.
  intros Hall.
  assert (Hloop : read_loop t0 obs
                  = (spec_read_events t0 (spec_iteration <$> obs), Running)
                  ∧ read_calls (read_loop t0 obs).1 = length obs).
  { revert t0. induction Hall as [|o obs (Halive & [p Hp] & Hsoft) _ IH];
      intros t0; [done|].
    rewrite (read_loop_cons t0 o obs p Halive Hp Hsoft).
    rewrite read_tick_spec. cbn [fst snd].
    destruct (IH (spec_read_step (p / 1000) t0 (now o)).2) as [IHrun IHcalls].
    unfold and_then. cbn [fst snd]. split.
    - rewrite IHrun. cbn [fst snd fmap list_fmap spec_read_events].
      change (spec_iteration o)
        with ((default 0 (seen_period_ms o) / 1000)%Q, now o, callback o).
      rewrite Hp. change (default 0%Q (Some p)) with p.
      destruct (spec_read_step (p / 1000) t0 (now o)) as [slept t1].
      cbn [fst snd]. by rewrite <- (assoc_L (++)).
    - rewrite read_calls_app, IHcalls. cbn [length]. f_equal.
      destruct (spec_read_step (p / 1000) t0 (now o)) as [[r|] t1];
        by destruct (callback o). }
  destruct Hloop as [Hrun Hcalls]. unfold __read_data, and_then.
  rewrite Hrun. cbn [fst snd]. split; [done|].
  rewrite Hrun in Hcalls. cbn [fst] in Hcalls.
  change (EvReadStarting :: ?l) with ([EvReadStarting] ++ l).
  by rewrite read_calls_app, Hcalls.
Qed.

(** C5.  The read loop schedules at a fixed rate with drift correction.  The
    timing block of a pass computes the time elapsed since [lastTick]; when
    the period less the elapsed time is positive it sleeps that remainder
    and sets [lastTick] to the clock reading plus the remainder, which is
    the previous [lastTick] plus one period; otherwise it sleeps zero
    seconds (a yield) and sets [lastTick] to the clock reading.  Over any
    run in which the alive flag is seen set, the events of the loop are, pass
    by pass, those of the specification's iteration, and the read callback
    is called once in every pass, whichever branch was taken. *)
Theorem read_loop_drift_corrected :
  (∀ period_ms lastTick t,
     let remainder := (period_ms / 1000 - (t - lastTick))%Q in
     ((0 < remainder)%Q →
      read_tick period_ms t lastTick
      = ((t + remainder)%Q, EvSleep (PFloat remainder)) ∧
      (t + remainder == lastTick + period_ms / 1000)%Q) ∧
     (¬ (0 < remainder)%Q →
      read_tick period_ms t lastTick = (t, EvSleep (PInt 0)))) ∧
  (∀ obs t0,
     Forall (λ o, sees_alive o = true ∧ is_Some (seen_period_ms o) ∧
                  fails_softly o = true) obs →
     __read_data t0 obs
     = (EvReadStarting :: spec_read_events t0 (spec_iteration <$> obs),
        Running) ∧
     read_calls (__read_data t0 obs).1 = length obs).
Proof.
  split.
  - intros period_ms lastTick t remainder. unfold read_tick. fold remainder.
    destruct (Qlt_le_dec 0 remainder) as [Hpos|Hneg]; split.
    + intros _. split; [done|]. unfold remainder. ring.
    + intros Hn. by destruct Hn.
    + intros Hpos. exfalso. by apply (Qlt_not_le _ _ Hpos).
    + done.
  - intros obs t0 Hall. by apply read_data_run.
Qed.

Lemma read_loop_drift_corrected_witness :
  read_calls (__read_data 0 (raising_run Exception)).1 = 2%nat.
Proof.
  refine (proj2 (proj2 read_loop_drift_corrected
                   (raising_run Exception) 0%Q _)).
  repeat constructor; by eexists.
Defined.

Lemma write_loop_cons (o : observation) (rest : list observation) :
  sees_alive o = true →
  fails_softly o = true →
  write_loop (o :: rest) = and_then (write_pass_events o) (write_loop rest).
Proof.
  unfold sees_alive, fails_softly, write_pass_events. intros Halive Hsoft.
  cbn [write_loop].
  destruct (getattr (seen_self o) "_thread_is_alive") as [alive|]; [|done].
  rewrite Halive. cbn [negb].
  destruct (callback o) as [|e].
  - destruct (getattr (seen_self o) "_write_sleep") as [seconds|]; [|done].
    by destruct (sleep_accepts seconds).
  - by rewrite Hsoft.
Qed.

Lemma write_calls_app (l1 l2 : list loop_event) :
  write_calls (l1 ++ l2) = write_calls l1 + write_calls l2.
Proof. unfold write_calls. by rewrite List.filter_app, length_app. Qed.

Lemma write_calls_pass (o : observation) :
  write_calls (write_pass_events o) = 1.
Proof.
  unfold write_pass_events, write_calls.
  destruct (callback o); [|done].
  destruct (getattr (seen_self o) "_write_sleep") as [s|]; [|done].
  by destruct (sleep_accepts s).
Qed.

(** C6 (as amended).  A callback exception that derives from [Exception]
    never ends either loop.  In the read loop it is caught, the loop sleeps
    10 ms and goes on: after a run of passes that see the alive flag the
    loop is still running, it has called the read callback once per pass,
    and its events are those of the specification, with the 10 ms sleep
    after each failed call.  In the write loop it is caught and swallowed
    with no backoff: the loop is still running, it has called the write
    callback once per pass, and between two calls there is nothing but the
    [_write_sleep] sleep, which follows a call that returned and is skipped
    after a call that failed. *)
Theorem soft_callback_failure_never_ends_loops :
  (∀ obs t0,
     Forall (λ o, sees_alive o = true ∧ is_Some (seen_period_ms o) ∧
                  fails_softly o = true) obs →
     (__read_data t0 obs).2 = Running ∧
     read_calls (__read_data t0 obs).1 = length obs ∧
     (__read_data t0 obs).1
     = EvReadStarting :: spec_read_events t0 (spec_iteration <$> obs)) ∧
  (∀ obs,
     Forall (λ o, sees_alive o = true ∧ fails_softly o = true) obs →
     (__write_data obs).2 = Running ∧
     write_calls (__write_data obs).1 = length obs ∧
     (__write_data obs).1
     = EvWriteStarting :: concat (write_pass_events <$> obs)).
Proof.
  split.
  - intros obs t0 Hall.
    destruct (read_data_run obs t0 Hall) as [Hrun Hcalls].
    rewrite Hcalls. by rewrite Hrun.
  - intros obs Hall.
    assert (Hloop : write_loop obs
                    = (concat (write_pass_events <$> obs), Running)).
    { induction Hall as [|o obs [Halive Hsoft] _ IH]; [done|].
      rewrite write_loop_cons, IH by done. done. }
    unfold __write_data, and_then. rewrite Hloop. cbn [fst snd].
    split; [done|]. split; [|done].
    change (EvWriteStarting :: ?l) with ([EvWriteStarting] ++ l).
    rewrite write_calls_app. cbn. clear.
    induction obs as [|o obs IH]; [done|].
    cbn [fmap list_fmap concat length].
    by rewrite write_calls_app, write_calls_pass, IH.
Qed.

Lemma soft_callback_failure_never_ends_loops_witness :
  (__write_data (raising_run Exception)).2 = Running ∧
  write_calls (__write_data (raising_run Exception)).1 = 2%nat.
Proof.
  destruct (proj2 soft_callback_failure_never_ends_loops
              (raising_run Exception)) as (Hrun & Hcalls & _).
  - repeat constructor.
  - split; [exact Hrun | exact Hcalls].
Defined.

(** C6 (as stated) fails.  [except Exception] does not catch an exception
    that is not derived from [Exception]: when the callback raises
    [SystemExit] the thread ends there, in either loop; the callback of the
    next pass is never called and the ending hook does not run. *)
Lemma system_exit_ends_both_loops :
  (__read_data 0 (raising_run SystemExit)).2 = Died ∧
  read_calls (__read_data 0 (raising_run SystemExit)).1 = 1%nat ∧
  __write_data (raising_run SystemExit) = ([EvWriteStarting; EvWrite], Died).
Proof. by vm_compute. Qed.

(** ** The write_sleep_time property *)

Lemma write_loop_ignores_write_sleep_time (value : pyval)
  (obs : list observation) :
  write_loop (with_self (λ self, write_sleep_time_set self value) <$> obs)
  = write_loop obs.
Proof.
  induction obs as [|o obs IH]; [done|].
  cbn [fmap list_fmap write_loop with_self seen_self callback].
  unfold write_sleep_time_set, setattr, getattr in *.
  rewrite !lookup_insert_ne by done.
  change (list_fmap _ _ ?f obs) with (f <$> obs). by rewrite IH.
Qed.

(** C10.  The property [write_sleep_time] reads and writes the field
    [_write_sleep_time]: what is assigned is read back, and no other field
    changes.  The interval of the write loop is the field [_write_sleep],
    which [__init__] sets to 0.001: it keeps its value under an assignment
    to [write_sleep_time], and the write loop runs exactly as it would
    without the assignment.  Reading [write_sleep_time] on an instance fresh
    from [__init__] fails, the field does not exist. *)
Theorem write_sleep_time_is_not_the_write_interval :
  (∀ self value,
     write_sleep_time_get (write_sleep_time_set self value) = Some value) ∧
  (∀ self value name,
     name ≠ "_write_sleep_time" →
     getattr (write_sleep_time_set self value) name = getattr self name) ∧
  (∀ self value,
     getattr (write_sleep_time_set self value) "_write_sleep"
     = getattr self "_write_sleep") ∧
  (∀ name, getattr (__init__ name) "_write_sleep" = Some (PFloat (1 # 1000))) ∧
  (∀ name, write_sleep_time_get (__init__ name) = None) ∧
  (∀ value obs,
     __write_data (with_self (λ self, write_sleep_time_set self value) <$> obs)
     = __write_data obs).
Proof.
  split; [|split; [|split; [|split; [|split]]]].
  - intros self value. apply lookup_insert_eq.
  - intros self value name Hne. by apply lookup_insert_ne.
  - intros self value. by apply lookup_insert_ne.
  - intros name. by vm_compute.
  - intros name. by vm_compute.
  - intros value obs. unfold __write_data.
    by rewrite (write_loop_ignores_write_sleep_time value obs).
Qed.

Lemma write_sleep_time_is_not_the_write_interval_witness :
  getattr (write_sleep_time_set (__init__ "c") (PFloat 5)) "_refresh_period_ms"
  = Some (PInt 20).
Proof.
  rewrite (proj1 (proj2 write_sleep_time_is_not_the_write_interval)
             (__init__ "c") (PFloat 5) "_refresh_period_ms").
  - reflexivity.
  - discriminate.
Defined.

(** ** Attribute creation *)

Lemma find_attr_put (w w' : world) (h : attr_handle) (a : attribute)
  (p name : string) :
  prims w' = put_attr (prims w) h a →
  is_Some (prims w !! h.1) →
  find_attr w' (p, name)
  = if decide (h = (p, name)) then Some a else find_attr w (p, name).
Proof.
  intros Hw' [pr Hpr]. destruct h as [p0 n0]. simpl in Hpr.
  unfold find_attr. rewrite Hw'. unfold put_attr. simpl. rewrite Hpr.
  destruct (decide (p0 = p)) as [->|Hp].
  - rewrite lookup_insert_eq. simpl. rewrite Hpr. simpl.
    destruct (decide (n0 = name)) as [->|Hn].
    + rewrite lookup_insert_eq. by rewrite decide_True.
    + rewrite lookup_insert_ne by done. rewrite decide_False; [done|congruence].
  - rewrite lookup_insert_ne by done. rewrite decide_False; [done|congruence].
Qed.

Lemma prims_put (ps : gmap string prim) (h : attr_handle) (a : attribute)
  (p : string) :
  is_Some (put_attr ps h a !! p) ↔ is_Some (ps !! p).
Proof.
  unfold put_attr. destruct (ps !! h.1) as [pr|] eqn:E; [|done].
  destruct (decide (h.1 = p)) as [<-|Hp].
  - rewrite lookup_insert_eq, E. split; eauto.
  - by rewrite lookup_insert_ne.
Qed.

Lemma CreateAttribute_new (w : world) (p name : string) (ty : sdf_type) :
  is_Some (prims w !! p) →
  find_attr w (p, name) = None →
  CreateAttribute p name ty w = Ok (p, name) (after_Create w (p, name) ty).
Proof.
  intros [pr Hpr] Hnone. unfold find_attr in Hnone. simpl in Hnone.
  rewrite Hpr in Hnone. simpl in Hnone.
  unfold CreateAttribute. by rewrite Hpr, Hnone.
Qed.

Lemma CreateAttribute_existing (w : world) (p name : string) (ty : sdf_type)
  (a : attribute) :
  find_attr w (p, name) = Some a →
  CreateAttribute p name ty w = Ok (p, name) w.
Proof.
  unfold find_attr, CreateAttribute. simpl.
  destruct (prims w !! p) as [pr|]; [|done]. simpl. by intros ->.
Qed.

Lemma attr_GetTypeName_ok (w : world) (p name : string) :
  is_Some (prims w !! p) →
  attr_GetTypeName (p, name) w = Ok (type_of w p name) w.
Proof.
  intros [pr Hpr]. unfold attr_GetTypeName, type_of, find_attr. simpl.
  by rewrite Hpr.
Qed.

(** Whether it returns or raises, [Set] leaves an attribute its type. *)
Lemma attr_Set_keeps_type (w : world) (p name : string) (v : pyval)
  (a : attribute) :
  find_attr w (p, name) = Some a →
  type_of (world_of (attr_Set (p, name) v w)) p name = Some (attr_type a).
Proof.
  intros Hfind. unfold attr_Set. rewrite Hfind.
  destruct (sdf_coerce (attr_type a) v) as [v'|].
  - change (type_of (after_Set w (p, name) (attr_type a) v') p name
            = Some (attr_type a)).
    unfold type_of. rewrite find_attr_after_Set.
    + by rewrite decide_True.
    + unfold find_attr in Hfind. simpl in *.
      destruct (prims w !! p); [eauto|done].
  - cbn [world_of]. unfold type_of. by rewrite Hfind.
Qed.

Lemma set_attr_keeps_type (lit : pyval → option (list (list Q)))
  (w : world) (p name : string) (v : pyval) (a : attribute) :
  find_attr w (p, name) = Some a →
  type_of (world_of (set_attr lit (p, name) v w)) p name
  = Some (attr_type a).
Proof.
  intros Hfind.
  assert (Hpr : is_Some (prims w !! p)).
  { unfold find_attr in Hfind. simpl in *. destruct (prims w !! p); [eauto|done]. }
  unfold set_attr. erewrite bind_Ok by (by apply attr_GetTypeName_ok).
  assert (Hty0 : type_of w p name = Some (attr_type a))
    by (unfold type_of; by rewrite Hfind).
  rewrite Hty0.
  destruct (attr_type a) eqn:Hty;
    try (rewrite <- Hty; by apply attr_Set_keeps_type).
  destruct (lit v) as [m|].
  - rewrite <- Hty. by apply attr_Set_keeps_type.
  - unfold raise. cbn [world_of]. congruence.
Qed.

Lemma world_of_bind_Ok {A B} (c : M A) (k : A → M B) (w w' : world) (a : A) :
  c w = Ok a w' → world_of (bind c k w) = world_of (k a w').
Proof. intros H. by rewrite (bind_Ok _ _ _ _ _ H). Qed.

Lemma world_of_bind_ret {A B} (c : M A) (b : B) (w : world) :
  world_of (bind c (λ _, ret b) w) = world_of (c w).
Proof. unfold bind, ret. by destruct (c w). Qed.

Lemma find_attr_None (w : world) (p name : string) (pr : prim) :
  prims w !! p = Some pr → prim_attrs pr !! name = None →
  find_attr w (p, name) = None.
Proof. unfold find_attr. simpl. intros -> Hn. simpl. exact Hn. Qed.

Lemma AddTransformOp_fresh (w : world) (p : string) (pr : prim) :
  prims w !! p = Some pr →
  prim_attrs pr !! "xformOp:transform" = None →
  prim_attrs pr !! "xformOpOrder" = None →
  ∃ w', AddTransformOp p w = Ok tt w' ∧
        is_Some (prims w' !! p) ∧
        find_attr w' (p, "xformOp:transform")
        = Some {| attr_type := TMatrix4d; attr_value := None |}.
Proof.
  intros Hpr Hop Horder.
  set (w1 := after_Create w (p, "xformOp:transform") TMatrix4d).
  set (w2 := after_Create w1 (p, "xformOpOrder") TTokenArray).
  set (w3 := after_Set w2 (p, "xformOpOrder") TTokenArray
               (PList [PStr "xformOp:transform"])).
  assert (H0 : is_Some (prims w !! p)) by eauto.
  assert (H1 : is_Some (prims w1 !! p)) by (by apply prims_put).
  assert (H2 : is_Some (prims w2 !! p)) by (by apply prims_put).
  assert (H3 : is_Some (prims w3 !! p)) by (by apply prims_put).
  assert (F1 : ∀ name, find_attr w1 (p, name)
                 = if decide ((p, "xformOp:transform") = (p, name))
                   then Some {| attr_type := TMatrix4d; attr_value := None |}
                   else find_attr w (p, name)).
  { intros name. by apply find_attr_put. }
  assert (F2 : ∀ name, find_attr w2 (p, name)
                 = if decide ((p, "xformOpOrder") = (p, name))
                   then Some {| attr_type := TTokenArray; attr_value := None |}
                   else find_attr w1 (p, name)).
  { intros name. by apply find_attr_put. }
  exists w3. split; [|split; [done|]].
  - unfold AddTransformOp, xform_order. rewrite Hpr, Horder.
    rewrite bool_decide_eq_false_2 by (by intros ?%elem_of_nil).
    erewrite bind_Ok
      by (apply CreateAttribute_new; [done|by eapply find_attr_None]).
    erewrite bind_Ok
      by (apply CreateAttribute_new;
          [done|rewrite F1, decide_False by (by intros [= ?]);
                by eapply find_attr_None]).
    fold w1 w2.
    erewrite (attr_Set_ok w2 (p, "xformOpOrder")
                {| attr_type := TTokenArray; attr_value := None |}); [done| |done].
    rewrite F2. by rewrite decide_True.
  - unfold w3. rewrite find_attr_after_Set by done.
    rewrite decide_False by (by intros [= ?]).
    rewrite F2, decide_False by (by intros [= ?]).
    rewrite F1. by rewrite decide_True.
Qed.

(** C8 (as amended).  For a newly created attribute, [create_attr] chooses
    the type by the Python type of the value and by the attribute's name,
    not by the shape of a text: under every name other than
    [xformOp:transform] a string value gives a string-typed attribute, a
    boolean a boolean-typed one and every other value a double-typed one;
    under the name [xformOp:transform] the attribute is added as a transform
    op and is matrix-typed whatever the value, and when the value denotes a
    matrix in literal form the attribute holds the matrix parsed from it. *)
Theorem create_attr_type (lit : pyval → option (list (list Q)))
  (node name : string) (value : pyval) (w : world) (pr : prim) :
  prims w !! node = Some pr →
  prim_attrs pr !! name = None →
  (name ≠ "xformOp:transform" →
   type_of (world_of (create_attr lit node name value w)) node name
   = Some (type_for_value value)) ∧
  (name = "xformOp:transform" →
   prim_attrs pr !! "xformOpOrder" = None →
   type_of (world_of (create_attr lit node name value w)) node name
   = Some TMatrix4d ∧
   ∀ m, lit value = Some m →
        ∃ w', create_attr lit node name value w = Ok (node, name) w' ∧
              get_value w' node name = PMatrix4d m).
Proof.
  intros Hpr Hnone.
  assert (Hcreate : (match value with
                     | PStr _ => CreateAttribute node name TString
                     | PBool _ => CreateAttribute node name TBool
                     | _ => CreateAttribute node name TDouble
                     end) = CreateAttribute node name (type_for_value value))
    by (by destruct value).
  split.
  - intros Hname. unfold create_attr. rewrite Hcreate.
    rewrite (proj2 (String.eqb_neq _ _) Hname).
    erewrite bind_Ok by reflexivity.
    erewrite world_of_bind_Ok
      by (apply CreateAttribute_new; [eauto|by eapply find_attr_None]).
    rewrite world_of_bind_ret.
    rewrite (set_attr_keeps_type _ _ _ _ _
               {| attr_type := type_for_value value; attr_value := None |});
      [done|].
    erewrite find_attr_put; [|done|simpl; eauto]. by rewrite decide_True.
  - intros -> Horder.
    destruct (AddTransformOp_fresh w node pr Hpr Hnone Horder)
      as (w3 & Hadd & Hpr3 & Hfind3).
    unfold create_attr. rewrite Hcreate, String.eqb_refl.
    split.
    + erewrite world_of_bind_Ok by exact Hadd.
      erewrite world_of_bind_Ok by (by eapply CreateAttribute_existing).
      rewrite world_of_bind_ret.
      by rewrite (set_attr_keeps_type _ _ _ _ _ _ Hfind3).
    + intros m Hm.
      erewrite bind_Ok by exact Hadd.
      erewrite bind_Ok by (by eapply CreateAttribute_existing).
      assert (Hset : set_attr lit (node, "xformOp:transform") value w3
                     = Ok tt (after_Set w3 (node, "xformOp:transform")
                                TMatrix4d (PMatrix4d m))).
      { unfold set_attr.
        erewrite bind_Ok by (by apply attr_GetTypeName_ok).
        unfold type_of. rewrite Hfind3. cbn [fmap option_fmap option_map attr_type].
        rewrite Hm.
        exact (attr_Set_ok w3 _ _ (PMatrix4d m) (PMatrix4d m) Hfind3 eq_refl). }
      erewrite bind_Ok by exact Hset.
      eexists. split; [done|].
      rewrite get_value_after_Set by done. by rewrite decide_True.
Qed.

Lemma create_attr_type_witness :
  type_of (world_of (create_attr int_matrix_literal "/Root/n"
                       "xformOp:transform" (PStr identity_text) bare_world))
    "/Root/n" "xformOp:transform"
  = Some TMatrix4d.
Proof.
  refine (proj1 (proj2 (create_attr_type int_matrix_literal "/Root/n"
                          "xformOp:transform" (PStr identity_text) bare_world
                          {| prim_type_name := ""; prim_attrs := ∅ |} _ _)
                   _ _)); reflexivity.
Defined.

(** C8 (as stated) fails.  The text of a 4×4 matrix, which the reader of
    literals does recognise as a matrix, gives a string-typed attribute
    under the name [value]: the shape of the text plays no part in the
    choice. *)
Lemma matrix_text_gets_string_type :
  is_Some (int_matrix_literal (PStr identity_text)) ∧
  type_of (world_of (create_attr int_matrix_literal "/Root/n" "value"
                       (PStr identity_text) bare_world))
    "/Root/n" "value"
  = Some TString.
Proof. split; [by eexists | by vm_compute]. Qed.

(** ** The bundle a created symbol node carries

    [create_symbol_prim_value] writes the marker last: a node it has built
    to the end, marker included, carries the whole bundle. *)

Lemma bind_Ok_inv {A B} (c : M A) (k : A → M B) (w w' : world) (b : B) :
  bind c k w = Ok b w' → ∃ a w1, c w = Ok a w1 ∧ k a w1 = Ok b w'.
Proof. unfold bind. destruct (c w) as [a w1|w1]; [eauto|done]. Qed.

Lemma extends_refl (node : string) (w : world) :
  is_Some (prims w !! node) → extends node w w.
Proof. intros H. repeat split; eauto. Qed.

Lemma extends_trans (node : string) (w1 w2 w3 : world) :
  extends node w1 w2 → extends node w2 w3 → extends node w1 w3.
Proof.
  intros (H1 & _ & H12) (_ & H3 & H23). repeat split; [done..|].
  intros name a Ha. destruct (H12 name a Ha) as (a' & Ha' & Hty).
  destruct (H23 name a' Ha') as (a'' & Ha'' & Hty'). exists a''.
  split; [done|congruence].
Qed.

Lemma extends_put (node : string) (w w' : world) (name : string)
  (a : attribute) :
  prims w' = put_attr (prims w) (node, name) a →
  is_Some (prims w !! node) →
  (∀ a0, find_attr w (node, name) = Some a0 → attr_type a = attr_type a0) →
  extends node w w'.
Proof.
  intros Hw' Hpr Hty. repeat split; [done|by rewrite Hw'; apply prims_put|].
  intros n a0 Ha0. rewrite (find_attr_put w w' (node, name) a node n Hw' Hpr).
  destruct (decide ((node, name) = (node, n))) as [[= ->]|Hne].
  - exists a. split; [done|]. by apply Hty.
  - by exists a0.
Qed.

Lemma find_attr_prim (w : world) (p name : string) (a : attribute) :
  find_attr w (p, name) = Some a → is_Some (prims w !! p).
Proof.
  unfold find_attr. simpl. destruct (prims w !! p); [eauto|done].
Qed.

Lemma CreateAttribute_Ok_inv (p name : string) (ty : sdf_type)
  (w w' : world) (h : attr_handle) :
  CreateAttribute p name ty w = Ok h w' →
  h = (p, name) ∧ extends p w w' ∧
  ∃ a, find_attr w' (p, name) = Some a ∧
       (find_attr w (p, name) = None → attr_type a = ty).
Proof.
  intros Hrun.
  destruct (prims w !! p) as [pr|] eqn:Hpr;
    [|by unfold CreateAttribute in Hrun; rewrite Hpr in Hrun].
  destruct (find_attr w (p, name)) as [a|] eqn:Hfind.
  - rewrite (CreateAttribute_existing _ _ _ _ _ Hfind) in Hrun.
    injection Hrun as <- <-. split; [done|]. split; [apply extends_refl; eauto|].
    exists a. split; [done|]. by intros H.
  - rewrite CreateAttribute_new in Hrun by eauto.
    injection Hrun as <- <-. split; [done|]. split.
    + eapply extends_put; [done|eauto|]. intros a0. by rewrite Hfind.
    + exists {| attr_type := ty; attr_value := None |}. split; [|done].
      erewrite find_attr_put; [|done|simpl; eauto]. by rewrite decide_True.
Qed.

Lemma attr_Set_Ok_inv (p name : string) (v : pyval) (w w' : world) :
  attr_Set (p, name) v w = Ok tt w' →
  extends p w w' ∧
  ∃ a, find_attr w (p, name) = Some a ∧ type_of w' p name = Some (attr_type a).
Proof.
  intros Hrun. pose proof Hrun as Hrun'. unfold attr_Set in Hrun.
  destruct (find_attr w (p, name)) as [a|] eqn:Hfind; [|done].
  destruct (sdf_coerce (attr_type a) v) as [v'|] eqn:Hco; [|done].
  rewrite (attr_Set_ok _ _ _ _ _ Hfind Hco) in Hrun'. injection Hrun' as <-.
  pose proof (find_attr_prim _ _ _ _ Hfind) as Hpr.
  split.
  - eapply extends_put; [done|done|]. intros a0. rewrite Hfind. by intros [= ->].
  - exists a. split; [done|]. unfold type_of.
    rewrite find_attr_after_Set by done. by rewrite decide_True.
Qed.

Lemma set_attr_Ok_inv (lit : pyval → option (list (list Q)))
  (p name : string) (v : pyval) (w w' : world) :
  set_attr lit (p, name) v w = Ok tt w' →
  extends p w w' ∧
  ∃ a, find_attr w (p, name) = Some a ∧ type_of w' p name = Some (attr_type a).
Proof.
  unfold set_attr. intros Hrun.
  apply bind_Ok_inv in Hrun as (ty & w1 & Hty & Hrun).
  unfold attr_GetTypeName in Hty. simpl in Hty.
  destruct (prims w !! p) as [pr|] eqn:Hpr; [|done].
  injection Hty as <- <-.
  destruct (attr_type <$> prim_attrs pr !! name) as [[]|];
    try exact (attr_Set_Ok_inv _ _ _ _ _ Hrun).
  destruct (lit v); [exact (attr_Set_Ok_inv _ _ _ _ _ Hrun)|done].
Qed.

Lemma AddTransformOp_Ok_inv (p : string) (w w' : world) :
  AddTransformOp p w = Ok tt w' → extends p w w'.
Proof.
  unfold AddTransformOp. intros Hrun.
  destruct (prims w !! p) as [pr|] eqn:Hpr; [|done].
  destruct (bool_decide _); [done|].
  apply bind_Ok_inv in Hrun as (h1 & w1 & H1 & Hrun).
  apply bind_Ok_inv in Hrun as (h2 & w2 & H2 & Hrun).
  apply CreateAttribute_Ok_inv in H1 as (_ & E1 & _).
  apply CreateAttribute_Ok_inv in H2 as (-> & E2 & _).
  apply attr_Set_Ok_inv in Hrun as [E3 _].
  eauto using extends_trans.
Qed.

Lemma create_attr_Ok_inv (lit : pyval → option (list (list Q)))
  (p name : string) (v : pyval) (w w' : world) (h : attr_handle) :
  create_attr lit p name v w = Ok h w' →
  extends p w w' ∧
  ∃ a, find_attr w' (p, name) = Some a ∧
       (find_attr w (p, name) = None → name ≠ "xformOp:transform" →
        attr_type a = type_for_value v).
Proof.
  unfold create_attr. intros Hrun.
  assert (Hcreate : (match v with
                     | PStr _ => CreateAttribute p name TString
                     | PBool _ => CreateAttribute p name TBool
                     | _ => CreateAttribute p name TDouble
                     end) = CreateAttribute p name (type_for_value v))
    by (by destruct v).
  rewrite Hcreate in Hrun. clear Hcreate.
  apply bind_Ok_inv in Hrun as ([] & w1 & Hxf & Hrun).
  apply bind_Ok_inv in Hrun as (h1 & w2 & Hcr & Hrun).
  apply bind_Ok_inv in Hrun as ([] & w3 & Hset & Hrun).
  injection Hrun as <- <-.
  apply CreateAttribute_Ok_inv in Hcr as (-> & E2 & a2 & Ha2 & Hty2).
  apply set_attr_Ok_inv in Hset as (E3 & a3 & Ha3 & Hty3).
  assert (E1 : extends p w w1 ∧
               (name ≠ "xformOp:transform" → w1 = w)).
  { destruct (String.eqb_spec name "xformOp:transform") as [->|Hne].
    - split; [by apply AddTransformOp_Ok_inv|done].
    - injection Hxf as <-. split; [|done].
      apply extends_refl. by destruct E2 as [? _]. }
  destruct E1 as [E1 Hsame].
  split; [eauto using extends_trans|].
  unfold type_of in Hty3.
  destruct (find_attr w3 (p, name)) as [a|] eqn:Hfind; [|done].
  exists a. split; [done|]. intros Hnone Hne.
  rewrite (Hsame Hne) in Hty2. injection Hty3 as ->.
  rewrite Ha2 in Ha3. injection Ha3 as <-. by apply Hty2.
Qed.

Lemma CreateAttribute_frame (p name : string) (ty : sdf_type)
  (w w' : world) (h : attr_handle) (n : string) :
  CreateAttribute p name ty w = Ok h w' → n ≠ name →
  find_attr w' (p, n) = find_attr w (p, n).
Proof.
  intros Hrun Hne.
  destruct (prims w !! p) as [pr|] eqn:Hpr;
    [|by unfold CreateAttribute in Hrun; rewrite Hpr in Hrun].
  destruct (find_attr w (p, name)) as [a|] eqn:Hfind.
  - rewrite (CreateAttribute_existing _ _ _ _ _ Hfind) in Hrun.
    by injection Hrun as <- <-.
  - rewrite CreateAttribute_new in Hrun by eauto.
    injection Hrun as <- <-.
    erewrite find_attr_put; [|done|simpl; eauto].
    rewrite decide_False; [done|]. intros [= ?]. congruence.
Qed.

Lemma attr_Set_frame (p name : string) (v : pyval) (w w' : world)
  (n : string) :
  attr_Set (p, name) v w = Ok tt w' → n ≠ name →
  find_attr w' (p, n) = find_attr w (p, n).
Proof.
  intros Hrun Hne. pose proof Hrun as Hrun'. unfold attr_Set in Hrun.
  destruct (find_attr w (p, name)) as [a|] eqn:Hfind; [|done].
  destruct (sdf_coerce (attr_type a) v) as [v'|] eqn:Hco; [|done].
  rewrite (attr_Set_ok _ _ _ _ _ Hfind Hco) in Hrun'. injection Hrun' as <-.
  rewrite find_attr_after_Set by (by eapply find_attr_prim).
  rewrite decide_False; [done|]. intros [= ?]. congruence.
Qed.

Lemma set_attr_frame (lit : pyval → option (list (list Q)))
  (p name : string) (v : pyval) (w w' : world) (n : string) :
  set_attr lit (p, name) v w = Ok tt w' → n ≠ name →
  find_attr w' (p, n) = find_attr w (p, n).
Proof.
  unfold set_attr. intros Hrun Hne.
  apply bind_Ok_inv in Hrun as (ty & w1 & Hty & Hrun).
  unfold attr_GetTypeName in Hty. simpl in Hty.
  destruct (prims w !! p) as [pr|] eqn:Hpr; [|done].
  injection Hty as <- <-.
  destruct (attr_type <$> prim_attrs pr !! name) as [[]|];
    try exact (attr_Set_frame _ _ _ _ _ _ Hrun Hne).
  destruct (lit v); [exact (attr_Set_frame _ _ _ _ _ _ Hrun Hne)|done].
Qed.

Lemma AddTransformOp_frame (p : string) (w w' : world) (n : string) :
  AddTransformOp p w = Ok tt w' →
  n ≠ "xformOp:transform" → n ≠ "xformOpOrder" →
  find_attr w' (p, n) = find_attr w (p, n).
Proof.
  unfold AddTransformOp. intros Hrun Hn1 Hn2.
  destruct (prims w !! p) as [pr|] eqn:Hpr; [|done].
  destruct (bool_decide _); [done|].
  apply bind_Ok_inv in Hrun as (h1 & w1 & H1 & Hrun).
  apply bind_Ok_inv in Hrun as (h2 & w2 & H2 & Hrun).
  pose proof (CreateAttribute_Ok_inv _ _ _ _ _ _ H2) as (-> & _).
  rewrite (attr_Set_frame _ _ _ _ _ n Hrun Hn2).
  rewrite (CreateAttribute_frame _ _ _ _ _ _ n H2 Hn2).
  by rewrite (CreateAttribute_frame _ _ _ _ _ _ n H1 Hn1).
Qed.

Lemma create_attr_frame (lit : pyval → option (list (list Q)))
  (p name : string) (v : pyval) (w w' : world) (h : attr_handle) (n : string) :
  create_attr lit p name v w = Ok h w' →
  n ≠ name → n ≠ "xformOp:transform" → n ≠ "xformOpOrder" →
  find_attr w' (p, n) = find_attr w (p, n).
Proof.
  unfold create_attr. intros Hrun Hne Hn1 Hn2.
  apply bind_Ok_inv in Hrun as ([] & w1 & Hxf & Hrun).
  apply bind_Ok_inv in Hrun as (h1 & w2 & Hcr & Hrun).
  apply bind_Ok_inv in Hrun as ([] & w3 & Hset & Hrun).
  injection Hrun as <- <-.
  assert (Hcr' : ∃ ty, CreateAttribute p name ty w1 = Ok h1 w2)
    by (destruct v; eauto).
  destruct Hcr' as [ty Hcr'].
  pose proof (CreateAttribute_Ok_inv _ _ _ _ _ _ Hcr') as (-> & _).
  rewrite (set_attr_frame _ _ _ _ _ _ n Hset Hne).
  rewrite (CreateAttribute_frame _ _ _ _ _ _ n Hcr' Hne).
  destruct (name =? "xformOp:transform").
  - by apply AddTransformOp_frame.
  - by injection Hxf as <-.
Qed.

Lemma define_one_lookup (ps : gmap string prim) (p q : string) :
  define_one "" ps p !! q = ps !! q ∨
  (ps !! q = None ∧
   define_one "" ps p !! q = Some {| prim_type_name := ""; prim_attrs := ∅ |}).
Proof.
  unfold define_one. destruct (ps !! p) as [pr|] eqn:Hp; [by left|].
  destruct (decide (p = q)) as [<-|Hne].
  - right. by rewrite lookup_insert_eq.
  - left. by rewrite lookup_insert_ne.
Qed.

Lemma DefinePrim_attrs (path : string) (w : world) :
  ∃ w0, DefinePrim path "" w = Ok path w0 ∧
        is_Some (prims w0 !! path) ∧
        ∀ n, find_attr w0 (path, n) = find_attr w (path, n).
Proof.
  eexists. split; [reflexivity|]. cbn [prims].
  set (ps := foldl (define_one "") (prims w) _).
  assert (Hps : ps !! path = prims w !! path ∨
                (prims w !! path = None ∧
                 ps !! path = Some {| prim_type_name := "";
                                      prim_attrs := ∅ |})).
  { unfold ps. generalize (removelast (path_and_ancestors path)).
    generalize (prims w). intros ps0 l. revert ps0.
    induction l as [|q l IH]; intros ps0; [by left|].
    cbn [foldl]. destruct (IH (define_one "" ps0 q)) as [->|[Hn ->]].
    - apply define_one_lookup.
    - right. split; [|done].
      destruct (define_one_lookup ps0 q path) as [<-|[? _]]; done. }
  assert (Hfin : ∃ pr, define_one "" ps path !! path = Some pr ∧
                   (prims w !! path = Some pr ∨
                    (prims w !! path = None ∧ prim_attrs pr = ∅))).
  { unfold define_one. destruct (ps !! path) as [pr|] eqn:Hp.
    - exists pr. split; [done|].
      destruct Hps as [<-|[Hn [= ->]]]; [by left|by right].
    - rewrite lookup_insert_eq. eexists. split; [done|].
      right. split; [|done]. by destruct Hps as [<-|[? ?]]. }
  destruct Hfin as (pr & Hpr & Hcase). split; [eauto|].
  intros n. unfold find_attr. cbn [prims fst snd]. rewrite Hpr.
  destruct Hcase as [->|[-> Hempty]]; [done|].
  cbn. by rewrite Hempty.
Qed.

(** A node that [create_symbol_prim_value] has built to the end, for a key
    that is not empty, carries the whole symbol bundle; the marker is the
    last attribute it writes. *)
Lemma created_symbol_node_has_bundle (lit : pyval → option (list (list Q)))
  (full_key attr key : string) (value : pyval) (w w' : world) :
  create_symbol_prim_value lit full_key attr key value w = Ok tt w' →
  key ≠ "" →
  attr ≠ ATTR_WRITE_ONCE →
  find_attr w (full_key, ATTR_WRITE_ONCE) = None →
  has_symbol_bundle w' full_key = true.
Proof.
  unfold create_symbol_prim_value. intros Hrun Hkey Hattr Honce.
  destruct (DefinePrim_attrs full_key w) as (w0 & Hdef & Hpr0 & Hsame).
  rewrite (bind_Ok _ _ _ _ _ Hdef) in Hrun.
  apply bind_Ok_inv in Hrun as (h1 & w1 & H1 & Hrun).
  apply bind_Ok_inv in Hrun as (h2 & w2 & H2 & Hrun).
  apply bind_Ok_inv in Hrun as (h3 & w3 & H3 & Hrun).
  apply bind_Ok_inv in Hrun as (h4 & w4 & H4 & Hrun).
  rewrite (proj2 (String.eqb_neq _ _) Hkey) in Hrun. cbn [negb] in Hrun.
  apply bind_Ok_inv in Hrun as (h5 & w5 & H5 & Hrun).
  injection Hrun as <-.
  assert (Honce2 : find_attr w2 (full_key, ATTR_WRITE_ONCE) = None).
  { rewrite (create_attr_frame _ _ _ _ _ _ _ _ H2) by done.
    rewrite (create_attr_frame _ _ _ _ _ _ _ _ H1) by done.
    by rewrite Hsame. }
  destruct (create_attr_Ok_inv _ _ _ _ _ _ _ H2) as (_ & a_val & Hval & _).
  destruct (create_attr_Ok_inv _ _ _ _ _ _ _ H3) as (E3 & a_once & Ho & Hty).
  destruct (create_attr_Ok_inv _ _ _ _ _ _ _ H4) as (E4 & a_pause & Hp & _).
  destruct (create_attr_Ok_inv _ _ _ _ _ _ _ H5) as (E5 & a_sym & Hs & _).
  specialize (Hty Honce2 ltac:(done)). cbn [type_for_value] in Hty.
  pose proof (extends_trans _ _ _ _ E4 E5) as E45.
  pose proof (extends_trans _ _ _ _ E3 E45) as E35.
  destruct (proj2 (proj2 E35) _ _ Hval) as (a_val' & Hval' & _).
  destruct (proj2 (proj2 E45) _ _ Ho) as (a_once' & Ho' & Hty').
  destruct (proj2 (proj2 E5) _ _ Hp) as (a_pause' & Hp' & _).
  unfold has_symbol_bundle. rewrite Hs, Hval', Hp', Ho'.
  rewrite !bool_decide_eq_true_2 by eauto.
  destruct a_once' as [ty' v']. cbn [attr_type] in Hty'.
  rewrite Hty', Hty. done.
Qed.

(* ===================================================================== *)
(** * Further properties of the sources *)
(* ===================================================================== *)

(** ** Splitting and joining *)

Lemma split_on_nonempty (c : ascii) (s : string) : split_on c s ≠ [].
Proof.
  destruct s as [|x s]; [done|]. cbn [split_on].
  destruct (Ascii.eqb x c); [done|]. by destruct (split_on c s).
Qed.

Lemma concat_cons_cons (sep a b : string) (l : list string) :
  String.concat sep (a :: b :: l) = a +:+ sep +:+ String.concat sep (b :: l).
Proof. reflexivity. Qed.

(** [sep.join(s.split(sep))] is [s]. *)
Lemma concat_split_on (c : ascii) (s : string) :
  String.concat (String c "") (split_on c s) = s.
Proof.
  induction s as [|x s IH]; [done|]. cbn [split_on].
  pose proof (split_on_nonempty c s) as Hne.
  destruct (split_on c s) as [|y ys] eqn:E; [done|].
  destruct (Ascii.eqb_spec x c) as [->|Hx].
  - rewrite concat_cons_cons, IH. by rewrite append_nil_l.
  - destruct ys as [|z zs].
    + cbn in IH |- *. by rewrite IH.
    + rewrite concat_cons_cons in IH |- *. rewrite append_cons. by rewrite IH.
Qed.

Lemma split_on_lacks (c : ascii) (s : string) :
  lacks c s = true → split_on c s = [s].
Proof.
  induction s as [|x s IH]; [done|]. cbn [lacks split_on].
  intros [Hx Hs]%andb_prop. rewrite (IH Hs).
  by destruct (Ascii.eqb x c).
Qed.

(** Splitting distributes over a separator. *)
Lemma split_on_app_sep (c : ascii) (a b : string) :
  split_on c (a +:+ String c b) = split_on c a ++ split_on c b.
Proof.
  induction a as [|x a IH].
  - rewrite append_nil_l. cbn [split_on]. by rewrite Ascii.eqb_refl.
  - rewrite append_cons. cbn [split_on]. rewrite IH.
    destruct (Ascii.eqb x c); [done|].
    pose proof (split_on_nonempty c a) as Hne.
    by destruct (split_on c a).
Qed.

(** [sep.join(parts).split(sep)] is [parts] when no part holds [sep]. *)
Lemma split_on_concat (c : ascii) (parts : list string) :
  parts ≠ [] → Forall (λ p, lacks c p = true) parts →
  split_on c (String.concat (String c "") parts) = parts.
Proof.
  induction parts as [|a parts IH]; [done|]. intros _ Hall.
  apply Forall_cons in Hall as [Ha Hall].
  destruct parts as [|b parts]; [by apply split_on_lacks|].
  rewrite concat_cons_cons.
  change (a +:+ String c "" +:+ ?t) with (a +:+ String c t).
  rewrite split_on_app_sep, (split_on_lacks c a Ha), IH by done. done.
Qed.

Lemma dot_free_lacks (s : string) : dot_free s = lacks "." s.
Proof. induction s as [|x s IH]; [done|]. cbn. by rewrite IH. Qed.

(** ** Keys compiled to operations *)

Lemma lacks_app (c : ascii) (a b : string) :
  lacks c (a +:+ b) = lacks c a && lacks c b.
Proof.
  induction a as [|x a IH]; [done|].
  rewrite append_cons. cbn [lacks]. rewrite IH. by rewrite andb_assoc.
Qed.

Lemma last_app_nonempty {A} (l1 l2 : list A) (d : A) :
  l2 ≠ [] → List.last (l1 ++ l2) d = List.last l2 d.
Proof.
  intros Hne. induction l1 as [|x l1 IH]; [done|].
  cbn [app]. change (List.last (x :: l1 ++ l2) d)
    with (match l1 ++ l2 with [] => x | _ => List.last (l1 ++ l2) d end).
  destruct (l1 ++ l2) eqn:E; [|done].
  by apply app_eq_nil in E as [_ ?].
Qed.

(** X1.  A key whose last path segment is not a [usd:] command (it holds no
    colon, or the text before its first colon is not [usd]) compiles to a
    plain set of the attribute [value] at the full path. *)
Theorem get_op_from_key_plain (full_path key : string) :
  lacks ":" (List.last (split_on "/" full_path) "") = true
  ∨ hd "" (split_on ":" (List.last (split_on "/" full_path) "")) ≠ "usd" →
  get_op_from_key full_path key
  = {| operation := "set"; op_path := full_path; op_key := key;
       op_value := ATTR_CURRENT_VALUE |}.
Proof.
  intros Hplain. unfold get_op_from_key.
  destruct Hplain as [Hlacks|Hhd].
  - by rewrite (split_on_lacks _ _ Hlacks).
  - rewrite (proj2 (String.eqb_neq _ _) Hhd). by rewrite andb_false_r.
Qed.

Lemma get_op_from_key_plain_witness :
  get_op_from_key "/Root/axis/user:name" "axis.user:name"
  = {| operation := "set"; op_path := "/Root/axis/user:name";
       op_key := "axis.user:name"; op_value := "value" |}.
Proof. apply get_op_from_key_plain. right. discriminate. Defined.

(** X2.  A key that ends in the command segment [usd:<op>:<arg>] compiles to
    the operation [<op>] on the parent path with [<arg>] as its value, colons
    inside [<arg>] included; the parent path comes back exactly as it was
    written. *)
Theorem get_op_from_key_command (parent op arg key : string) :
  lacks "/" op = true → lacks ":" op = true → lacks "/" arg = true →
  get_op_from_key (parent +:+ "/usd:" +:+ op +:+ ":" +:+ arg) key
  = {| operation := op; op_path := parent; op_key := key; op_value := arg |}.
Proof.
  intros Hop_slash Hop_colon Harg.
  set (last := "usd:" +:+ op +:+ ":" +:+ arg).
  assert (Hlast : lacks "/" last = true).
  { unfold last. rewrite !lacks_app, Hop_slash, Harg. done. }
  assert (Hsplit : split_on "/" (parent +:+ "/usd:" +:+ op +:+ ":" +:+ arg)
                   = split_on "/" parent ++ [last]).
  { change (parent +:+ "/usd:" +:+ op +:+ ":" +:+ arg)
      with (parent +:+ String "/" last).
    by rewrite split_on_app_sep, (split_on_lacks _ _ Hlast). }
  assert (Hcmd : split_on ":" last = "usd" :: op :: split_on ":" arg).
  { unfold last.
    change ("usd:" +:+ op +:+ ":" +:+ arg)
      with ("usd" +:+ String ":" (op +:+ String ":" arg)).
    rewrite !split_on_app_sep, (split_on_lacks _ _ Hop_colon). done. }
  unfold get_op_from_key. rewrite Hsplit.
  rewrite last_last, removelast_last, Hcmd.
  cbn [length hd nth drop Nat.ltb Nat.leb String.eqb Ascii.eqb Bool.eqb andb].
  change (drop 0 (split_on ":" arg)) with (split_on ":" arg).
  by rewrite !concat_split_on.
Qed.

Lemma get_op_from_key_command_witness :
  get_op_from_key ("/Root/axis" +:+ "/usd:" +:+ "attr" +:+ ":"
                     +:+ "xformOp:transform") "axis.usd:attr:xformOp:transform"
  = {| operation := "attr"; op_path := "/Root/axis";
       op_key := "axis.usd:attr:xformOp:transform";
       op_value := "xformOp:transform" |}.
Proof. apply get_op_from_key_command; reflexivity. Defined.

(** X3.  The flat key of a leaf path whose field names hold no dot and no
    slash, and whose last name holds no colon, is written to the prim that
    the path names under the root: the merge tick builds the document path
    root/name/.../name and compiles it to a plain set of [value] there. *)
Theorem leaf_path_compiles_to_set (root_path : string) (path : list string) :
  path ≠ [] →
  Forall (λ k, dot_free k = true ∧ lacks "/" k = true) path →
  lacks ":" (List.last path "") = true →
  full_key_of root_path (flat_key path)
  = root_path +:+ "/" +:+ String.concat "/" path ∧
  get_op_from_key (full_key_of root_path (flat_key path)) (flat_key path)
  = {| operation := "set";
       op_path := root_path +:+ "/" +:+ String.concat "/" path;
       op_key := flat_key path;
       op_value := ATTR_CURRENT_VALUE |}.
Proof.
  intros Hne Hall Hcolon.
  assert (Hkey : full_key_of root_path (flat_key path)
                 = root_path +:+ "/" +:+ String.concat "/" path).
  { unfold full_key_of, flat_key. rewrite split_on_concat; [done|done|].
    eapply Forall_impl; [exact Hall|]. intros k [Hk _].
    by rewrite <- dot_free_lacks. }
  split; [done|]. rewrite Hkey. apply get_op_from_key_plain. left.
  change (root_path +:+ "/" +:+ String.concat "/" path)
    with (root_path +:+ String "/" (String.concat "/" path)).
  rewrite split_on_app_sep, split_on_concat; [|done|].
  - by rewrite last_app_nonempty.
  - eapply Forall_impl; [exact Hall|]. by intros k [_ Hk].
Qed.

Lemma leaf_path_compiles_to_set_witness :
  get_op_from_key (full_key_of "/Root" (flat_key ["axis"; "pos"]))
    (flat_key ["axis"; "pos"])
  = {| operation := "set"; op_path := "/Root" +:+ "/" +:+ "axis/pos";
       op_key := "axis.pos"; op_value := "value" |}.
Proof.
  refine (proj2 (leaf_path_compiles_to_set "/Root" ["axis"; "pos"] _ _ _)).
  - discriminate.
  - repeat constructor.
  - reflexivity.
Defined.

(** ** Messages of the runtime *)

(** X4.  A message always names its component under [meta]; it carries the
    data under [data] exactly when the data is truthy, so an empty
    dictionary, zero or an empty string is dropped; and a listener that reads
    [payload["data"]], as [_on_data_read] does, gets through exactly on the
    messages made from truthy data and raises [KeyError] on the others. *)
Theorem create_message_keeps_truthy_data (self : gmap string pyval)
  (name data status : pyval) :
  getattr self "_name" = Some name →
  ∃ msg, _create_message self data status = Some msg ∧
    msg !! "meta" = Some (PDict [("name", name)]) ∧
    msg !! "data" = (if truthy data then Some data else None) ∧
    msg !! "status" = (if truthy status then Some status else None) ∧
    ∀ usd, is_Some (_on_data_read usd {| payload := msg |})
           ↔ truthy data = true.
Proof.
  intros Hname. unfold _create_message. rewrite Hname.
  eexists. split; [done|].
  assert (Hdata : ∀ (m : gmap string pyval),
            m !! "data" = None → m !! "status" = None →
            ((if truthy status
              then <["status" := status]>
                     (if truthy data then <["data" := data]> m else m)
              else if truthy data then <["data" := data]> m else m)
               !! "data" = if truthy data then Some data else None) ∧
            ((if truthy status
              then <["status" := status]>
                     (if truthy data then <["data" := data]> m else m)
              else if truthy data then <["data" := data]> m else m)
               !! "status" = if truthy status then Some status else None)).
  { intros m Hd Hs. destruct (truthy status), (truthy data);
      rewrite ?lookup_insert_eq, ?lookup_insert_ne by done;
      rewrite ?lookup_insert_eq; done. }
  destruct (Hdata {["meta" := PDict [("name", name)]]}) as [Hd Hs];
    [done..|].
  split; [|split; [exact Hd|split; [exact Hs|]]].
  - destruct (truthy status), (truthy data);
      by rewrite ?lookup_insert_ne by done.
  - intros usd. unfold _on_data_read. cbn [payload]. rewrite Hd.
    destruct (truthy data); split; intros H; eauto; try done.
Qed.

Lemma create_message_keeps_truthy_data_witness :
  ∃ msg, _create_message (__init__ "c") (PDict []) PNone = Some msg ∧
         _on_data_read listener {| payload := msg |} = None.
Proof.
  destruct (create_message_keeps_truthy_data (__init__ "c") (PStr "c")
              (PDict []) PNone eq_refl) as (msg & Hmsg & _ & _ & _ & Hread).
  exists msg. split; [exact Hmsg|].
  destruct (_on_data_read listener {| payload := msg |}) as [r|] eqn:E;
    [|reflexivity].
  assert (Hsome : is_Some (Some r)) by (by eexists).
  rewrite <- E in Hsome. apply Hread in Hsome. discriminate Hsome.
Defined.

(** ** Hooks and sleeps of the worker loops *)

Lemma occurrences_app (ev : loop_event) (l1 l2 : list loop_event) :
  occurrences ev (l1 ++ l2) = occurrences ev l1 + occurrences ev l2.
Proof. unfold occurrences. by rewrite List.filter_app, length_app. Qed.

Lemma read_tick_sleep (period t lastTick : Q) :
  ∃ seconds, (read_tick period t lastTick).2 = EvSleep seconds
             ∧ sleep_accepts seconds = true.
Proof.
  unfold read_tick.
  destruct (Qlt_le_dec 0 (period / 1000 - (t - lastTick))) as [Hpos|Hneg].
  - eexists. split; [done|]. unfold sleep_accepts. cbn [py_num].
    destruct (Qlt_le_dec _ 0) as [Hlt|]; [|done].
    exfalso. apply (Qlt_irrefl 0). by eapply Qlt_trans.
  - by exists (PInt 0).
Qed.

(** What a run of the read loop holds, whatever it meets. *)
Lemma read_loop_shape (obs : list observation) :
  ∀ t0,
    occurrences EvReadStarting (read_loop t0 obs).1 = 0 ∧
    occurrences EvReadEnding (read_loop t0 obs).1
    = (if (read_loop t0 obs).2 is Exited then 1 else 0) ∧
    ((read_loop t0 obs).2 = Exited →
     List.last (read_loop t0 obs).1 EvRead = EvReadEnding) ∧
    sleeps_accepted (read_loop t0 obs).1.
Proof.
  induction obs as [|o obs IH]; intros t0.
  { repeat split; [done|by apply List.Forall_nil]. }
  cbn [read_loop].
  destruct (getattr (seen_self o) "_thread_is_alive") as [alive|];
    [|repeat split; [done|by apply List.Forall_nil]].
  destruct (truthy alive); cbn [negb];
    [|repeat split; by repeat constructor].
  destruct (getattr (seen_self o) "_refresh_period_ms" ≫= py_num) as [p|];
    [|repeat split; [done|by apply List.Forall_nil]].
  destruct (read_tick_sleep p (now o) t0) as (seconds & Hev & Hacc).
  destruct (read_tick p (now o) t0) as [t1 slept]. cbn [snd] in Hev. subst slept.
  destruct (IH t1) as (IH1 & IH2 & IH3 & IH4).
  assert (Hlast : ∀ pre, (read_loop t1 obs).2 = Exited →
            List.last (pre ++ (read_loop t1 obs).1) EvRead = EvReadEnding).
  { intros pre Hex. rewrite last_app_nonempty; [by apply IH3|].
    intros Hnil. rewrite Hnil in IH2. by rewrite Hex in IH2. }
  destruct (callback o) as [|e].
  - unfold and_then. cbn [fst snd]. rewrite !occurrences_app, IH1, IH2.
    repeat split; [by apply Hlast|].
    apply Forall_app. split; [by repeat constructor|done].
  - destruct (except_Exception e).
    + unfold and_then. cbn [fst snd]. rewrite !occurrences_app, IH1, IH2.
      repeat split; [by apply Hlast|].
      apply Forall_app. split; [by repeat constructor|done].
    + cbn [fst snd]. repeat split; [done|by repeat constructor].
Qed.

Lemma write_loop_shape (obs : list observation) :
  occurrences EvWriteStarting (write_loop obs).1 = 0 ∧
  occurrences EvWriteEnding (write_loop obs).1
  = (if (write_loop obs).2 is Exited then 1 else 0) ∧
  ((write_loop obs).2 = Exited →
   List.last (write_loop obs).1 EvWrite = EvWriteEnding).
Proof.
  induction obs as [|o obs (IH1 & IH2 & IH3)]; [done|].
  cbn [write_loop].
  destruct (getattr (seen_self o) "_thread_is_alive") as [alive|]; [|done].
  destruct (truthy alive); cbn [negb]; [|done].
  assert (Hlast : ∀ pre, (write_loop obs).2 = Exited →
            List.last (pre ++ (write_loop obs).1) EvWrite = EvWriteEnding).
  { intros pre Hex. rewrite last_app_nonempty; [by apply IH3|].
    intros Hnil. rewrite Hnil in IH2. by rewrite Hex in IH2. }
  assert (Hgo : ∀ pre, occurrences EvWriteStarting pre = 0 →
            occurrences EvWriteEnding pre = 0 →
            occurrences EvWriteStarting (and_then pre (write_loop obs)).1 = 0 ∧
            occurrences EvWriteEnding (and_then pre (write_loop obs)).1
            = (if (and_then pre (write_loop obs)).2 is Exited then 1 else 0) ∧
            ((and_then pre (write_loop obs)).2 = Exited →
             List.last (and_then pre (write_loop obs)).1 EvWrite
             = EvWriteEnding)).
  { intros pre H1 H2. unfold and_then. cbn [fst snd].
    rewrite !occurrences_app, H1, H2, IH1, IH2. repeat split. apply Hlast. }
  destruct (callback o) as [|e].
  - destruct (getattr (seen_self o) "_write_sleep") as [s|]; [|by apply Hgo].
    destruct (sleep_accepts s); by apply Hgo.
  - destruct (except_Exception e); [by apply Hgo|done].
Qed.

(** X5.  In either loop the starting hook runs once, first of all; the
    ending hook runs once, last of all, exactly when the thread leaves the
    loop because the alive flag is down, and not at all when an exception
    has ended the thread or while the loop is still going. *)
Theorem loop_hooks_run_once (t0 : Q) (obs : list observation) :
  (hd EvRead (__read_data t0 obs).1 = EvReadStarting ∧
   occurrences EvReadStarting (__read_data t0 obs).1 = 1 ∧
   occurrences EvReadEnding (__read_data t0 obs).1
   = (if (__read_data t0 obs).2 is Exited then 1 else 0) ∧
   ((__read_data t0 obs).2 = Exited →
    List.last (__read_data t0 obs).1 EvRead = EvReadEnding)) ∧
  (hd EvWrite (__write_data obs).1 = EvWriteStarting ∧
   occurrences EvWriteStarting (__write_data obs).1 = 1 ∧
   occurrences EvWriteEnding (__write_data obs).1
   = (if (__write_data obs).2 is Exited then 1 else 0) ∧
   ((__write_data obs).2 = Exited →
    List.last (__write_data obs).1 EvWrite = EvWriteEnding)).
Proof.
  destruct (read_loop_shape obs t0) as (R1 & R2 & R3 & _).
  destruct (write_loop_shape obs) as (W1 & W2 & W3).
  unfold __read_data, __write_data, and_then. cbn [fst snd].
  split.
  - rewrite !occurrences_app, R1, R2. repeat split.
    intros Hex. rewrite last_app_nonempty; [by apply R3|].
    intros Hnil. rewrite Hnil in R2. by rewrite Hex in R2.
  - rewrite !occurrences_app, W1, W2. repeat split.
    intros Hex. rewrite last_app_nonempty; [by apply W3|].
    intros Hnil. rewrite Hnil in W2. by rewrite Hex in W2.
Qed.

Lemma loop_hooks_run_once_witness :
  List.last (__read_data 0 stopped_run).1 EvRead = EvReadEnding ∧
  List.last (__write_data stopped_run).1 EvWrite = EvWriteEnding.
Proof.
  destruct (loop_hooks_run_once 0 stopped_run)
    as [(_ & _ & _ & Hread) (_ & _ & _ & Hwrite)].
  split; [apply Hread | apply Hwrite]; reflexivity.
Defined.

(** X6.  The read loop never hands [time.sleep] a negative time: every
    sleep of a run, the remainder of the period, the yield and the backoff
    alike, is one [time.sleep] accepts, however late the clock reading and
    whatever the period. *)
Theorem read_loop_sleeps_accepted (t0 : Q) (obs : list observation) :
  sleeps_accepted (__read_data t0 obs).1.
Proof.
  destruct (read_loop_shape obs t0) as (_ & _ & _ & Hsleeps).
  unfold __read_data, and_then. cbn [fst snd].
  apply Forall_app. split; [by repeat constructor|done].
Qed.

(** ** Cleanup *)

Lemma add_thread_methods_threads (methods : list string) :
  ∀ self threads,
    getattr self "_Runtime_Base__threads" = Some (PList threads) →
    ∃ self',
      add_thread_methods self methods = Some self' ∧
      getattr self' "_Runtime_Base__threads"
      = Some (PList (threads ++
                     map (λ m, PObject ("Thread(" +:+ m +:+ ")")) methods)).
Proof.
  induction methods as [|m methods IH]; intros self threads Hthreads.
  - exists self. split; [done|]. cbn [map]. by rewrite app_nil_r.
  - cbn [add_thread_methods]. unfold _add_thread_method. rewrite Hthreads.
    destruct (IH (setattr self "_Runtime_Base__threads"
                    (PList (threads ++ [PObject ("Thread(" +:+ m +:+ ")")])))
                (threads ++ [PObject ("Thread(" +:+ m +:+ ")")]))
      as (self' & Hrun & Hlist).
    { unfold getattr, setattr. apply lookup_insert_eq. }
    exists self'. split; [done|]. rewrite Hlist.
    by rewrite <- (assoc_L (++)).
Qed.

(** X7.  [cleanup] joins every thread the instance holds, in the order they
    were started: after [__init__] and any number of [_add_thread_method]
    calls these are the read thread, the write thread and the added ones.
    It leaves the alive flag down and the list empty, so a second [cleanup]
    joins nothing and changes nothing, and a pass of either loop that sees
    the instance afterwards leaves the loop through its ending hook. *)
Theorem cleanup_joins_once (name : string) (methods : list string) :
  ∃ self self',
    add_thread_methods (__init__ name) methods = Some self ∧
    cleanup self
    = Some (self',
            [PObject "Thread(__read_data)"; PObject "Thread(__write_data)"]
            ++ map (λ m, PObject ("Thread(" +:+ m +:+ ")")) methods) ∧
    cleanup self' = Some (self', []) ∧
    ∀ o rest t0,
      read_loop t0 (with_self (λ _, self') o :: rest)
      = ([EvReadEnding], Exited) ∧
      write_loop (with_self (λ _, self') o :: rest)
      = ([EvWriteEnding], Exited).
Proof.
  destruct (add_thread_methods_threads methods (__init__ name)
              [PObject "Thread(__read_data)"; PObject "Thread(__write_data)"])
    as (self & Hrun & Hthreads); [by vm_compute|].
  set (self' := setattr (setattr self "_thread_is_alive" (PBool false))
                  "_Runtime_Base__threads" (PList [])).
  assert (Halive : getattr self' "_thread_is_alive" = Some (PBool false)).
  { unfold self', getattr, setattr.
    rewrite lookup_insert_ne by done. apply lookup_insert_eq. }
  exists self, self'. split; [done|]. split; [|split].
  - unfold cleanup, __stop_update_thread.
    unfold getattr, setattr in *. rewrite lookup_insert_ne by done.
    by rewrite Hthreads.
  - unfold cleanup, __stop_update_thread, self'.
    unfold getattr, setattr. rewrite lookup_insert_ne by done.
    rewrite lookup_insert_eq. do 2 f_equal.
    apply map_eq. intros k.
    destruct (decide (k = "_Runtime_Base__threads")) as [->|Hk1].
    { by rewrite !lookup_insert_eq. }
    rewrite !(lookup_insert_ne _ "_Runtime_Base__threads") by done.
    destruct (decide (k = "_thread_is_alive")) as [->|Hk2].
    { by rewrite !lookup_insert_eq. }
    by rewrite !lookup_insert_ne by done.
  - intros o rest t0. cbn [read_loop write_loop with_self seen_self].
    by rewrite Halive.
Qed.

(** ** Options stored on a prim *)

(** The world after a new attribute has been created and set. *)
Lemma find_attr_stored (w : world) (p k : string) (ty : sdf_type) (v : pyval)
  (p' n : string) :
  is_Some (prims w !! p) →
  find_attr (after_Set (after_Create w (p, k) ty) (p, k) ty v) (p', n)
  = if decide ((p, k) = (p', n))
    then Some {| attr_type := ty; attr_value := Some v |}
    else find_attr w (p', n).
Proof.
  intros Hpr.
  rewrite find_attr_after_Set by (by apply prims_put).
  destruct (decide ((p, k) = (p', n))); [done|].
  erewrite find_attr_put; [|done|done]. by rewrite decide_False.
Qed.

Lemma storable_coerce (v : pyval) :
  storable v = true →
  ∃ ty, option_type v = Some ty ∧ sdf_coerce ty v = Some v.
Proof.
  destruct v; try done; intros Hs; eexists; (split; [done|]); try done.
  cbn [storable] in Hs. cbn [sdf_coerce]. by rewrite Hs.
Qed.

Lemma set_option_fresh (w : world) (p k : string) (v : pyval) (ty : sdf_type) :
  is_Some (prims w !! p) →
  find_attr w (p, k) = None →
  option_type v = Some ty → sdf_coerce ty v = Some v →
  set_option_on_prim p (k, v) w
  = Ok tt (after_Set (after_Create w (p, k) ty) (p, k) ty v).
Proof.
  intros [pr Hpr] Hnone Hty Hco. unfold set_option_on_prim. cbn [fst snd].
  erewrite bind_Ok by (by eapply GetAttribute_ok).
  erewrite bind_Ok by reflexivity.
  rewrite Hnone, bool_decide_eq_false_2 by (by intros [? ?]).
  cbn [negb]. rewrite Hty.
  erewrite bind_Ok by (apply CreateAttribute_new; eauto).
  apply (attr_Set_ok _ (p, k) {| attr_type := ty; attr_value := None |}).
  - erewrite find_attr_put; [|done|simpl; eauto]. by rewrite decide_True.
  - done.
Qed.

Lemma dict_getitem_None (d : list (string * pyval)) (k : string) :
  k ∉ d.*1 → dict_getitem d k = None.
Proof.
  induction d as [|[k' v'] d IH]; [done|]. cbn [dict_getitem fmap list_fmap fst].
  intros Hnotin. apply not_elem_of_cons in Hnotin as [Hne Hnotin].
  rewrite (proj2 (String.eqb_neq k' k)) by done. by apply IH.
Qed.

(** Storing options on attributes that are all new. *)
Lemma set_options_fresh (p : string) (options : list (string * pyval)) :
  ∀ w,
    is_Some (prims w !! p) →
    NoDup options.*1 →
    Forall (λ kv, storable kv.2 = true ∧ find_attr w (p, kv.1) = None)
      options →
    ∃ w', set_options_on_prim p options w = Ok tt w' ∧
          is_Some (prims w' !! p) ∧
          ∀ n, find_attr w' (p, n)
               = match dict_getitem options n with
                 | Some v =>
                     Some {| attr_type := default TString (option_type v);
                             attr_value := Some v |}
                 | None => find_attr w (p, n)
                 end.
Proof.
  induction options as [|[k v] options IH]; intros w Hpr Hnd Hall.
  { exists w. by repeat split. }
  cbn [fmap list_fmap fst] in Hnd. apply NoDup_cons in Hnd as [Hk Hnd].
  apply Forall_cons in Hall as [[Hst Hnone] Hall]. cbn [fst snd] in *.
  destruct (storable_coerce v Hst) as (ty & Hty & Hco).
  set (w1 := after_Set (after_Create w (p, k) ty) (p, k) ty v).
  assert (Hpr1 : is_Some (prims w1 !! p)) by (by do 2 apply prims_put).
  destruct (IH w1 Hpr1 Hnd) as (w' & Hrun & Hpr' & Hfind).
  { apply Forall_forall. intros [k' v'] Hin.
    rewrite Forall_forall in Hall. destruct (Hall _ Hin) as [Hst' Hnone'].
    split; [done|]. cbn [fst snd] in *. unfold w1.
    rewrite find_attr_stored by done. rewrite decide_False; [done|].
    intros [= <-]. apply Hk. apply list_elem_of_fmap. by exists (k, v'). }
  exists w'. split; [|split; [done|]].
  - unfold set_options_on_prim in *. rewrite for_each_cons.
    by rewrite (set_option_fresh w p k v ty Hpr Hnone Hty Hco).
  - intros n. rewrite Hfind. cbn [dict_getitem].
    destruct (String.eqb_spec k n) as [->|Hne].
    + rewrite (dict_getitem_None options n Hk). unfold w1.
      rewrite find_attr_stored by done. rewrite decide_True by done.
      by rewrite Hty.
    + destruct (dict_getitem options n); [done|]. unfold w1.
      rewrite find_attr_stored by done. rewrite decide_False; [done|].
      by intros [= ?].
Qed.


Lemma get_options_loop_run (w : world) (p : string) :
  is_Some (prims w !! p) →
  ∀ keys options,
    get_options_loop p keys options w
    = Ok (foldl (λ acc k,
                   match find_attr w (p, k) with
                   | Some a => dict_setitem acc k (default PNone (attr_value a))
                   | None => acc
                   end) options keys) w.
Proof.
  intros [pr Hpr]. induction keys as [|k keys IH]; intros options; [done|].
  cbn [get_options_loop foldl].
  erewrite bind_Ok by (by eapply GetAttribute_ok).
  erewrite bind_Ok by reflexivity.
  destruct (find_attr w (p, k)) as [a|] eqn:Hfind.
  - rewrite bool_decide_eq_true_2 by eauto.
    erewrite bind_Ok by (by eapply attr_Get_ok).
    unfold get_value. rewrite Hfind. apply IH.
  - rewrite bool_decide_eq_false_2 by (by intros [? ?]). apply IH.
Qed.

Lemma dict_setitem_middle (pre rest : list (string * pyval)) (k : string)
  (d v : pyval) :
  k ∉ pre.*1 →
  dict_setitem (pre ++ (k, d) :: rest) k v = pre ++ (k, v) :: rest.
Proof.
  induction pre as [|[k' v'] pre IH]; intros Hk.
  - cbn. by rewrite String.eqb_refl.
  - cbn [fmap list_fmap fst] in Hk. apply not_elem_of_cons in Hk as [Hne Hk].
    cbn [app dict_setitem]. rewrite (proj2 (String.eqb_neq k' k)) by done.
    by rewrite IH.
Qed.

Lemma read_options_fold (w : world) (p : string)
  (suffix : list (string * pyval)) :
  ∀ pre,
    NoDup (pre ++ suffix).*1 →
    foldl (λ acc k,
             match find_attr w (p, k) with
             | Some a => dict_setitem acc k (default PNone (attr_value a))
             | None => acc
             end) (pre ++ suffix) (map fst suffix)
    = pre ++ map (read_option w p) suffix.
Proof.
  induction suffix as [|[k d] suffix IH]; intros pre Hnd; [done|].
  cbn [map foldl fst].
  assert (Hk : k ∉ pre.*1).
  { rewrite fmap_app in Hnd. apply NoDup_app in Hnd as (_ & Hdisj & _).
    intros Hin. apply (Hdisj k Hin). cbn. apply list_elem_of_here. }
  assert (Hstep : (match find_attr w (p, k) with
                   | Some a => dict_setitem (pre ++ (k, d) :: suffix) k
                                 (default PNone (attr_value a))
                   | None => pre ++ (k, d) :: suffix
                   end) = (pre ++ [read_option w p (k, d)]) ++ suffix).
  { unfold read_option. cbn [fst snd]. rewrite <- (assoc_L (++)). cbn [app].
    destruct (find_attr w (p, k)); [by apply dict_setitem_middle|done]. }
  rewrite Hstep, IH.
  - by rewrite <- (assoc_L (++)).
  - rewrite <- (assoc_L (++)). cbn [app].
    rewrite !fmap_app in *. cbn [fmap list_fmap fst read_option] in *. done.
Qed.

(** X8.  Options stored with [set_options_on_prim] on a prim that has none of
    their attributes yet (booleans, integers, strings and lists of strings,
    one per key) are read back by [get_options_from_prim]: read against any
    defaults, every default whose key was stored comes back with the stored
    value and every other default as it is; read against the options
    themselves, the answer is the options. *)
Theorem options_round_trip (p : string) (options : list (string * pyval))
  (w : world) :
  is_Some (prims w !! p) →
  (∀ n, find_attr w (p, n) = None) →
  NoDup options.*1 →
  Forall (λ kv, storable kv.2 = true) options →
  ∃ w', set_options_on_prim p options w = Ok tt w' ∧
    (∀ defaults,
       NoDup defaults.*1 →
       get_options_from_prim p defaults w'
       = Ok (map (λ kd, (kd.1, default kd.2 (dict_getitem options kd.1)))
               defaults) w') ∧
    get_options_from_prim p options w' = Ok options w'.
Proof.
  intros Hpr Hfresh Hnd Hst.
  destruct (set_options_fresh p options w Hpr Hnd) as (w' & Hrun & Hpr' & Hfind).
  { eapply Forall_impl; [exact Hst|]. intros kv Hkv. by split. }
  assert (Hread : ∀ kd, read_option w' p kd
                        = (kd.1, default kd.2 (dict_getitem options kd.1))).
  { intros [k d]. unfold read_option. cbn [fst snd]. rewrite Hfind, Hfresh.
    by destruct (dict_getitem options k). }
  assert (Hget : ∀ defaults, NoDup defaults.*1 →
            get_options_from_prim p defaults w'
            = Ok (map (λ kd, (kd.1, default kd.2 (dict_getitem options kd.1)))
                    defaults) w').
  { intros defaults Hndd. unfold get_options_from_prim.
    rewrite get_options_loop_run by done.
    pose proof (read_options_fold w' p defaults [] Hndd) as Hfold.
    cbn [app] in Hfold. rewrite Hfold.
    f_equal. apply map_ext. intros kd. apply Hread. }
  exists w'. split; [done|]. split; [done|].
  rewrite (Hget options Hnd). f_equal. clear -Hnd.
  induction options as [|[k v] options IH]; [done|].
  cbn [fmap list_fmap fst] in Hnd. apply NoDup_cons in Hnd as [Hk Hnd].
  cbn [map fst snd dict_getitem]. rewrite String.eqb_refl. f_equal.
  rewrite <- (IH Hnd) at 2. apply map_ext_in. intros [k' v'] Hin.
  cbn [fst snd dict_getitem].
  rewrite (proj2 (String.eqb_neq k k')); [done|].
  intros ->. apply Hk. apply list_elem_of_fmap. exists (k', v').
  split; [done|]. by apply list_elem_of_In.
Qed.

Lemma options_round_trip_witness :
  ∃ w',
    set_options_on_prim "/Root/n"
      [("ip", PStr "10.0.0.1"); ("port", PInt 851); ("on", PBool true);
       ("vars", PList [PStr "a"; PStr "b"])] bare_world = Ok tt w' ∧
    get_options_from_prim "/Root/n"
      [("port", PInt 0); ("timeout", PInt 5)] w'
    = Ok [("port", PInt 851); ("timeout", PInt 5)] w'.
Proof.
  destruct (options_round_trip "/Root/n"
              [("ip", PStr "10.0.0.1"); ("port", PInt 851); ("on", PBool true);
               ("vars", PList [PStr "a"; PStr "b"])] bare_world)
    as (w' & Hset & Hget & _).
  - by eexists.
  - intros n. reflexivity.
  - cbn. repeat constructor; by apply (bool_decide_unpack _).
  - repeat constructor.
  - exists w'. split; [exact Hset|].
    apply (Hget [("port", PInt 0); ("timeout", PInt 5)]).
    cbn. repeat constructor; by apply (bool_decide_unpack _).
Defined.

Lemma for_each_app {A} (l1 l2 : list A) (body : A → M unit) (w : world) :
  for_each (l1 ++ l2) body w
  = match for_each l1 body w with
    | Ok _ w1 => for_each l2 body w1
    | Raised w1 => Raised w1
    end.
Proof.
  revert w. induction l1 as [|x l1 IH]; intros w; [done|].
  cbn [app]. rewrite !for_each_cons. destruct (body x w); [apply IH|done].
Qed.

(** X9.  [set_options_on_prim] provides for booleans, integers, strings and
    lists only.  An option of another type (a float, [None], a dictionary)
    whose attribute does not exist raises at its turn: the options before it
    are stored, it and the options after it are not. *)
Theorem set_options_unsupported_type (p k : string) (v : pyval)
  (before after : list (string * pyval)) (w : world) :
  is_Some (prims w !! p) →
  (∀ n, find_attr w (p, n) = None) →
  NoDup (before ++ [(k, v)]).*1 →
  Forall (λ kv, storable kv.2 = true) before →
  option_type v = None →
  ∃ w1, set_options_on_prim p before w = Ok tt w1 ∧
        set_options_on_prim p (before ++ (k, v) :: after) w = Raised w1 ∧
        ∀ kv, kv ∈ (k, v) :: after → kv.1 ∉ before.*1 →
              find_attr w1 (p, kv.1) = None.
Proof.
  intros Hpr Hfresh Hnd Hst Hty.
  rewrite fmap_app in Hnd. apply NoDup_app in Hnd as (Hnd & Hdisj & _).
  destruct (set_options_fresh p before w Hpr Hnd) as (w1 & Hrun & Hpr1 & Hfind).
  { eapply Forall_impl; [exact Hst|]. intros kv Hkv. by split. }
  assert (Hnone : ∀ n, n ∉ before.*1 → find_attr w1 (p, n) = None).
  { intros n Hn. by rewrite Hfind, (dict_getitem_None before n Hn). }
  exists w1. split; [done|]. split.
  - unfold set_options_on_prim in *. rewrite for_each_app, Hrun, for_each_cons.
    assert (Hk : find_attr w1 (p, k) = None).
    { apply Hnone. intros Hin. apply (Hdisj k Hin). cbn. apply list_elem_of_here. }
    destruct Hpr1 as [pr1 Hpr1].
    unfold set_option_on_prim. cbn [fst snd].
    erewrite bind_Ok by (by eapply GetAttribute_ok).
    erewrite bind_Ok by reflexivity.
    rewrite Hk, bool_decide_eq_false_2 by (by intros [? ?]).
    cbn [negb]. rewrite Hty.
    erewrite bind_Ok by reflexivity.
    unfold attr_Set. by rewrite Hk.
  - intros kv _ Hkv. by apply Hnone.
Qed.

Lemma set_options_unsupported_type_witness :
  ∃ w1,
    set_options_on_prim "/Root/n"
      [("port", PInt 851); ("rate", PFloat (1 # 2)); ("on", PBool true)]
      bare_world = Raised w1 ∧
    find_attr w1 ("/Root/n", "on") = None.
Proof.
  destruct (set_options_unsupported_type "/Root/n" "rate" (PFloat (1 # 2))
              [("port", PInt 851)] [("on", PBool true)] bare_world)
    as (w1 & _ & Hraised & Hrest).
  - by eexists.
  - intros n. reflexivity.
  - cbn. repeat constructor; by apply (bool_decide_unpack _).
  - repeat constructor.
  - reflexivity.
  - exists w1. split; [exact Hraised|].
    apply (Hrest ("on", PBool true)).
    + apply list_elem_of_further, list_elem_of_here.
    + cbn. by apply (bool_decide_unpack _).
Defined.

(** ** Operations on existing and on missing targets *)

Lemma set_attr_run (lit : pyval → option (list (list Q))) (w : world)
  (p name : string) (v : pyval) (a : attribute) :
  find_attr w (p, name) = Some a →
  set_attr lit (p, name) v w
  = match stored_value lit (attr_type a) v with
    | Some v' => Ok tt (after_Set w (p, name) (attr_type a) v')
    | None => Raised w
    end.
Proof.
  intros Hfind. pose proof (find_attr_prim _ _ _ _ Hfind) as Hpr.
  unfold set_attr. erewrite bind_Ok by (by apply attr_GetTypeName_ok).
  assert (Hty : type_of w p name = Some (attr_type a))
    by (unfold type_of; by rewrite Hfind).
  rewrite Hty. unfold stored_value.
  assert (Hset : ∀ x, attr_Set (p, name) x w
                      = match sdf_coerce (attr_type a) x with
                        | Some v' => Ok tt (after_Set w (p, name) (attr_type a) v')
                        | None => Raised w
                        end).
  { intros x. unfold attr_Set. rewrite Hfind.
    by destruct (sdf_coerce (attr_type a) x). }
  revert Hset. destruct (attr_type a); intros Hset; try apply Hset.
  destruct (lit v) as [m|]; [apply Hset|done].
Qed.

(** X10.  On a target that exists, an [attr] or [set] operation either sets
    the one attribute and returns [True], or raises and changes nothing.  It
    sets when the value fits the declared type of the attribute (for a matrix
    attribute: when the value is the literal of a matrix); the attribute then
    holds the value as the store takes it and keeps its type, every other
    attribute of every prim is as before, and nothing goes to the bridge. *)
Theorem execute_on_existing_target (lit : pyval → option (list (list Q)))
  (op : UsdOp) (value : pyval) (w : world) (a : attribute) :
  operation op ≠ "type" →
  find_attr w (op_path op, op_value op) = Some a →
  match stored_value lit (attr_type a) value with
  | Some v' =>
      ∃ w', execute lit op value w = Ok true w' ∧
            get_value w' (op_path op) (op_value op) = v' ∧
            type_of w' (op_path op) (op_value op) = Some (attr_type a) ∧
            (∀ p n, (p, n) ≠ (op_path op, op_value op) →
                    find_attr w' (p, n) = find_attr w (p, n)) ∧
            bridge_writes w' = bridge_writes w
  | None => execute lit op value w = Raised w
  end.
Proof.
  intros Htype Hfind. pose proof (find_attr_prim _ _ _ _ Hfind) as Hpr.
  assert (Hexec : execute lit op value w
                  = set_symbol_prim_value lit (op_path op) (op_value op)
                      value w).
  { unfold execute. rewrite (proj2 (String.eqb_neq _ _) Htype).
    by destruct (operation op =? "attr"). }
  rewrite Hexec. unfold set_symbol_prim_value.
  erewrite bind_Ok by reflexivity.
  erewrite bind_Ok by reflexivity.
  rewrite bool_decide_eq_true_2 by done. cbn [negb].
  destruct Hpr as [pr Hpr].
  erewrite bind_Ok by (by eapply GetAttribute_ok).
  erewrite bind_Ok by reflexivity.
  rewrite bool_decide_eq_true_2 by (rewrite Hfind; eauto). cbn [negb].
  destruct (stored_value lit (attr_type a) value) as [v'|] eqn:Hsv;
    [|by unfold bind; rewrite (set_attr_run lit w _ _ value a Hfind), Hsv].
  eexists. split;
    [by unfold bind; rewrite (set_attr_run lit w _ _ value a Hfind), Hsv|].
  repeat split.
  - rewrite get_value_after_Set by (cbn; eauto). by rewrite decide_True.
  - unfold type_of. rewrite find_attr_after_Set by (cbn; eauto).
    by rewrite decide_True.
  - intros p n Hne. rewrite find_attr_after_Set by (cbn; eauto).
    by rewrite decide_False.
  - apply bridge_writes_after_Set.
Qed.

Lemma execute_on_existing_target_witness :
  execute int_matrix_literal (get_op_from_key "/Root/x" "x") (PStr "fast")
    (bundle_world false false)
  = Raised (bundle_world false false).
Proof.
  exact (execute_on_existing_target int_matrix_literal
           (get_op_from_key "/Root/x" "x") (PStr "fast")
           (bundle_world false false)
           {| attr_type := TDouble; attr_value := Some (PFloat 5) |}
           ltac:(discriminate) eq_refl).
Defined.

Lemma find_attr_inv (w : world) (p name : string) (a : attribute) :
  find_attr w (p, name) = Some a →
  ∃ pr, prims w !! p = Some pr ∧ prim_attrs pr !! name = Some a.
Proof.
  unfold find_attr. simpl. destruct (prims w !! p) as [pr|]; [|done].
  simpl. eauto.
Qed.

Lemma create_attr_fresh (lit : pyval → option (list (list Q))) (w : world)
  (p name : string) (v v' : pyval) :
  is_Some (prims w !! p) →
  find_attr w (p, name) = None →
  name ≠ "xformOp:transform" →
  sdf_coerce (type_for_value v) v = Some v' →
  create_attr lit p name v w
  = Ok (p, name)
      (after_Set (after_Create w (p, name) (type_for_value v)) (p, name)
         (type_for_value v) v').
Proof.
  intros Hpr Hnone Hname Hco. unfold create_attr.
  rewrite (proj2 (String.eqb_neq _ _) Hname).
  erewrite bind_Ok by reflexivity.
  assert (Hcreate : (match v with
                     | PStr _ => CreateAttribute p name TString
                     | PBool _ => CreateAttribute p name TBool
                     | _ => CreateAttribute p name TDouble
                     end) = CreateAttribute p name (type_for_value v))
    by (by destruct v).
  rewrite Hcreate.
  erewrite bind_Ok by (by apply CreateAttribute_new).
  assert (Hfind : find_attr (after_Create w (p, name) (type_for_value v))
                    (p, name)
                  = Some {| attr_type := type_for_value v;
                            attr_value := None |}).
  { erewrite find_attr_put; [|done|done]. by rewrite decide_True. }
  unfold bind. rewrite (set_attr_run lit _ _ _ v _ Hfind). cbn [attr_type].
  assert (Hsv : stored_value lit (type_for_value v) v = Some v')
    by (by destruct v).
  by rewrite Hsv.
Qed.

(** X11.  [create] for an [attr] or [set] operation on a path where no prim
    exists yet, with a string, a boolean or a number and a key that is not
    empty, builds the whole symbol node: the attribute of the operation and
    [write:value] hold the value as the store takes it, [write:once] and
    [write:pause] are false, [symbol] is the key.  The node then carries the
    bundle and is an existing target, so the next tick sets it instead of
    creating it. *)
Theorem create_builds_symbol_node (lit : pyval → option (list (list Q)))
  (op : UsdOp) (value v' : pyval) (w : world) :
  operation op ≠ "type" →
  op_key op ≠ "" →
  prims w !! op_path op = None →
  op_value op ∉ [ATTR_WRITE_VALUE; ATTR_WRITE_ONCE; ATTR_WRITE_PAUSE;
                 ATTR_WRITE_SYMBOL; "xformOp:transform"] →
  sdf_coerce (type_for_value value) value = Some v' →
  ∃ w', create lit op value w = Ok tt w' ∧
        get_value w' (op_path op) (op_value op) = v' ∧
        get_value w' (op_path op) ATTR_WRITE_VALUE = v' ∧
        get_value w' (op_path op) ATTR_WRITE_ONCE = PBool false ∧
        get_value w' (op_path op) ATTR_WRITE_PAUSE = PBool false ∧
        get_value w' (op_path op) ATTR_WRITE_SYMBOL = PStr (op_key op) ∧
        has_symbol_bundle w' (op_path op) = true ∧
        target_exists op w' = true.
Proof.
  intros Htype Hkey Hnew Hattr Hco.
  set (p := op_path op) in *. set (attr := op_value op) in *.
  assert (Hne : attr ≠ ATTR_WRITE_VALUE ∧ attr ≠ ATTR_WRITE_ONCE ∧
                attr ≠ ATTR_WRITE_PAUSE ∧ attr ≠ ATTR_WRITE_SYMBOL ∧
                attr ≠ "xformOp:transform").
  { repeat split; intros E; apply Hattr; rewrite E;
      repeat (first [apply list_elem_of_here | apply list_elem_of_further]). }
  destruct Hne as (Hn1 & Hn2 & Hn3 & Hn4 & Hn5).
  assert (Hcreate : create lit op value w
                    = create_symbol_prim_value lit p attr (op_key op) value w).
  { unfold create. rewrite (proj2 (String.eqb_neq _ _) Htype).
    by destruct (operation op =? "attr"). }
  destruct (DefinePrim_attrs p w) as (w0 & Hdef & Hpr0 & Hsame).
  assert (F0 : ∀ n, find_attr w0 (p, n) = None).
  { intros n. rewrite Hsame. unfold find_attr. simpl. by rewrite Hnew. }
  set (ty := type_for_value value) in *.
  set (w1 := after_Set (after_Create w0 (p, attr) ty) (p, attr) ty v').
  set (w2 := after_Set (after_Create w1 (p, ATTR_WRITE_VALUE) ty)
               (p, ATTR_WRITE_VALUE) ty v').
  set (w3 := after_Set (after_Create w2 (p, ATTR_WRITE_ONCE) TBool)
               (p, ATTR_WRITE_ONCE) TBool (PBool false)).
  set (w4 := after_Set (after_Create w3 (p, ATTR_WRITE_PAUSE) TBool)
               (p, ATTR_WRITE_PAUSE) TBool (PBool false)).
  set (w5 := after_Set (after_Create w4 (p, ATTR_WRITE_SYMBOL) TString)
               (p, ATTR_WRITE_SYMBOL) TString (PStr (op_key op))).
  assert (Hpr1 : is_Some (prims w1 !! p)) by (by do 2 apply prims_put).
  assert (Hpr2 : is_Some (prims w2 !! p)) by (by do 2 apply prims_put).
  assert (Hpr3 : is_Some (prims w3 !! p)) by (by do 2 apply prims_put).
  assert (Hpr4 : is_Some (prims w4 !! p)) by (by do 2 apply prims_put).
  assert (Hpr5 : is_Some (prims w5 !! p)) by (by do 2 apply prims_put).
  assert (F1 : ∀ n, find_attr w1 (p, n)
                 = if decide ((p, attr) = (p, n))
                   then Some {| attr_type := ty; attr_value := Some v' |}
                   else None).
  { intros n. unfold w1. rewrite find_attr_stored by done. by rewrite F0. }
  assert (F2 : ∀ n, find_attr w2 (p, n)
                 = if decide ((p, ATTR_WRITE_VALUE) = (p, n))
                   then Some {| attr_type := ty; attr_value := Some v' |}
                   else find_attr w1 (p, n)).
  { intros n. unfold w2. by rewrite find_attr_stored. }
  assert (F3 : ∀ n, find_attr w3 (p, n)
                 = if decide ((p, ATTR_WRITE_ONCE) = (p, n))
                   then Some {| attr_type := TBool;
                                attr_value := Some (PBool false) |}
                   else find_attr w2 (p, n)).
  { intros n. unfold w3. by rewrite find_attr_stored. }
  assert (F4 : ∀ n, find_attr w4 (p, n)
                 = if decide ((p, ATTR_WRITE_PAUSE) = (p, n))
                   then Some {| attr_type := TBool;
                                attr_value := Some (PBool false) |}
                   else find_attr w3 (p, n)).
  { intros n. unfold w4. by rewrite find_attr_stored. }
  assert (F5 : ∀ n, find_attr w5 (p, n)
                 = if decide ((p, ATTR_WRITE_SYMBOL) = (p, n))
                   then Some {| attr_type := TString;
                                attr_value := Some (PStr (op_key op)) |}
                   else find_attr w4 (p, n)).
  { intros n. unfold w5. by rewrite find_attr_stored. }
  assert (Hrun : create lit op value w = Ok tt w5).
  { rewrite Hcreate. unfold create_symbol_prim_value.
    rewrite (bind_Ok _ _ _ _ _ Hdef).
    erewrite bind_Ok by (by apply create_attr_fresh).
    erewrite bind_Ok
      by (apply create_attr_fresh; [done| |done|done];
          rewrite F1; apply decide_False; intros [= ?]; done).
    erewrite bind_Ok
      by (apply (create_attr_fresh lit _ _ _ (PBool false) (PBool false));
          [done| |done|done];
          rewrite F2, decide_False by (intros [= ?]; done);
          rewrite F1; apply decide_False; intros [= ?]; done).
    erewrite bind_Ok
      by (apply (create_attr_fresh lit _ _ _ (PBool false) (PBool false));
          [done| |done|done];
          rewrite F3, decide_False by (intros [= ?]; done);
          rewrite F2, decide_False by (intros [= ?]; done);
          rewrite F1; apply decide_False; intros [= ?]; done).
    rewrite (proj2 (String.eqb_neq _ _) Hkey). cbn [negb].
    erewrite bind_Ok
      by (apply (create_attr_fresh lit _ _ _ (PStr (op_key op))
                   (PStr (op_key op)));
          [done| |done|done];
          rewrite F4, decide_False by (intros [= ?]; done);
          rewrite F3, decide_False by (intros [= ?]; done);
          rewrite F2, decide_False by (intros [= ?]; done);
          rewrite F1; apply decide_False; intros [= ?]; done).
    done. }
  assert (Hattr5 : find_attr w5 (p, attr)
                   = Some {| attr_type := ty; attr_value := Some v' |}).
  { rewrite F5, decide_False by (intros [= ?]; done).
    rewrite F4, decide_False by (intros [= ?]; done).
    rewrite F3, decide_False by (intros [= ?]; done).
    rewrite F2, decide_False by (intros [= ?]; done).
    rewrite F1. by rewrite decide_True. }
  exists w5. split; [done|]. unfold get_value. repeat split.
  - by rewrite Hattr5.
  - rewrite F5, decide_False by (intros [= ?]; done).
    rewrite F4, decide_False by (intros [= ?]; done).
    rewrite F3, decide_False by (intros [= ?]; done).
    rewrite F2. by rewrite decide_True.
  - rewrite F5, decide_False by (intros [= ?]; done).
    rewrite F4, decide_False by (intros [= ?]; done).
    rewrite F3. by rewrite decide_True.
  - rewrite F5, decide_False by (intros [= ?]; done).
    rewrite F4. by rewrite decide_True.
  - rewrite F5. by rewrite decide_True.
  - rewrite Hcreate in Hrun.
    apply (created_symbol_node_has_bundle lit p attr (op_key op) value w w5);
      try done.
    unfold find_attr. simpl. by rewrite Hnew.
  - destruct (find_attr_inv _ _ _ _ Hattr5) as (pr & Hpr & Hpa).
    unfold target_exists. fold p attr. rewrite Hpr.
    rewrite bool_decide_eq_true_2 by (rewrite Hpa; eauto).
    apply orb_true_r.
Qed.

Lemma create_builds_symbol_node_witness :
  ∃ w', create int_matrix_literal (get_op_from_key "/Root/axis/pos" "axis.pos")
          (PInt 3) bare_world = Ok tt w' ∧
        get_value w' "/Root/axis/pos" "value" = PFloat 3 ∧
        get_value w' "/Root/axis/pos" "symbol" = PStr "axis.pos".
Proof.
  destruct (create_builds_symbol_node int_matrix_literal
              (get_op_from_key "/Root/axis/pos" "axis.pos") (PInt 3)
              (PFloat (inject_Z 3)) bare_world)
    as (w' & Hrun & Hv & _ & _ & _ & Hs & _).
  - discriminate.
  - discriminate.
  - reflexivity.
  - apply (bool_decide_unpack _). reflexivity.
  - reflexivity.
  - exists w'. split; [exact Hrun|]. split; [exact Hv | exact Hs].
Defined.

Lemma define_one_typed (ps : gmap string prim) (path t : string) :
  t ≠ "" →
  ∃ pr, define_one t ps path !! path = Some pr ∧ prim_type_name pr = t ∧
        prim_attrs pr = default ∅ (prim_attrs <$> ps !! path).
Proof.
  intros Ht. unfold define_one. destruct (ps !! path) as [pr|] eqn:Hp.
  - rewrite (proj2 (String.eqb_neq _ _) Ht), lookup_insert_eq. eauto.
  - rewrite lookup_insert_eq. eauto.
Qed.

(** X12.  A [type] operation only concerns the node.  [execute] never
    changes anything: it answers whether the prim exists.  [create] with the
    name of a type defines the prim with that type, after which [execute]
    answers [True]; [create] with a value that is not a string raises and
    changes nothing. *)
Theorem type_operation_defines_prim (lit : pyval → option (list (list Q)))
  (op : UsdOp) (w : world) :
  operation op = "type" →
  (∀ value,
     execute lit op value w
     = Ok (bool_decide (is_Some (prims w !! op_path op))) w) ∧
  (∀ t value,
     t ≠ "" →
     ∃ w', create lit op (PStr t) w = Ok tt w' ∧
           prim_type_name <$> prims w' !! op_path op = Some t ∧
           execute lit op value w' = Ok true w') ∧
  (∀ value,
     (∀ t, value ≠ PStr t) → create lit op value w = Raised w).
Proof.
  intros Hop.
  assert (Hexec : ∀ value w0,
            execute lit op value w0
            = Ok (bool_decide (is_Some (prims w0 !! op_path op))) w0).
  { intros value w0. unfold execute. rewrite Hop. cbn [String.eqb Ascii.eqb Bool.eqb].
    erewrite bind_Ok by reflexivity.
    erewrite bind_Ok by reflexivity.
    by destruct (bool_decide (is_Some (prims w0 !! op_path op))). }
  assert (Hcreate : ∀ value,
            create lit op value w = create_typed_prim (op_path op) value w).
  { intros value. unfold create. by rewrite Hop. }
  split; [intros; apply Hexec|]. split.
  - intros t value Ht. rewrite Hcreate. cbn [create_typed_prim].
    destruct (define_one_typed
                (foldl (define_one "") (prims w)
                   (removelast (path_and_ancestors (op_path op))))
                (op_path op) t Ht) as (pr & Hpr & Hty & _).
    eexists. split; [reflexivity|]. cbn [prims]. rewrite Hpr. cbn.
    split; [by rewrite Hty|].
    rewrite Hexec. cbn [prims]. rewrite Hpr.
    by rewrite bool_decide_eq_true_2 by eauto.
  - intros value Hnot. rewrite Hcreate.
    destruct value; try done. by destruct (Hnot s).
Qed.

Lemma type_operation_defines_prim_witness :
  ∃ w', create int_matrix_literal
          (get_op_from_key "/Root/cell/usd:type" "cell.usd:type")
          (PStr "Xform") bare_world = Ok tt w' ∧
        prim_type_name <$> prims w' !! "/Root/cell" = Some "Xform".
Proof.
  destruct (proj1 (proj2 (type_operation_defines_prim int_matrix_literal
                            (get_op_from_key "/Root/cell/usd:type"
                               "cell.usd:type") bare_world eq_refl))
              "Xform" PNone ltac:(discriminate))
    as (w' & Hrun & Hty & _).
  exists w'. split; [exact Hrun | exact Hty].
Defined.

(** ** The drain at the head of the merge tick *)

(** X13.  A merge tick drains the staging buffer once: it leaves the buffer
    empty, and a second tick without a deposit in between returns early and
    leaves the instance as it is.  On an expired stage the tick takes
    nothing out, so what the buffer holds is drained, whole, by the next tick
    on a live stage. *)
Theorem drain_is_idempotent (self : RuntimeUsd) :
  _on_update_event false (_on_update_event false self).2
  = (None, (_on_update_event false self).2) ∧
  _on_update_event true self = (None, self) ∧
  drained (_on_update_event true self).2 = _data_update self ∧
  _data_update (_on_update_event false self).2 = ∅.
Proof.
  split; [|split; [done|split; [apply drained_buffer|]]].
  - unfold _on_update_event.
    destruct (Nat.eqb_spec (size (_data_update self)) 0) as [H0|H0].
    + cbn [snd]. by rewrite (proj2 (Nat.eqb_eq _ _) H0).
    + cbn [snd _data_update]. by rewrite map_size_empty.
  - unfold _on_update_event.
    destruct (Nat.eqb_spec (size (_data_update self)) 0) as [H0|H0]; [|done].
    cbn [snd]. by apply map_size_empty_iff.
Qed.

(** ** Names and options of a component *)




Lemma dict_getitem_setitem (d : list (string * pyval)) (k k' : string)
  (v : pyval) :
  dict_getitem (dict_setitem d k v) k'
  = if String.eqb k k' then Some v else dict_getitem d k'.
Proof.
  induction d as [|[k0 v0] d IH]; [done|]. cbn [dict_setitem].
  destruct (String.eqb_spec k0 k) as [->|Hne].
  - cbn [dict_getitem]. by destruct (String.eqb k k').
  - cbn [dict_getitem]. rewrite IH.
    destruct (String.eqb_spec k0 k') as [->|Hne']; [|done].
    by rewrite (proj2 (String.eqb_neq k k')).
Qed.

Lemma dict_setitem_keys (d : list (string * pyval)) (k : string) (v : pyval) :
  (dict_setitem d k v).*1 = if bool_decide (k ∈ d.*1) then d.*1 else d.*1 ++ [k].
Proof.
  induction d as [|[k0 v0] d IH]; [done|]. cbn [dict_setitem fmap list_fmap fst].
  destruct (String.eqb_spec k0 k) as [->|Hne].
  - rewrite bool_decide_eq_true_2 by apply list_elem_of_here. done.
  - cbn [fmap list_fmap fst]. change (list_fmap _ _ fst ?l) with (l.*1).
    rewrite IH. destruct (bool_decide (k ∈ d.*1)) eqn:E.
    + apply bool_decide_eq_true_1 in E.
      by rewrite bool_decide_eq_true_2 by (by apply list_elem_of_further).
    + apply bool_decide_eq_false_1 in E.
      rewrite bool_decide_eq_false_2; [done|].
      intros [?|?]%elem_of_cons; [congruence|done].
Qed.

Lemma dict_setitem_NoDup (d : list (string * pyval)) (k : string) (v : pyval) :
  NoDup d.*1 → NoDup (dict_setitem d k v).*1.
Proof.
  intros Hnd. rewrite dict_setitem_keys.
  destruct (bool_decide (k ∈ d.*1)) eqn:E; [done|].
  apply bool_decide_eq_false_1 in E.
  apply NoDup_app. repeat split; [done| |apply NoDup_singleton].
  intros x Hx ->%list_elem_of_singleton. done.
Qed.

Lemma merged_options_spec (options : list (string * pyval)) :
  ∀ defaults,
    NoDup defaults.*1 →
    NoDup (merged_options defaults options).*1 ∧
    ∀ k, dict_getitem (merged_options defaults options) k
         = match dict_getitem (reverse options) k with
           | Some v => Some v
           | None => dict_getitem defaults k
           end.
Proof.
  unfold merged_options.
  induction options as [|[k v] options IH]; intros defaults Hnd; [done|].
  cbn [foldl fst snd].
  destruct (IH (dict_setitem defaults k v)) as [Hnd' Hget];
    [by apply dict_setitem_NoDup|].
  split; [done|]. intros k'. rewrite Hget, reverse_cons.
  assert (Happ : ∀ l, dict_getitem (l ++ [(k, v)]) k'
                      = match dict_getitem l k' with
                        | Some x => Some x
                        | None => if String.eqb k k' then Some v else None
                        end).
  { induction l as [|[k0 v0] l IHl]; [done|]. cbn [app dict_getitem].
    by destruct (String.eqb k0 k'). }
  rewrite Happ, dict_getitem_setitem.
  destruct (dict_getitem (reverse options) k'); [done|].
  by destruct (String.eqb k k').
Qed.

Lemma dict_getitem_elem (d : list (string * pyval)) (k : string) (v : pyval) :
  NoDup d.*1 → (k, v) ∈ d → dict_getitem d k = Some v.
Proof.
  induction d as [|[k0 v0] d IH]; [by intros _ ?%elem_of_nil|].
  cbn [fmap list_fmap fst]. intros [Hk Hnd]%NoDup_cons Hin.
  cbn [dict_getitem]. apply elem_of_cons in Hin as [[= -> ->]|Hin].
  - by rewrite String.eqb_refl.
  - rewrite (proj2 (String.eqb_neq k0 k)); [by apply IH|].
    intros ->. apply Hk. apply list_elem_of_fmap. by exists (k, v).
Qed.

(** X15.  The options a component is added with are what is read back from
    its prim.  [add_component] lays the options given over the defaults;
    [create_component_prim] defines the prim under the normalized name and
    stores them; reading the prim against the defaults then gives, for each
    default, the latest value given for its key, and the default itself when
    none was given. *)
Theorem component_options_round_trip (system_root name : string)
  (defaults options : list (string * pyval)) (w : world) :
  prims w !! get_normalize_prim_name system_root name = None →
  NoDup defaults.*1 →
  Forall (λ kv, storable kv.2 = true) (merged_options defaults options) →
  ∃ w',
    create_component_prim system_root name (merged_options defaults options) w
    = Ok (get_normalize_prim_name system_root name) w' ∧
    get_options_from_prim (get_normalize_prim_name system_root name)
      defaults w'
    = Ok (map (λ kd, (kd.1,
                      default kd.2 (dict_getitem (reverse options) kd.1)))
            defaults) w'.
Proof.
  intros Hnew Hnd Hst.
  set (p := get_normalize_prim_name system_root name) in *.
  destruct (DefinePrim_attrs p w) as (w0 & Hdef & Hpr0 & Hsame).
  destruct (merged_options_spec options defaults Hnd) as [Hndm Hget].
  destruct (options_round_trip p (merged_options defaults options) w0)
    as (w' & Hset & Hread & _); try done.
  { intros n. rewrite Hsame. unfold find_attr. simpl. by rewrite Hnew. }
  exists w'. split.
  - unfold create_component_prim. fold p.
    rewrite (bind_Ok _ _ _ _ _ Hdef).
    by rewrite (bind_Ok _ _ _ _ _ Hset).
  - rewrite (Hread defaults Hnd). f_equal. apply map_ext_in.
    intros [k d] Hin. cbn [fst snd]. rewrite Hget.
    destruct (dict_getitem (reverse options) k); [done|].
    rewrite (dict_getitem_elem defaults k d Hnd); [done|].
    by apply list_elem_of_In.
Qed.

Lemma component_options_round_trip_witness :
  ∃ w',
    create_component_prim "/Root/" "plc"
      (merged_options [("ip", PStr "127.0.0.1"); ("port", PInt 851)]
         [("port", PInt 852)]) bare_world
    = Ok "/Root/plc" w' ∧
    get_options_from_prim "/Root/plc"
      [("ip", PStr "127.0.0.1"); ("port", PInt 851)] w'
    = Ok [("ip", PStr "127.0.0.1"); ("port", PInt 852)] w'.
Proof.
  destruct (component_options_round_trip "/Root/" "plc"
              [("ip", PStr "127.0.0.1"); ("port", PInt 851)]
              [("port", PInt 852)] bare_world) as (w' & Hrun & Hread).
  - reflexivity.
  - cbn. repeat constructor; by apply (bool_decide_unpack _).
  - repeat constructor.
  - exists w'. split; [exact Hrun | exact Hread].
Defined.

(** ** Getting, setting and creating an attribute *)

(** X16.  When [set_or_create_attr] returns, it reports that it created the
    attribute exactly when the attribute did not exist; the attribute exists
    afterwards, and one that existed before has kept its type.  On an
    attribute that exists the value goes to the store as it is: a value the
    declared type does not take raises and changes nothing. *)
Theorem set_or_create_attr_reports_creation
  (lit : pyval → option (list (list Q))) (p name : string) (value : pyval)
  (w : world) :
  (∀ h created w',
     set_or_create_attr lit p name value w = Ok (h, created) w' →
     h = (p, name) ∧
     created = negb (bool_decide (is_Some (find_attr w (p, name)))) ∧
     is_Some (find_attr w' (p, name)) ∧
     ∀ a, find_attr w (p, name) = Some a →
          type_of w' p name = Some (attr_type a)) ∧
  (∀ a, find_attr w (p, name) = Some a →
        sdf_coerce (attr_type a) value = None →
        set_or_create_attr lit p name value w = Raised w).
Proof.
  split.
  - intros h created w' Hrun. unfold set_or_create_attr in Hrun.
    apply bind_Ok_inv in Hrun as (h0 & w0 & Hget & Hrun).
    unfold GetAttribute in Hget.
    destruct (prims w !! p) as [pr|] eqn:Hpr; [|done].
    injection Hget as <- <-.
    apply bind_Ok_inv in Hrun as (valid & w0 & Hvalid & Hrun).
    injection Hvalid as <- <-.
    destruct (find_attr w (p, name)) as [a|] eqn:Hfind.
    + rewrite bool_decide_eq_true_2 in Hrun |- * by eauto. cbn [negb] in *.
      apply bind_Ok_inv in Hrun as ([] & w1 & Hset & Hrun).
      injection Hrun as <- <- <-.
      destruct (attr_Set_Ok_inv _ _ _ _ _ Hset) as (E & a' & Ha' & Hty).
      rewrite Hfind in Ha'. injection Ha' as <-.
      repeat split; [|by intros a0 [= <-]].
      unfold type_of in Hty. by destruct (find_attr w1 (p, name)).
    + rewrite bool_decide_eq_false_2 in Hrun |- * by (by intros [? ?]).
      cbn [negb] in *.
      apply bind_Ok_inv in Hrun as (h1 & w1 & Hcreate & Hrun).
      injection Hrun as <- <- <-.
      destruct (create_attr_Ok_inv _ _ _ _ _ _ _ Hcreate) as (E & a & Ha & _).
      assert (h1 = (p, name)) as ->.
      { unfold create_attr in Hcreate.
        apply bind_Ok_inv in Hcreate as (? & ? & _ & Hcreate).
        apply bind_Ok_inv in Hcreate as (h2 & w2 & Hc & Hcreate).
        apply bind_Ok_inv in Hcreate as (? & ? & _ & Hcreate).
        injection Hcreate as <- _.
        destruct value; by apply CreateAttribute_Ok_inv in Hc as [? _]. }
      repeat split; [by rewrite Ha; eauto|done].
  - intros a Hfind Hco. unfold set_or_create_attr.
    destruct (find_attr_inv _ _ _ _ Hfind) as (pr & Hpr & _).
    erewrite bind_Ok by (by eapply GetAttribute_ok).
    erewrite bind_Ok by reflexivity.
    rewrite bool_decide_eq_true_2 by (rewrite Hfind; eauto). cbn [negb].
    apply bind_Raised. unfold attr_Set. by rewrite Hfind, Hco.
Qed.

Lemma set_or_create_attr_reports_creation_witness :
  set_or_create_attr int_matrix_literal "/Root/x" "value" (PStr "fast")
    (bundle_world false false)
  = Raised (bundle_world false false).
Proof.
  exact (proj2 (set_or_create_attr_reports_creation int_matrix_literal
                  "/Root/x" "value" (PStr "fast") (bundle_world false false))
           {| attr_type := TDouble; attr_value := Some (PFloat 5) |}
           eq_refl eq_refl).
Defined.

(** X17.  [get_or_create_attr] creates an attribute only when it is missing:
    on a prim that exists it returns the attribute, which exists afterwards;
    an attribute that was there keeps its type and its value whatever type is
    asked for, and a second call changes nothing. *)
Theorem get_or_create_attr_is_idempotent (p name : string)
  (ty ty' : sdf_type) (w : world) :
  is_Some (prims w !! p) →
  ∃ w', get_or_create_attr p name ty w = Ok (p, name) w' ∧
        is_Some (find_attr w' (p, name)) ∧
        (∀ a, find_attr w (p, name) = Some a → w' = w) ∧
        (find_attr w (p, name) = None → type_of w' p name = Some ty) ∧
        get_or_create_attr p name ty' w' = Ok (p, name) w'.
Proof.
  intros [pr Hpr].
  assert (Hexisting : ∀ w0 a t, find_attr w0 (p, name) = Some a →
            get_or_create_attr p name t w0 = Ok (p, name) w0).
  { intros w0 a t Hfind. unfold get_or_create_attr.
    destruct (find_attr_inv _ _ _ _ Hfind) as (pr0 & Hpr0 & _).
    erewrite bind_Ok by (by eapply GetAttribute_ok).
    erewrite bind_Ok by reflexivity.
    by rewrite bool_decide_eq_true_2 by (rewrite Hfind; eauto). }
  destruct (find_attr w (p, name)) as [a|] eqn:Hfind.
  - exists w. rewrite (Hexisting w a ty Hfind), (Hexisting w a ty' Hfind).
    rewrite Hfind. repeat split; eauto. done.
  - exists (after_Create w (p, name) ty).
    assert (Hnew : find_attr (after_Create w (p, name) ty) (p, name)
                   = Some {| attr_type := ty; attr_value := None |}).
    { erewrite find_attr_put; [|done|simpl; eauto]. by rewrite decide_True. }
    rewrite (Hexisting _ _ ty' Hnew), Hnew.
    repeat split; eauto; [|done|by unfold type_of; rewrite Hnew].
    unfold get_or_create_attr.
    erewrite bind_Ok by (by eapply GetAttribute_ok).
    erewrite bind_Ok by reflexivity.
    rewrite Hfind, bool_decide_eq_false_2 by (by intros [? ?]).
    apply CreateAttribute_new; eauto.
Qed.

Lemma get_or_create_attr_is_idempotent_witness :
  ∃ w', get_or_create_attr "/Root/n" "speed" TDouble bare_world
        = Ok ("/Root/n", "speed") w' ∧
        get_or_create_attr "/Root/n" "speed" TString w'
        = Ok ("/Root/n", "speed") w'.
Proof.
  destruct (get_or_create_attr_is_idempotent "/Root/n" "speed" TDouble
              TString bare_world) as (w' & Hrun & _ & _ & _ & Hagain).
  - by eexists.
  - exists w'. split; [exact Hrun | exact Hagain].
Defined.

(** ** The merge tick, from the drained batch on *)

Lemma append_inj_l (a x y : string) : a +:+ x = a +:+ y → x = y.
Proof.
  induction a as [|c a IH]; [by rewrite !append_nil_l|].
  rewrite !append_cons. intros [= H]. by apply IH.
Qed.

Lemma split_on_keeps_lacks (c d : ascii) (s : string) :
  lacks c s = true → Forall (λ p, lacks c p = true) (split_on d s).
Proof.
  induction s as [|x s IH]; [by repeat constructor|].
  cbn [lacks split_on]. intros [Hx Hs]%andb_prop. specialize (IH Hs).
  destruct (Ascii.eqb x d); [by constructor|].
  destruct (split_on d s) as [|y ys].
  - repeat constructor. cbn. by rewrite Hx.
  - apply Forall_cons in IH as [Hy Hys]. constructor; [|done].
    cbn. by rewrite Hx, Hy.
Qed.

Lemma Forall_last_elem {A} (P : A → Prop) (l : list A) (d : A) :
  l ≠ [] → Forall P l → P (List.last l d).
Proof.
  induction l as [|x l IH]; [done|]. intros _ [Hx Hl]%Forall_cons.
  destruct l as [|y l]; [done|]. by apply IH.
Qed.

(** A key without slash and without colon is a plain set of [value] at its
    document path. *)
Lemma plain_key_op (root key : string) :
  lacks "/" key = true → lacks ":" key = true →
  get_op_from_key (full_key_of root key) key
  = {| operation := "set"; op_path := full_key_of root key; op_key := key;
       op_value := ATTR_CURRENT_VALUE |}.
Proof.
  intros Hs Hc. unfold get_op_from_key.
  assert (Hlast : lacks ":" (List.last (split_on "/" (full_key_of root key)) "")
                  = true).
  { unfold full_key_of.
    change (root +:+ "/" +:+ ?t) with (root +:+ String "/" t).
    rewrite split_on_app_sep, split_on_concat;
      [|apply split_on_nonempty|by apply split_on_keeps_lacks].
    rewrite last_app_nonempty by apply split_on_nonempty.
    apply Forall_last_elem;
      [apply split_on_nonempty|by apply split_on_keeps_lacks]. }
  by rewrite (split_on_lacks _ _ Hlast).
Qed.

(** Keys without slash have document paths of their own. *)
Lemma full_key_of_inj (root k1 k2 : string) :
  lacks "/" k1 = true → lacks "/" k2 = true →
  full_key_of root k1 = full_key_of root k2 → k1 = k2.
Proof.
  intros H1 H2 E. unfold full_key_of in E.
  apply append_inj_l, append_inj_l in E.
  apply (f_equal (split_on "/")) in E.
  rewrite !split_on_concat in E
    by (first [apply split_on_nonempty | by apply split_on_keeps_lacks]).
  rewrite <- (concat_split_on "." k1), <- (concat_split_on "." k2).
  by rewrite E.
Qed.

Lemma define_all_lookup (ps : gmap string prim) (l : list string)
  (q : string) :
  foldl (define_one "") ps l !! q = ps !! q ∨
  (ps !! q = None ∧
   foldl (define_one "") ps l !! q
   = Some {| prim_type_name := ""; prim_attrs := ∅ |}).
Proof.
  revert ps. induction l as [|p l IH]; intros ps; [by left|].
  cbn [foldl]. destruct (IH (define_one "" ps p)) as [->|[Hn ->]].
  - apply define_one_lookup.
  - right. split; [|done].
    destruct (define_one_lookup ps p q) as [<-|[? _]]; done.
Qed.

(** [DefinePrim] without a type name adds prims that have no attribute and
    leaves every attribute there is as it is. *)
Lemma DefinePrim_find_attr (path : string) (w : world) :
  ∃ w0, DefinePrim path "" w = Ok path w0 ∧
        (∀ h, find_attr w0 h = find_attr w h) ∧
        is_Some (prims w0 !! path) ∧
        bridge_writes w0 = bridge_writes w.
Proof.
  eexists. split; [reflexivity|]. cbn [prims effects].
  set (l := removelast (path_and_ancestors path)).
  assert (Hfold : define_one "" (foldl (define_one "") (prims w) l) path
                  = foldl (define_one "") (prims w) (l ++ [path]))
    by (by rewrite foldl_app).
  rewrite Hfold. split; [|split].
  - intros [q n]. unfold find_attr. cbn [prims fst snd].
    destruct (define_all_lookup (prims w) (l ++ [path]) q) as [->|[-> ->]];
      done.
  - rewrite <- Hfold. generalize (foldl (define_one "") (prims w) l).
    intros ps. unfold define_one.
    destruct (ps !! path) as [pr|] eqn:E.
    + cbn [String.eqb]. rewrite E. eauto.
    + rewrite lookup_insert_eq. eauto.
  - unfold bridge_writes. cbn [effects]. rewrite omap_app. cbn.
    by rewrite app_nil_r.
Qed.

Lemma root_prim_run (self : RuntimeUsd) (cached : option prim_handle)
  (w : world) :
  cached = None ∨ cached = Some (_root_prim_path self) →
  ∃ w0, root_prim self cached w
        = Ok (_root_prim_path self, Some (_root_prim_path self)) w0 ∧
        (∀ h, find_attr w0 h = find_attr w h) ∧
        bridge_writes w0 = bridge_writes w ∧
        (cached = Some (_root_prim_path self) → w0 = w).
Proof.
  intros [->| ->]; [|by exists w]. unfold root_prim.
  erewrite bind_Ok by reflexivity. erewrite bind_Ok by reflexivity.
  destruct (bool_decide _); cbn [negb]; [by exists w|].
  destruct (DefinePrim_find_attr (_root_prim_path self) w)
    as (w0 & Hdef & Hsame & _ & Hbw).
  exists w0. by erewrite bind_Ok by exact Hdef.
Qed.


Lemma execute_missing_run (lit : pyval → option (list (list Q)))
  (op : UsdOp) (value : pyval) (w : world) :
  operation op ≠ "type" →
  find_attr w (op_path op, op_value op) = None →
  execute lit op value w = Ok false w.
Proof.
  intros Htype Hnone. unfold execute.
  rewrite (proj2 (String.eqb_neq _ _) Htype).
  destruct (operation op =? "attr");
    by apply set_symbol_prim_value_not_found.
Qed.



Lemma execute_pass_cons (lit : pyval → option (list (list Q)))
  (self : RuntimeUsd) (cached : option prim_handle) (key : string)
  (value : pyval) (rest : list (string * pyval))
  (acc : list (string * (UsdOp * pyval))) (w w0 : world) :
  root_prim self cached w
  = Ok (_root_prim_path self, Some (_root_prim_path self)) w0 →
  execute_pass lit self cached ((key, value) :: rest) acc w
  = match execute lit (get_op_from_key
                         (full_key_of (_root_prim_path self) key) key)
            value w0 with
    | Ok found w1 =>
        execute_pass lit self (Some (_root_prim_path self)) rest
          (if negb found
           then create_setitem acc (full_key_of (_root_prim_path self) key)
                  (get_op_from_key
                     (full_key_of (_root_prim_path self) key) key, value)
           else acc) w1
    | Raised w1 => Raised w1
    end.
Proof.
  intros Hroot. cbn [execute_pass]. unfold bind at 1. rewrite Hroot.
  cbn [fst snd]. reflexivity.
Qed.








Lemma bridge_writes_after_Create (w : world) (h : attr_handle)
  (ty : sdf_type) :
  bridge_writes (after_Create w h ty) = bridge_writes w.
Proof.
  unfold bridge_writes, after_Create. cbn [effects]. rewrite omap_app. cbn.
  by rewrite app_nil_r.
Qed.

(** [create_symbol_prim_value] on a path whose prim, if there is one, has no
    attribute: the node it builds, and what it leaves alone. *)
Lemma create_symbol_node_run (lit : pyval → option (list (list Q)))
  (p attr key : string) (value v' : pyval) (w : world) :
  (∀ n, find_attr w (p, n) = None) →
  key ≠ "" →
  attr ∉ [ATTR_WRITE_VALUE; ATTR_WRITE_ONCE; ATTR_WRITE_PAUSE;
          ATTR_WRITE_SYMBOL; "xformOp:transform"] →
  created_value value = Some v' →
  ∃ w', create_symbol_prim_value lit p attr key value w = Ok tt w' ∧
        (∀ n, find_attr w' (p, n) = symbol_node attr key value n) ∧
        (∀ q n, q ≠ p → find_attr w' (q, n) = find_attr w (q, n)) ∧
        bridge_writes w' = bridge_writes w.
Proof.
  intros Hnew Hkey Hattr Hco.
  assert (Hne : attr ≠ ATTR_WRITE_VALUE ∧ attr ≠ ATTR_WRITE_ONCE ∧
                attr ≠ ATTR_WRITE_PAUSE ∧ attr ≠ ATTR_WRITE_SYMBOL ∧
                attr ≠ "xformOp:transform").
  { repeat split; intros E; apply Hattr; rewrite E;
      repeat (first [apply list_elem_of_here | apply list_elem_of_further]). }
  destruct Hne as (Hn1 & Hn2 & Hn3 & Hn4 & Hn5).
  destruct (DefinePrim_find_attr p w) as (w0 & Hdef & Hsame & Hpr0 & Hbw0).
  assert (F0 : ∀ n, find_attr w0 (p, n) = None)
    by (intros n; by rewrite Hsame).
  set (ty := type_for_value value) in *.
  set (w1 := after_Set (after_Create w0 (p, attr) ty) (p, attr) ty v').
  set (w2 := after_Set (after_Create w1 (p, ATTR_WRITE_VALUE) ty)
               (p, ATTR_WRITE_VALUE) ty v').
  set (w3 := after_Set (after_Create w2 (p, ATTR_WRITE_ONCE) TBool)
               (p, ATTR_WRITE_ONCE) TBool (PBool false)).
  set (w4 := after_Set (after_Create w3 (p, ATTR_WRITE_PAUSE) TBool)
               (p, ATTR_WRITE_PAUSE) TBool (PBool false)).
  set (w5 := after_Set (after_Create w4 (p, ATTR_WRITE_SYMBOL) TString)
               (p, ATTR_WRITE_SYMBOL) TString (PStr key)).
  assert (Hpr1 : is_Some (prims w1 !! p)) by (by do 2 apply prims_put).
  assert (Hpr2 : is_Some (prims w2 !! p)) by (by do 2 apply prims_put).
  assert (Hpr3 : is_Some (prims w3 !! p)) by (by do 2 apply prims_put).
  assert (Hpr4 : is_Some (prims w4 !! p)) by (by do 2 apply prims_put).
  assert (F1 : ∀ q n, find_attr w1 (q, n)
                 = if decide ((p, attr) = (q, n))
                   then Some {| attr_type := ty; attr_value := Some v' |}
                   else find_attr w0 (q, n)).
  { intros q n. unfold w1. by rewrite find_attr_stored. }
  assert (F2 : ∀ q n, find_attr w2 (q, n)
                 = if decide ((p, ATTR_WRITE_VALUE) = (q, n))
                   then Some {| attr_type := ty; attr_value := Some v' |}
                   else find_attr w1 (q, n)).
  { intros q n. unfold w2. by rewrite find_attr_stored. }
  assert (F3 : ∀ q n, find_attr w3 (q, n)
                 = if decide ((p, ATTR_WRITE_ONCE) = (q, n))
                   then Some {| attr_type := TBool;
                                attr_value := Some (PBool false) |}
                   else find_attr w2 (q, n)).
  { intros q n. unfold w3. by rewrite find_attr_stored. }
  assert (F4 : ∀ q n, find_attr w4 (q, n)
                 = if decide ((p, ATTR_WRITE_PAUSE) = (q, n))
                   then Some {| attr_type := TBool;
                                attr_value := Some (PBool false) |}
                   else find_attr w3 (q, n)).
  { intros q n. unfold w4. by rewrite find_attr_stored. }
  assert (F5 : ∀ q n, find_attr w5 (q, n)
                 = if decide ((p, ATTR_WRITE_SYMBOL) = (q, n))
                   then Some {| attr_type := TString;
                                attr_value := Some (PStr key) |}
                   else find_attr w4 (q, n)).
  { intros q n. unfold w5. by rewrite find_attr_stored. }
  exists w5. split; [|split; [|split]].
  - unfold create_symbol_prim_value.
    rewrite (bind_Ok _ _ _ _ _ Hdef).
    erewrite bind_Ok by (by apply create_attr_fresh).
    erewrite bind_Ok
      by (apply create_attr_fresh; [done| |done|done];
          rewrite F1, decide_False by (intros [= ?]; done); apply F0).
    erewrite bind_Ok
      by (apply (create_attr_fresh lit _ _ _ (PBool false) (PBool false));
          [done| |done|done];
          rewrite F2, decide_False by (intros [= ?]; done);
          rewrite F1, decide_False by (intros [= ?]; done); apply F0).
    erewrite bind_Ok
      by (apply (create_attr_fresh lit _ _ _ (PBool false) (PBool false));
          [done| |done|done];
          rewrite F3, decide_False by (intros [= ?]; done);
          rewrite F2, decide_False by (intros [= ?]; done);
          rewrite F1, decide_False by (intros [= ?]; done); apply F0).
    rewrite (proj2 (String.eqb_neq _ _) Hkey). cbn [negb].
    erewrite bind_Ok
      by (apply (create_attr_fresh lit _ _ _ (PStr key) (PStr key));
          [done| |done|done];
          rewrite F4, decide_False by (intros [= ?]; done);
          rewrite F3, decide_False by (intros [= ?]; done);
          rewrite F2, decide_False by (intros [= ?]; done);
          rewrite F1, decide_False by (intros [= ?]; done); apply F0).
    done.
  - intros n. rewrite F5, F4, F3, F2, F1, F0. unfold symbol_node.
    fold ty. rewrite Hco.
    destruct (String.eqb_spec n ATTR_WRITE_SYMBOL) as [->|H5];
      [by rewrite decide_True|].
    rewrite decide_False by congruence.
    destruct (String.eqb_spec n ATTR_WRITE_PAUSE) as [->|H4];
      [by rewrite decide_True|].
    rewrite decide_False by congruence.
    destruct (String.eqb_spec n ATTR_WRITE_ONCE) as [->|H3];
      [by rewrite decide_True|].
    rewrite decide_False by congruence.
    destruct (String.eqb_spec n ATTR_WRITE_VALUE) as [->|H2];
      [by rewrite decide_True|].
    rewrite decide_False by congruence. cbn [orb].
    destruct (String.eqb_spec n attr) as [->|H1]; [by rewrite decide_True|].
    by rewrite decide_False by congruence.
  - intros q n Hq. rewrite F5, F4, F3, F2, F1.
    rewrite !decide_False by congruence. apply Hsame.
  - unfold w5, w4, w3, w2, w1.
    repeat first [rewrite bridge_writes_after_Set
                 | rewrite bridge_writes_after_Create].
    exact Hbw0.
Qed.

Lemma create_setitem_new (acc : list (string * (UsdOp * pyval)))
  (k : string) (x : UsdOp * pyval) :
  k ∉ acc.*1 → create_setitem acc k x = acc ++ [(k, x)].
Proof.
  induction acc as [|[k' x'] acc IH]; [done|].
  rewrite fmap_cons. intros [Hne Hnotin]%not_elem_of_cons.
  cbn [create_setitem fst]. cbn [fst] in Hne.
  rewrite (proj2 (String.eqb_neq k' k)) by done.
  by rewrite IH.
Qed.

Lemma create_plain (lit : pyval → option (list (list Q))) (op : UsdOp)
  (value : pyval) :
  operation op ≠ "type" →
  create lit op value
  = create_symbol_prim_value lit (op_path op) (op_value op) (op_key op) value.
Proof.
  intros Htype. unfold create. rewrite (proj2 (String.eqb_neq _ _) Htype).
  by destruct (operation op =? "attr").
Qed.

(** The change block on entries whose targets are all missing: nothing is
    written, every entry is put down for creation, in the order of the
    batch. *)
Lemma execute_pass_missing (lit : pyval → option (list (list Q)))
  (self : RuntimeUsd) (flat : list (string * pyval)) :
  ∀ cached acc w,
    cached = None ∨ cached = Some (_root_prim_path self) →
    Forall (λ kv, lacks "/" kv.1 = true ∧ lacks ":" kv.1 = true) flat →
    NoDup flat.*1 →
    (∀ k, k ∈ flat.*1 → full_key_of (_root_prim_path self) k ∉ acc.*1) →
    (∀ k, k ∈ flat.*1 →
          find_attr w (full_key_of (_root_prim_path self) k,
                       ATTR_CURRENT_VALUE) = None) →
    ∃ c' w0,
      execute_pass lit self cached flat acc w
      = Ok (acc ++ map (create_entry self) flat, c') w0 ∧
      (∀ h, find_attr w0 h = find_attr w h) ∧
      bridge_writes w0 = bridge_writes w.
Proof.
  induction flat as [|[k0 v0] rest IH];
    intros cached acc w Hc Hplain Hnd Hacc Hmissing.
  - exists cached, w. by rewrite app_nil_r.
  - destruct (root_prim_run self cached w Hc)
      as (w0 & Hroot & Hsame & Hbw & _).
    rewrite (execute_pass_cons _ _ _ _ _ _ _ _ _ Hroot).
    apply Forall_cons in Hplain as [[Hs0 Hc0] Hplain]. cbn [fst] in Hs0, Hc0.
    rewrite fmap_cons in Hnd. cbn [fst] in Hnd.
    apply NoDup_cons in Hnd as [Hnotin Hnd].
    set (root := _root_prim_path self) in *.
    assert (Hop : operation (get_op_from_key (full_key_of root k0) k0)
                  ≠ "type")
      by (by rewrite plain_key_op).
    assert (Hnone : find_attr w0
                      (op_path (get_op_from_key (full_key_of root k0) k0),
                       op_value (get_op_from_key (full_key_of root k0) k0))
                    = None).
    { rewrite plain_key_op by done. cbn [op_path op_value].
      rewrite Hsame. apply Hmissing. rewrite fmap_cons. apply list_elem_of_here. }
    rewrite (execute_missing_run lit _ v0 w0 Hop Hnone). cbn [negb].
    rewrite create_setitem_new
      by (apply Hacc; rewrite fmap_cons; apply list_elem_of_here).
    destruct (IH (Some root)
                (acc ++ [(full_key_of root k0,
                          (get_op_from_key (full_key_of root k0) k0, v0))])
                w0 (or_intror eq_refl) Hplain Hnd)
      as (c' & w' & Hrun & Hsame' & Hbw').
    + intros k Hk. rewrite fmap_app. cbn [fmap list_fmap fst].
      intros Hin.
      apply elem_of_app in Hin as [Hin|Hin%list_elem_of_singleton].
      * revert Hin. apply Hacc. rewrite fmap_cons.
        by apply list_elem_of_further.
      * apply full_key_of_inj in Hin.
        -- subst k. done.
        -- apply list_elem_of_fmap in Hk as ([k' v'] & -> & Hk).
           by apply (proj1 (Forall_forall _ _) Hplain _ Hk).
        -- done.
    + intros k Hk. rewrite Hsame. apply Hmissing. rewrite fmap_cons.
      by apply list_elem_of_further.
    + exists c', w'. split; [|split].
      * rewrite Hrun. cbn [map]. by rewrite <- app_assoc.
      * intros h. by rewrite Hsame', Hsame.
      * congruence.
Qed.

(** Creating, one after the other, the symbol nodes of entries with plain
    keys of their own, on paths that carry no attribute. *)
Lemma create_pass_fresh (lit : pyval → option (list (list Q)))
  (self : RuntimeUsd) (l : list (string * pyval)) :
  ∀ w,
    Forall (λ kv, kv.1 ≠ "" ∧ lacks "/" kv.1 = true ∧ lacks ":" kv.1 = true ∧
                  is_Some (created_value kv.2)) l →
    NoDup l.*1 →
    (∀ k n, k ∈ l.*1 →
            find_attr w (full_key_of (_root_prim_path self) k, n) = None) →
    ∃ w',
      create_pass lit (map (create_entry self) l) w = Ok tt w' ∧
      (∀ k v n, (k, v) ∈ l →
                find_attr w' (full_key_of (_root_prim_path self) k, n)
                = symbol_node ATTR_CURRENT_VALUE k v n) ∧
      (∀ q n, q ∉ map (full_key_of (_root_prim_path self)) l.*1 →
              find_attr w' (q, n) = find_attr w (q, n)) ∧
      bridge_writes w' = bridge_writes w.
Proof.
  set (root := _root_prim_path self).
  induction l as [|[k0 v0] rest IH]; intros w Hall Hnd Hfree.
  - exists w. split; [done|]. split; [|done].
    intros k v n Hin. by apply elem_of_nil in Hin.
  - apply Forall_cons in Hall as [(Hk0 & Hs0 & Hc0 & [v0' Hv0]) Hall].
    cbn [fst snd] in Hk0, Hs0, Hc0, Hv0.
    rewrite fmap_cons in Hnd. cbn [fst] in Hnd.
    apply NoDup_cons in Hnd as [Hnotin Hnd].
    destruct (create_symbol_node_run lit (full_key_of root k0)
                ATTR_CURRENT_VALUE k0 v0 v0' w)
      as (w1 & Hrun1 & Hnode1 & Hframe1 & Hbw1); [|done| |done|].
    { intros n. apply Hfree. rewrite fmap_cons. apply list_elem_of_here. }
    { apply (bool_decide_unpack _). reflexivity. }
    assert (Hother : ∀ k, k ∈ rest.*1 →
                          full_key_of root k ≠ full_key_of root k0).
    { intros k Hk E. apply full_key_of_inj in E; [by subst k| |done].
      apply list_elem_of_fmap in Hk as ([k' v'] & -> & Hk).
      by apply (proj1 (Forall_forall _ _) Hall _ Hk). }
    destruct (IH w1 Hall Hnd) as (w' & Hrun & Hnodes & Hframe & Hbw).
    { intros k n Hk. rewrite Hframe1 by (by apply Hother).
      apply Hfree. rewrite fmap_cons. by apply list_elem_of_further. }
    exists w'. split; [|split; [|split]].
    + unfold create_pass in *. cbn [map]. rewrite for_each_cons.
      cbn [create_entry fst snd]. fold root.
      rewrite create_plain by (by rewrite plain_key_op).
      rewrite plain_key_op by done. cbn [op_path op_value op_key].
      by rewrite Hrun1.
    + intros k v n [[= -> ->]|Hin]%elem_of_cons; [|by apply Hnodes].
      rewrite Hframe; [apply Hnode1|].
      intros (k' & E & Hk)%list_elem_of_fmap.
      exact (Hother k' Hk (eq_sym E)).
    + intros q n Hq. rewrite fmap_cons in Hq. cbn [map fst] in Hq.
      apply not_elem_of_cons in Hq as [Hne Hq].
      rewrite Hframe by done. by apply Hframe1.
    + congruence.
Qed.

(** The tick on a batch of new symbols. *)
Lemma fresh_batch_run
  (lit : pyval → option (list (list Q))) (self : RuntimeUsd)
  (cached : option prim_handle) (flat : list (string * pyval)) (w : world) :
  cached = None ∨ cached = Some (_root_prim_path self) →
  NoDup flat.*1 →
  Forall (λ kv, kv.1 ≠ "" ∧ lacks "/" kv.1 = true ∧ lacks ":" kv.1 = true ∧
                is_Some (created_value kv.2)) flat →
  (∀ k n, k ∈ flat.*1 →
          find_attr w (full_key_of (_root_prim_path self) k, n) = None) →
  ∃ c' w',
    _on_update_event_changes lit self cached flat w = Ok c' w' ∧
    (∀ k v n, (k, v) ∈ flat →
       find_attr w' (full_key_of (_root_prim_path self) k, n)
       = symbol_node ATTR_CURRENT_VALUE k v n) ∧
    (∀ q n, q ∉ map (full_key_of (_root_prim_path self)) flat.*1 →
            find_attr w' (q, n) = find_attr w (q, n)) ∧
    bridge_writes w' = bridge_writes w.
Proof.
  intros Hc Hnd Hall Hfree.
  assert (Hplain : Forall (λ kv, lacks "/" kv.1 = true ∧
                                 lacks ":" kv.1 = true) flat).
  { eapply Forall_impl; [exact Hall|]. by intros kv (_ & ? & ? & _). }
  destruct (execute_pass_missing lit self flat cached [] w Hc Hplain Hnd)
    as (c' & w0 & Hexec & Hsame & Hbw0).
  { intros k _. rewrite fmap_nil. apply not_elem_of_nil. }
  { intros k Hk. by apply Hfree. }
  destruct (create_pass_fresh lit self flat w0 Hall Hnd)
    as (w' & Hcreate & Hnodes & Hframe & Hbw).
  { intros k n Hk. rewrite Hsame. by apply Hfree. }
  exists c', w'. split; [|split; [|split]].
  - unfold _on_update_event_changes.
    erewrite bind_Ok by exact Hexec. cbn [fst snd app].
    by erewrite bind_Ok by exact Hcreate.
  - intros k v n Hin. by apply Hnodes.
  - intros q n Hq. rewrite Hframe by done. apply Hsame.
  - congruence.
Qed.

(** X20.  A batch of new symbols gets all its nodes.  When the entries of the
    drained dictionary have keys without slash and colon, none empty, values
    that are strings, booleans or numbers, and no attribute exists yet on
    the paths they name, the tick writes nothing in the change block and
    then builds one symbol node per entry, nested paths included: the node
    of an entry holds its value under [value] and [write:value], both flags
    false and the key under [symbol], so it carries the whole bundle and is
    the target of the entry from the next tick on.  Every attribute of every
    other prim is as it was, and nothing goes to the bridge. *)
Theorem fresh_batch_creates_symbol_nodes
  (lit : pyval → option (list (list Q))) (self : RuntimeUsd)
  (cached : option prim_handle) (flat : list (string * pyval)) (w : world) :
  cached = None ∨ cached = Some (_root_prim_path self) →
  NoDup flat.*1 →
  Forall (λ kv, kv.1 ≠ "" ∧ lacks "/" kv.1 = true ∧ lacks ":" kv.1 = true ∧
                is_Some (created_value kv.2)) flat →
  (∀ k n, k ∈ flat.*1 →
          find_attr w (full_key_of (_root_prim_path self) k, n) = None) →
  ∃ c' w',
    _on_update_event_changes lit self cached flat w = Ok c' w' ∧
    (∀ k v, (k, v) ∈ flat →
       target self k
       = (full_key_of (_root_prim_path self) k, ATTR_CURRENT_VALUE) ∧
       (∀ n, find_attr w' (full_key_of (_root_prim_path self) k, n)
             = symbol_node ATTR_CURRENT_VALUE k v n) ∧
       has_symbol_bundle w' (full_key_of (_root_prim_path self) k) = true) ∧
    (∀ q n, q ∉ map (full_key_of (_root_prim_path self)) flat.*1 →
            find_attr w' (q, n) = find_attr w (q, n)) ∧
    bridge_writes w' = bridge_writes w.
Proof.
  intros Hc Hnd Hall Hfree.
  destruct (fresh_batch_run lit self cached flat w Hc Hnd Hall Hfree)
    as (c' & w' & Hrun & Hnodes & Hframe & Hbw).
  exists c', w'. split; [done|]. split; [|done].
  intros k v Hin.
  pose proof (proj1 (Forall_forall _ _) Hall _ Hin) as (_ & Hs & Hcol & _).
  cbn [fst] in Hs, Hcol. split; [|split].
  - unfold target. by rewrite plain_key_op.
  - intros n. by apply Hnodes.
  - unfold has_symbol_bundle. by rewrite !(Hnodes k v _ Hin).
Qed.

Lemma fresh_batch_creates_symbol_nodes_witness :
  ∃ c' w',
    _on_update_event_changes int_matrix_literal listener None
      [("axis.pos", PInt 3); ("name", PStr "m1")] bare_world = Ok c' w' ∧
    (∀ k v, (k, v) ∈ [("axis.pos", PInt 3); ("name", PStr "m1")] →
       target listener k
       = (full_key_of (_root_prim_path listener) k, ATTR_CURRENT_VALUE) ∧
       (∀ n, find_attr w' (full_key_of (_root_prim_path listener) k, n)
             = symbol_node ATTR_CURRENT_VALUE k v n) ∧
       has_symbol_bundle w' (full_key_of (_root_prim_path listener) k)
       = true) ∧
    (∀ q n, q ∉ map (full_key_of (_root_prim_path listener))
                  [("axis.pos", PInt 3); ("name", PStr "m1")].*1 →
            find_attr w' (q, n) = find_attr bare_world (q, n)) ∧
    bridge_writes w' = bridge_writes bare_world.
Proof.
  apply (fresh_batch_creates_symbol_nodes int_matrix_literal listener None
           [("axis.pos", PInt 3); ("name", PStr "m1")] bare_world).
  - by left.
  - apply (bool_decide_unpack _). reflexivity.
  - repeat constructor; try discriminate; by eexists.
  - intros k n Hk. apply list_elem_of_In in Hk.
    destruct Hk as [<-|[<-|[]]]; reflexivity.
Defined.

(** ** From a payload to the document *)

Lemma lacks_concat (c : ascii) (sep : string) (l : list string) :
  lacks c sep = true → Forall (λ p, lacks c p = true) l →
  lacks c (String.concat sep l) = true.
Proof.
  intros Hsep. induction l as [|a l IH]; [done|].
  intros [Ha Hl]%Forall_cons. destruct l as [|b l]; [done|].
  rewrite concat_cons_cons, !lacks_app, Ha, Hsep. by apply IH.
Qed.

Lemma flat_key_nonempty (k : string) (p : list string) :
  k ≠ "" → flat_key (k :: p) ≠ "".
Proof.
  intros Hk. destruct p as [|b p]; [done|].
  change (flat_key (k :: b :: p)) with (k +:+ "." +:+ flat_key (b :: p)).
  destruct k; [done|]. by rewrite append_cons.
Qed.

Lemma full_key_of_flat_key (root : string) (path : list string) :
  path ≠ [] → Forall (λ k, dot_free k = true) path →
  full_key_of root (flat_key path)
  = root +:+ "/" +:+ String.concat "/" path.
Proof.
  intros Hne Hall. unfold full_key_of, flat_key.
  rewrite split_on_concat; [done|done|].
  eapply Forall_impl; [exact Hall|]. intros k Hk. by rewrite <- dot_free_lacks.
Qed.

(** X21.  What a payload becomes in the document.  Take a message whose data
    is a nested dictionary with field names that are not empty and hold no
    dot, slash or colon, and with strings, booleans and numbers as leaves,
    read into an empty staging buffer, on a stage where the paths of its
    leaves carry no attribute.  The handler deposits one entry per leaf, the
    next tick drains exactly these entries and, applied to them in the order
    of the traversal, returns: every leaf at path [a, b, ..., z] has its
    symbol node at root/a/b/.../z with the leaf value under [value] and
    [write:value], both flags false and the dotted key a.b. ... .z under
    [symbol]; nothing goes to the bridge. *)
Theorem payload_becomes_symbol_nodes (lit : pyval → option (list (list Q)))
  (self : RuntimeUsd) (ev : event) (items : list (string * pyval))
  (cached : option prim_handle) (w : world) :
  payload ev !! "data" = Some (PDict items) →
  _data_update self = ∅ →
  cached = None ∨ cached = Some (_root_prim_path self) →
  wf_payload (PDict items) →
  dot_free_fields (PDict items) →
  leaves (PDict items) ≠ [] →
  Forall (λ pv, Forall (λ k, k ≠ "" ∧ lacks "/" k = true ∧
                             lacks ":" k = true) pv.1 ∧
                is_Some (created_value pv.2)) (leaves (PDict items)) →
  (∀ path v n,
     (path, v) ∈ leaves (PDict items) →
     find_attr w (_root_prim_path self +:+ "/" +:+ String.concat "/" path, n)
     = None) →
  ∃ self' c' w',
    _on_data_read self ev = Some self' ∧
    (_on_update_event false self').1
    = Some (list_to_map (flat_entries (PDict items))) ∧
    _on_update_event_changes lit self' cached (flat_entries (PDict items)) w
    = Ok c' w' ∧
    (∀ path v n,
       (path, v) ∈ leaves (PDict items) →
       find_attr w'
         (_root_prim_path self +:+ "/" +:+ String.concat "/" path, n)
       = symbol_node ATTR_CURRENT_VALUE (flat_key path) v n) ∧
    bridge_writes w' = bridge_writes w.
Proof.
  intros Hdata Hbuf Hc Hwf Hdf Hne Hall Hfree.
  set (obj := PDict items) in *. set (root := _root_prim_path self) in *.
  set (fe := flat_entries obj).
  assert (Hnd : NoDup fe.*1) by (by apply flat_entries_NoDup).
  assert (Hpath : ∀ p v, (p, v) ∈ leaves obj →
            p ≠ [] ∧ Forall (λ k, dot_free k = true) p ∧
            full_key_of root (flat_key p)
            = root +:+ "/" +:+ String.concat "/" p).
  { intros p v Hin.
    assert (p ≠ []) by (by apply leaves_dict_head in Hin as (? & ? & -> & _)).
    pose proof (leaves_dot_free obj Hdf p v Hin).
    split; [done|]. split; [done|]. by apply full_key_of_flat_key. }
  assert (Hbuf' : dict_update ∅ (flatten_obj obj) = list_to_map fe).
  { unfold dict_update. rewrite (right_id_L ∅ (∪)), flatten_obj_entries.
    apply list_to_map_proper; [|apply reverse_Permutation].
    by rewrite fmap_reverse, reverse_Permutation. }
  set (self' := {| _root_prim_path := root; _data_update := list_to_map fe |}).
  destruct (fresh_batch_run lit self' cached fe w Hc Hnd)
    as (c' & w' & Hrun & Hnodes & _ & Hbw).
  { apply Forall_forall. intros [k v] Hin.
    apply list_elem_of_fmap in Hin as ([p v'] & [= -> ->] & Hin).
    pose proof (proj1 (Forall_forall _ _) Hall _ Hin) as [Hnames Hval].
    cbn [fst snd] in *.
    destruct (Hpath p v' Hin) as (Hp & _ & _).
    destruct p as [|k0 p]; [done|].
    split; [|split; [|split]]; [| | |done].
    - apply flat_key_nonempty. by apply Forall_cons in Hnames as [[? _] _].
    - apply lacks_concat; [done|].
      eapply Forall_impl; [exact Hnames|]. by intros k (_ & ? & _).
    - apply lacks_concat; [done|].
      eapply Forall_impl; [exact Hnames|]. by intros k (_ & _ & ?). }
  { intros k n Hk.
    apply list_elem_of_fmap in Hk as ([k' v] & -> & Hk).
    apply list_elem_of_fmap in Hk as ([p v'] & [= -> ->] & Hin).
    cbn [fst _root_prim_path self'].
    destruct (Hpath p v' Hin) as (_ & _ & ->). by apply (Hfree p v'). }
  exists self', c', w'. split; [|split; [|split; [|split]]].
  - unfold _on_data_read. rewrite Hdata, Hbuf. fold obj. by rewrite Hbuf'.
  - unfold _on_update_event. cbn [_data_update self'].
    rewrite map_size_list_to_map by done. unfold fe, flat_entries.
    rewrite length_map. by destruct (leaves obj).
  - exact Hrun.
  - intros p v n Hin.
    assert (Hfe : (flat_key p, v) ∈ fe).
    { apply list_elem_of_fmap. by exists (p, v). }
    pose proof (Hnodes _ _ n Hfe) as Hnode.
    cbn [_root_prim_path self'] in Hnode.
    destruct (Hpath p v Hin) as (_ & _ & E). by rewrite E in Hnode.
  - exact Hbw.
Qed.

Lemma payload_becomes_symbol_nodes_witness :
  ∃ self' c' w',
    _on_data_read listener (data_event sample_payload) = Some self' ∧
    (_on_update_event false self').1
    = Some (list_to_map (flat_entries sample_payload)) ∧
    _on_update_event_changes int_matrix_literal self' None
      (flat_entries sample_payload) bare_world = Ok c' w' ∧
    (∀ path v n,
       (path, v) ∈ leaves sample_payload →
       find_attr w'
         (_root_prim_path listener +:+ "/" +:+ String.concat "/" path, n)
       = symbol_node ATTR_CURRENT_VALUE (flat_key path) v n) ∧
    bridge_writes w' = bridge_writes bare_world.
Proof.
  apply (payload_becomes_symbol_nodes int_matrix_literal listener
           (data_event sample_payload)
           [("axis", PDict [("pos", PFloat (3 # 2));
                            ("state", PDict [("on", PBool true)])]);
            ("name", PStr "m1")] None bare_world).
  - reflexivity.
  - reflexivity.
  - by left.
  - cbn. repeat split; apply (bool_decide_unpack _); reflexivity.
  - cbn. repeat split.
  - discriminate.
  - cbn. repeat constructor; try discriminate; by eexists.
  - intros path v n Hin. apply list_elem_of_In in Hin. cbn in Hin.
    destruct Hin as [[= <- <-]|[[= <- <-]|[[= <- <-]|[]]]]; reflexivity.
Defined.
